(** * satsim60: attitude and propulsion control core

    A shallow embedding of the control logic of the simulator
    (attitudeControl.js, thrusterSetup.js and the fuel, configuration,
    keyboard, frame, docking and clock parts of spacecraftManager.js),
    followed by the properties proved about it.

    Numbers.  JavaScript numbers are modelled by real numbers: rounding,
    infinities and signed zeros are left out.  [NaN] is kept where the code
    parses configuration values, because the behaviour of [parseFloat] and
    of the [??] operator on it is what the configuration code turns on. *)

From Stdlib Require Import Reals Lra Lia Ascii String.
From stdpp Require Import base decidable option list strings pretty gmap.

#[global] Instance Rlt_decision : RelDecision Rlt := Rlt_dec.
#[global] Instance Rle_decision : RelDecision Rle := Rle_dec.
#[global] Instance Rgt_decision : RelDecision Rgt := Rgt_dec.
#[global] Instance Rge_decision : RelDecision Rge := Rge_dec.
#[global] Instance Req_decision : EqDecision R := Req_dec_T.

(** ** CANNON.Vec3 (the operations the control code calls) *)

Module Vec3.
Local Open Scope R_scope.

Record t : Type := mk { x : R; y : R; z : R }.

Definition zero : t := mk 0 0 0.

Definition dot (a b : t) : R := x a * x b + y a * y b + z a * z b.

Definition cross (a b : t) : t :=
  mk (y a * z b - z a * y b) (z a * x b - x a * z b) (x a * y b - y a * x b).

Definition scale (s : R) (a : t) : t := mk (s * x a) (s * y a) (s * z a).

Definition vadd (a b : t) : t := mk (x a + x b) (y a + y b) (z a + z b).

Definition vsub (a b : t) : t := mk (x a - x b) (y a - y b) (z a - z b).

Definition length (a : t) : R := sqrt (x a * x a + y a * y a + z a * z a).

(** [unit] normalises; a vector of length 0 becomes (1,0,0). *)
Definition unit (a : t) : t :=
  let ninv := length a in
  if decide (ninv > 0) then
    let ninv := 1 / ninv in
    mk (x a * ninv) (y a * ninv) (z a * ninv)
  else mk 1 0 0.
End Vec3.

(** ** JavaScript values met in configuration files *)

Module JS.
Local Open Scope R_scope.

Inductive number : Type := NaN | Fin (r : R).

(** What a field of a configuration object can hold, arrays apart;
    [undefined] is an absent field, [object] a plain object. *)
Inductive value : Type :=
| undefined
| null
| boolean (b : bool)
| num (n : number)
| str (s : string)
| object.

Definition isNaN (n : number) : bool :=
  match n with NaN => true | Fin _ => false end.

(** [a <= b] on numbers: false as soon as one side is NaN. *)
Definition le (a b : number) : bool :=
  match a, b with
  | Fin p, Fin q => bool_decide (p <= q)
  | _, _ => false
  end.

Definition gt (a b : number) : bool :=
  match a, b with
  | Fin p, Fin q => bool_decide (p > q)
  | _, _ => false
  end.

Definition lift2 (f : R -> R -> R) (a b : number) : number :=
  match a, b with
  | Fin p, Fin q => Fin (f p q)
  | _, _ => NaN
  end.

Definition add := lift2 Rplus.
Definition sub := lift2 Rminus.
Definition mul := lift2 Rmult.
Definition div := lift2 Rdiv.

Definition sqrt (a : number) : number :=
  match a with
  | Fin p => if decide (p < 0) then NaN else Fin (R_sqrt.sqrt p)
  | NaN => NaN
  end.

(** [a ?? b]: the right operand only when the left one is null or
    undefined. *)
Definition coalesce (a b : value) : value :=
  match a with
  | undefined | null => b
  | _ => a
  end.

(** [a !== false] *)
Definition notFalse (a : value) : bool :=
  match a with
  | boolean false => false
  | _ => true
  end.

Section ParseFloat.
(** The scanner of the longest decimal-literal prefix of a string is
    the host's; it returns NaN when there is no such prefix. *)
Variable StringToNumber : string -> number.

(** [parseFloat v]: [v] is converted to a string and scanned.  The
    strings of undefined, null, booleans and plain objects have no
    numeric prefix; a number prints to a literal that scans back to
    it. *)
Definition parseFloat (v : value) : number :=
  match v with
  | num n => n
  | str s => StringToNumber s
  | undefined | null | boolean _ | object => NaN
  end.
End ParseFloat.

(** Vectors whose components may be NaN, with CANNON's [unit]. *)
Record nvec : Type := mkn { nx : number; ny : number; nz : number }.

Definition nunit (a : nvec) : nvec :=
  let ninv := sqrt (add (add (mul (nx a) (nx a)) (mul (ny a) (ny a)))
                        (mul (nz a) (nz a))) in
  if gt ninv (Fin 0) then
    let ninv := div (Fin 1) ninv in
    mkn (mul (nx a) ninv) (mul (ny a) ninv) (mul (nz a) ninv)
  else mkn (Fin 1) (Fin 0) (Fin 0).
End JS.

(** ** thrusterSetup.js *)

(** The configuration entry of one thruster, as read from JSON. *)
Module ThrusterCfg.
Record t : Type := mk {
  name : option string;
  position : Vec3.t;
  direction : Vec3.t;
  thrust : JS.value;
  isp : JS.value;
  autoBind : JS.value;
  keybind : option (list string)
}.
End ThrusterCfg.

(** The thruster object built by [processThrusterConfig]. *)
Module Thruster.
Record t : Type := mk {
  pos : Vec3.t;
  dir : Vec3.t;
  thrust : R;
  isp : R;
  active : bool;
  index : nat
}.

Definition set_active (b : bool) (th : t) : t :=
  mk (pos th) (dir th) (thrust th) (isp th) b (index th).
End Thruster.

Module ThrusterSetup.
Local Open Scope R_scope.

Definition TRANSLATION_ANGLE_DEGREES : R := 90 - 25.
Definition TRANSLATION_TOLERANCE : R :=
  cos (TRANSLATION_ANGLE_DEGREES * PI / 180).

(** [keyToThrusterIndices]: an object from key names to arrays of
    thruster indices, shared with the caller and filled by [push]. *)
Abbreviation KeyMap := (gmap string (list nat)).

(** The object the simulation creates before loading thrusters. *)
Definition emptyKeyMap : KeyMap :=
  list_to_map
    ((λ k : string, (k, @nil nat)) <$>
     ["w"; "s"; "a"; "d"; "q"; "e"; "i"; "k"; "j"; "l"; "u"; "o"]).

(** Code that mutates the shared key map and may throw a TypeError:
    the map comes back as it was left, the result is [None] after a
    throw. *)
Definition Bind (A : Type) : Type := KeyMap → KeyMap * option A.

Definition throw {A} : Bind A := λ m, (m, None).

#[global] Instance Bind_ret : MRet Bind := λ A a m, (m, Some a).
#[global] Instance Bind_bind : MBind Bind := λ A B k c m,
  match c m with
  | (m', Some a) => k a m'
  | (m', None) => (m', None)
  end.

(** [keyToThrusterIndices[k].push(i)]; the lookup of a key the object
    does not own gives undefined, and the call throws. *)
Definition push (k : string) (i : nat) : Bind () :=
  λ m, match m !! k with
       | Some l => (<[k := l ++ [i]]> m, Some ())
       | None => throw m
       end.

Fixpoint pushAll (ks : list string) (i : nat) : Bind () :=
  match ks with
  | [] => mret ()
  | k :: ks => push k i;; pushAll ks i
  end.

(** Translation keys of a direction, in the order the code tests the
    axes: Z (w/s), X (a/d), Y (e/q). *)
Definition translationKeys (dir : Vec3.t) : list string :=
  (if decide (Rabs (Vec3.dot dir (Vec3.mk 0 0 1)) > TRANSLATION_TOLERANCE)
   then [if decide (Vec3.z dir > 0) then "w" else "s"] else []) ++
  (if decide (Rabs (Vec3.dot dir (Vec3.mk 1 0 0)) > TRANSLATION_TOLERANCE)
   then [if decide (Vec3.x dir > 0) then "a" else "d"] else []) ++
  (if decide (Rabs (Vec3.dot dir (Vec3.mk 0 1 0)) > TRANSLATION_TOLERANCE)
   then [if decide (Vec3.y dir > 0) then "e" else "q"] else []).

(** Rotation keys from torque = lever x direction: pitch (k/i), yaw
    (j/l), roll (o/u). *)
Definition rotationKeys (pos dir : Vec3.t) : list string :=
  let lever := pos in
  let torque := Vec3.cross lever dir in
  (if decide (Rabs (Vec3.x torque) > 0.025)
   then [if decide (Vec3.x torque > 0) then "k" else "i"] else []) ++
  (if decide (Rabs (Vec3.y torque) > 0.025)
   then [if decide (Vec3.y torque > 0) then "j" else "l"] else []) ++
  (if decide (Rabs (Vec3.z torque) > 0.025)
   then [if decide (Vec3.z torque > 0) then "o" else "u"] else []).

Definition autoBindKeys (pos dir : Vec3.t) : list string :=
  translationKeys dir ++ rotationKeys pos dir.

(** [toLowerCase] and [trim] on ASCII strings. *)
Definition lowerAscii (c : ascii) : ascii :=
  let n := nat_of_ascii c in
  if decide (65 ≤ n ∧ n ≤ 90)%nat then ascii_of_nat (n + 32) else c.

Fixpoint toLowerCase (s : string) : string :=
  match s with
  | EmptyString => EmptyString
  | String c s => String (lowerAscii c) (toLowerCase s)
  end.

Fixpoint trimStart (s : string) : string :=
  match s with
  | EmptyString => EmptyString
  | String c s' => if Ascii.is_space c then trimStart s' else s
  end.

Definition trim (s : string) : string :=
  String.rev (trimStart (String.rev (trimStart s))).

(** Lower-case names every object inherits from Object.prototype: the
    lookup is truthy but what it finds has no [push]. *)
Definition inheritedKey (k : string) : bool :=
  bool_decide (k = "constructor") || bool_decide (k = "__proto__").

(** One custom key of a thruster with [autoBind: false]. *)
Definition customBind (key : string) (i : nat) : Bind () :=
  let normalizedKey := trim (toLowerCase key) in
  if bool_decide (normalizedKey = "") then mret ()
  else λ m,
    match m !! normalizedKey with
    | Some _ => push normalizedKey i m
    | None => if inheritedKey normalizedKey then throw m else (m, Some ())
    end.

Fixpoint customBindAll (keys : list string) (i : nat) : Bind () :=
  match keys with
  | [] => mret ()
  | key :: keys => customBind key i;; customBindAll keys i
  end.

(** The sanitised value of [thrust] or [isp]: the fallback replaces NaN
    and non-positive values. *)
Definition sanitize (fallback : R) (n : JS.number) : R :=
  if JS.isNaN n || JS.le n (JS.Fin 0) then fallback
  else match n with JS.Fin r => r | JS.NaN => fallback end.

Section WithScanner.
Variable StringToNumber : string → JS.number.

(** The body of [config.thrusters.map((t, i) => ...)]. *)
Definition processThruster (centerOfMass : Vec3.t)
    (i : nat) (t : ThrusterCfg.t) : Bind Thruster.t :=
  let pos := Vec3.vsub (ThrusterCfg.position t) centerOfMass in
  let dir := Vec3.unit (ThrusterCfg.direction t) in
  let thrust :=
    sanitize 50 (JS.parseFloat StringToNumber (ThrusterCfg.thrust t)) in
  let isp :=
    sanitize 300 (JS.parseFloat StringToNumber (ThrusterCfg.isp t)) in
  let autoBind := JS.notFalse (ThrusterCfg.autoBind t) in
  let customKeybinds := default [] (ThrusterCfg.keybind t) in
  (if autoBind then pushAll (autoBindKeys pos dir) i
   else customBindAll customKeybinds i);;
  mret (Thruster.mk pos dir thrust isp false i).

Fixpoint processFrom (centerOfMass : Vec3.t) (i : nat)
    (ts : list ThrusterCfg.t) : Bind (list Thruster.t) :=
  match ts with
  | [] => mret []
  | t :: ts =>
      th ← processThruster centerOfMass i t;
      rest ← processFrom centerOfMass (S i) ts;
      mret (th :: rest)
  end.

Definition processThrusterConfig (config : list ThrusterCfg.t)
    (centerOfMass : Vec3.t) : Bind (list Thruster.t) :=
  processFrom centerOfMass 0 config.

(** The exported entry point: an exception gives the empty array, and
    the key map keeps what was pushed before it. *)
Definition initializeThrustersWithConfig (config : list ThrusterCfg.t)
    (centerOfMass : Vec3.t) (m : KeyMap) : KeyMap * list Thruster.t :=
  match processThrusterConfig config centerOfMass m with
  | (m', Some thrusters) => (m', thrusters)
  | (m', None) => (m', [])
  end.
End WithScanner.
End ThrusterSetup.

(** ** attitudeControl.js *)

(** A reaction wheel whose configuration is numeric. *)
Module Wheel.
Record t : Type := mk {
  index : nat;
  orientation : Vec3.t;
  position : Vec3.t;
  maxAngularMomentum : R;
  maxTorque : R;
  currentAngularMomentum : R
}.

Definition set_currentAngularMomentum (h : R) (w : t) : t :=
  mk (index w) (orientation w) (position w) (maxAngularMomentum w)
     (maxTorque w) h.
End Wheel.

(** A control moment gyroscope whose configuration is numeric. *)
Module CMG.
Record t : Type := mk {
  index : nat;
  maxAngularMomentum : R;
  maxTorque : R;
  currentAngularMomentum : Vec3.t
}.

Definition set_currentAngularMomentum (h : Vec3.t) (c : t) : t :=
  mk (index c) (maxAngularMomentum c) (maxTorque c) h.
End CMG.

Module AttitudeControl.
Local Open Scope R_scope.

Inductive Mode : Type := mode_thrusters | mode_reactionwheels | mode_cmgs.

#[global] Instance Mode_eq_dec : EqDecision Mode.
Proof. solve_decision. Defined.

(** What the controller asks of the rigid body.  A torque is recorded in
    the vehicle frame; the code rotates it by the body quaternion before
    handing it to the physics engine. *)
Inductive BodyInput : Type :=
| applyTorque (localTorque : Vec3.t)
| applyLocalForce (force point : Vec3.t).

Record System : Type := mkSystem {
  mode : Mode;
  reactionWheels : list Wheel.t;
  cmgs : list CMG.t;
  loaded : bool;
  desaturationActive : bool;
  satBody : list BodyInput
}.

Definition set_mode (m : Mode) (s : System) : System :=
  mkSystem m (reactionWheels s) (cmgs s) (loaded s) (desaturationActive s)
           (satBody s).
Definition set_reactionWheels (ws : list Wheel.t) (s : System) : System :=
  mkSystem (mode s) ws (cmgs s) (loaded s) (desaturationActive s) (satBody s).
Definition set_cmgs (cs : list CMG.t) (s : System) : System :=
  mkSystem (mode s) (reactionWheels s) cs (loaded s) (desaturationActive s)
           (satBody s).
Definition set_desaturationActive (b : bool) (s : System) : System :=
  mkSystem (mode s) (reactionWheels s) (cmgs s) (loaded s) b (satBody s).
Definition send (i : list BodyInput) (s : System) : System :=
  mkSystem (mode s) (reactionWheels s) (cmgs s) (loaded s)
           (desaturationActive s) (satBody s ++ i).

(** The time step of the momentum bookkeeping. *)
Definition dt : R := 1 / 60.

Definition toggleMode (s : System) : System * Mode :=
  if loaded s then
    let s' :=
      match mode s with
      | mode_thrusters => set_mode mode_reactionwheels s
      | mode_reactionwheels =>
          if decide (0 < length (cmgs s))%nat then set_mode mode_cmgs s
          else set_mode mode_thrusters s
      | mode_cmgs => set_mode mode_thrusters s
      end in
    (s', mode s')
  else (s, mode_thrusters).

(** *** Reaction wheels *)

Definition actualTorqueApplied (torque : Vec3.t) (wheel : Wheel.t) : R :=
  let wheelAxis := Wheel.orientation wheel in
  let requestedTorqueAlongWheel := Vec3.dot wheelAxis torque in
  if decide (requestedTorqueAlongWheel > 0) then
    let momentumCapacity :=
      Wheel.maxAngularMomentum wheel - Wheel.currentAngularMomentum wheel in
    let maxPossibleTorque := momentumCapacity / dt in
    Rmin requestedTorqueAlongWheel maxPossibleTorque
  else if decide (requestedTorqueAlongWheel < 0) then
    let momentumCapacity :=
      Wheel.currentAngularMomentum wheel - - Wheel.maxAngularMomentum wheel in
    let maxPossibleTorque := momentumCapacity / dt in
    Rmax requestedTorqueAlongWheel (- maxPossibleTorque)
  else 0.

(** One pass of the loop body: the wheel after the call, and the
    reaction torque passed to the body. *)
Definition wheelControl (torque : Vec3.t) (wheel : Wheel.t)
    : Wheel.t * BodyInput :=
  let applied := actualTorqueApplied torque wheel in
  let deltaMomentum := applied * dt in
  let reactionTorque := Vec3.scale (- applied) (Wheel.orientation wheel) in
  (Wheel.set_currentAngularMomentum
     (Wheel.currentAngularMomentum wheel + deltaMomentum) wheel,
   applyTorque reactionTorque).

Definition applyReactionWheelControl (torque : Vec3.t) (s : System)
    : System :=
  let r := wheelControl torque <$> reactionWheels s in
  send (r.*2) (set_reactionWheels (r.*1) s).

(** *** Control moment gyroscopes *)

Definition cmgActualTorque (desiredLocalTorque : Vec3.t) (cmg : CMG.t)
    : Vec3.t :=
  let currentMomentumMag := Vec3.length (CMG.currentAngularMomentum cmg) in
  let actualTorque := desiredLocalTorque in
  let desiredDeltaMomentum := Vec3.scale (dt * -1) actualTorque in
  let dotProduct :=
    Vec3.dot (CMG.currentAngularMomentum cmg) desiredDeltaMomentum in
  let actualTorque :=
    if decide (dotProduct > 0) then
      if decide (currentMomentumMag >= CMG.maxAngularMomentum cmg) then
        let availableMomentum :=
          CMG.maxAngularMomentum cmg - currentMomentumMag in
        let scaleFactor := availableMomentum / dotProduct in
        Vec3.scale scaleFactor actualTorque
      else actualTorque
    else actualTorque in
  let actualTorqueMag := Vec3.length actualTorque in
  if decide (actualTorqueMag > CMG.maxTorque cmg) then
    Vec3.scale (CMG.maxTorque cmg / actualTorqueMag) actualTorque
  else actualTorque.

Definition cmgControl (torque : Vec3.t) (cmg : CMG.t)
    : CMG.t * BodyInput :=
  let actualTorque := cmgActualTorque torque cmg in
  let deltaMomentum := Vec3.scale (dt * -1) actualTorque in
  (CMG.set_currentAngularMomentum
     (Vec3.vadd (CMG.currentAngularMomentum cmg) deltaMomentum) cmg,
   applyTorque actualTorque).

Definition applyCMGControl (torque : Vec3.t) (s : System) : System :=
  let r := cmgControl torque <$> cmgs s in
  send (r.*2) (set_cmgs (r.*1) s).

Definition applyControlTorque (torque : Vec3.t) (s : System) : System :=
  match mode s with
  | mode_reactionwheels => applyReactionWheelControl torque s
  | mode_cmgs => applyCMGControl torque s
  | mode_thrusters => s
  end.

(** *** Desaturation with thrusters *)

Definition totalWheelMomentum (ws : list Wheel.t) : Vec3.t :=
  foldl (λ totalMomentum wheel,
           let momentum :=
             Vec3.scale (Wheel.currentAngularMomentum wheel)
                        (Wheel.orientation wheel) in
           Vec3.vadd totalMomentum momentum)
        Vec3.zero ws.

Definition bleedWheel (alignment : R) (wheel : Wheel.t) : Wheel.t :=
  let reduction :=
    Vec3.scale (alignment * 0.01) (Wheel.orientation wheel) in
  let newMomentum :=
    Wheel.currentAngularMomentum wheel - Vec3.length reduction in
  Wheel.set_currentAngularMomentum
    (Rmax (- Wheel.maxAngularMomentum wheel)
          (Rmin (Wheel.maxAngularMomentum wheel) newMomentum))
    wheel.

(** The body of the loop over thrusters, reaction-wheel branch. *)
Definition wheelDesaturationFiring (thrustDirection : Vec3.t)
    (st : list Wheel.t * list BodyInput) (thruster : Thruster.t)
    : list Wheel.t * list BodyInput :=
  let torqueDirection :=
    Vec3.cross (Thruster.pos thruster) (Thruster.dir thruster) in
  let alignment := Vec3.dot torqueDirection thrustDirection in
  if decide (alignment > 0.5) then
    let force :=
      Vec3.scale (Thruster.thrust thruster * 0.5) (Thruster.dir thruster) in
    (bleedWheel alignment <$> st.1,
     st.2 ++ [applyLocalForce force (Thruster.pos thruster)])
  else st.

Definition maxWheelMomentum (ws : list Wheel.t) : R :=
  foldl (λ maxMomentum wheel,
           Rmax maxMomentum (Rabs (Wheel.currentAngularMomentum wheel)))
        0 ws.

Definition totalCMGMomentum (cs : list CMG.t) : Vec3.t :=
  foldl (λ totalMomentum cmg,
           Vec3.vadd totalMomentum (CMG.currentAngularMomentum cmg))
        Vec3.zero cs.

Definition bleedCMG (momentumDir : Vec3.t) (cmg : CMG.t) : CMG.t :=
  let reductionFactor := 0.02 in
  let reduction := Vec3.scale reductionFactor momentumDir in
  CMG.set_currentAngularMomentum
    (Vec3.vsub (CMG.currentAngularMomentum cmg) reduction) cmg.

(** The body of the loop over thrusters, CMG branch. *)
Definition cmgDesaturationFiring (momentumDir : Vec3.t)
    (st : list CMG.t * list BodyInput) (thruster : Thruster.t)
    : list CMG.t * list BodyInput :=
  let torqueDirection :=
    Vec3.cross (Thruster.pos thruster) (Thruster.dir thruster) in
  let alignment := Vec3.dot torqueDirection momentumDir in
  if decide (alignment > 0.5) then
    let force :=
      Vec3.scale (Thruster.thrust thruster * 0.3) (Thruster.dir thruster) in
    (bleedCMG momentumDir <$> st.1,
     st.2 ++ [applyLocalForce force (Thruster.pos thruster)])
  else st.

Definition desaturateWithThrusters (thrusters : list Thruster.t)
    (s : System) : System :=
  match mode s with
  | mode_reactionwheels =>
      let totalMomentum := totalWheelMomentum (reactionWheels s) in
      let st :=
        if decide (Vec3.length totalMomentum > 0.1) then
          let thrustDirection :=
            Vec3.scale (-1) (Vec3.unit totalMomentum) in
          foldl (wheelDesaturationFiring thrustDirection)
                (reactionWheels s, []) thrusters
        else (reactionWheels s, []) in
      let maxMomentum := maxWheelMomentum st.1 in
      set_desaturationActive
        (if decide (maxMomentum < 0.5) then false else true)
        (send st.2 (set_reactionWheels st.1 s))
  | mode_cmgs =>
      let totalMomentum := totalCMGMomentum (cmgs s) in
      let totalMomentumMag := Vec3.length totalMomentum in
      let st :=
        if decide (totalMomentumMag > 10) then
          let momentumDir := Vec3.scale (-1) (Vec3.unit totalMomentum) in
          foldl (cmgDesaturationFiring momentumDir) (cmgs s, []) thrusters
        else (cmgs s, []) in
      let totalMomentum := totalCMGMomentum st.1 in
      set_desaturationActive
        (if decide (Vec3.length totalMomentum < 5) then false else true)
        (send st.2 (set_cmgs st.1 s))
  | mode_thrusters => s
  end.

(** The part of [resetSimulation] that touches the controller. *)
Definition resetActuators (s : System) : System :=
  set_cmgs (CMG.set_currentAngularMomentum Vec3.zero <$> cmgs s)
    (set_reactionWheels
       (Wheel.set_currentAngularMomentum 0 <$> reactionWheels s)
       (set_mode mode_thrusters s)).

(** The operations a session applies to the controller. *)
Inductive Op : Type :=
| OpToggleMode
| OpApplyControlTorque (torque : Vec3.t)
| OpDesaturate (thrusters : list Thruster.t)
| OpReset.

Definition runOp (s : System) (o : Op) : System :=
  match o with
  | OpToggleMode => (toggleMode s).1
  | OpApplyControlTorque torque => applyControlTorque torque s
  | OpDesaturate thrusters => desaturateWithThrusters thrusters s
  | OpReset => resetActuators s
  end.

Definition run (ops : list Op) (s : System) : System := foldl runOp s ops.
End AttitudeControl.

(** *** Loading actuators from configuration objects *)

Module VecCfg.
Record t : Type := mk { x : JS.value; y : JS.value; z : JS.value }.
End VecCfg.

Module WheelCfg.
Record t : Type := mk {
  name : option string;
  orientation : option VecCfg.t;
  position : option VecCfg.t;
  maxAngularMomentum : JS.value;
  maxTorque : JS.value
}.
End WheelCfg.

(** The wheel object as [processReactionWheelsConfig] builds it: its
    numeric fields hold whatever [parseFloat] gave. *)
Module LoadedWheel.
Record t : Type := mk {
  index : nat;
  name : string;
  orientation : JS.nvec;
  position : JS.nvec;
  maxAngularMomentum : JS.number;
  maxTorque : JS.number;
  currentAngularMomentum : R
}.

Definition real (n : JS.number) : option R :=
  match n with JS.Fin r => Some r | JS.NaN => None end.

Definition realVec (v : JS.nvec) : option Vec3.t :=
  a ← real (JS.nx v); b ← real (JS.ny v); c ← real (JS.nz v);
  Some (Vec3.mk a b c).

(** The wheel the control law works on, when every field is a number. *)
Definition numeric (w : t) : option Wheel.t :=
  o ← realVec (orientation w); p ← realVec (position w);
  h ← real (maxAngularMomentum w); q ← real (maxTorque w);
  Some (Wheel.mk (index w) o p h q (currentAngularMomentum w)).
End LoadedWheel.

Module CMGCfg.
Record t : Type := mk {
  name : option string;
  maxAngularMomentum : JS.value;
  maxTorque : JS.value
}.
End CMGCfg.

Module LoadedCMG.
Record t : Type := mk {
  index : nat;
  name : string;
  maxAngularMomentum : JS.number;
  maxTorque : JS.number;
  currentAngularMomentum : Vec3.t
}.
End LoadedCMG.

(** The two shapes [processCMGsConfig] accepts: [{cmgs: [...]}] and
    [{cmg: {cmgs: [...]}}]. *)
Module CMGData.
Record t : Type := mk {
  cmgs : option (list CMGCfg.t);
  cmg : option (option (list CMGCfg.t))
}.
End CMGData.

Module ActuatorConfig.
Local Open Scope R_scope.

(** [n ?? d] where the left operand is the number [parseFloat]
    returned. *)
Definition coalesceNumber (n d : JS.number) : JS.number :=
  match JS.coalesce (JS.num n) (JS.num d) with
  | JS.num r => r
  | _ => JS.NaN
  end.

(** [v?.x], [v?.y], [v?.z] *)
Definition optX (v : option VecCfg.t) : JS.value :=
  match v with Some a => VecCfg.x a | None => JS.undefined end.
Definition optY (v : option VecCfg.t) : JS.value :=
  match v with Some a => VecCfg.y a | None => JS.undefined end.
Definition optZ (v : option VecCfg.t) : JS.value :=
  match v with Some a => VecCfg.z a | None => JS.undefined end.

(** [name || fallback]: the empty string is falsy. *)
Definition nameOr (name : option string) (fallback : string) : string :=
  match name with
  | Some n => if bool_decide (n = "") then fallback else n
  | None => fallback
  end.

Section WithScanner.
Variable StringToNumber : string → JS.number.

Local Abbreviation parseFloat := (JS.parseFloat StringToNumber).

Definition rawOrientation (wheelConfig : WheelCfg.t) : JS.nvec :=
  JS.mkn
    (coalesceNumber
       (parseFloat (optX (WheelCfg.orientation wheelConfig))) (JS.Fin 0))
    (coalesceNumber
       (parseFloat (optY (WheelCfg.orientation wheelConfig))) (JS.Fin 0))
    (coalesceNumber
       (parseFloat (optZ (WheelCfg.orientation wheelConfig))) (JS.Fin 1)).

(** The body of [data.wheels.forEach((wheelConfig, index) => ...)]. *)
Definition loadWheel (centerOfMassOffset : Vec3.t) (index : nat)
    (wheelConfig : WheelCfg.t) : LoadedWheel.t :=
  let normalizedOrientation := JS.nunit (rawOrientation wheelConfig) in
  LoadedWheel.mk
    index
    (nameOr (WheelCfg.name wheelConfig) ("RW" +:+ pretty index))
    normalizedOrientation
    (JS.mkn
       (JS.sub
          (parseFloat
             (JS.coalesce (optX (WheelCfg.position wheelConfig))
                          (JS.num (JS.Fin 0))))
          (JS.Fin (Vec3.x centerOfMassOffset)))
       (JS.sub
          (parseFloat
             (JS.coalesce (optY (WheelCfg.position wheelConfig))
                          (JS.num (JS.Fin 0))))
          (JS.Fin (Vec3.y centerOfMassOffset)))
       (JS.sub
          (parseFloat
             (JS.coalesce (optZ (WheelCfg.position wheelConfig))
                          (JS.num (JS.Fin 0))))
          (JS.Fin (Vec3.z centerOfMassOffset))))
    (coalesceNumber
       (parseFloat (WheelCfg.maxAngularMomentum wheelConfig)) (JS.Fin 10))
    (coalesceNumber
       (parseFloat (WheelCfg.maxTorque wheelConfig)) (JS.Fin 0.5))
    0.

(** [this.reactionWheels] after the call: one wheel pushed per entry
    of [data.wheels]. *)
Definition processReactionWheelsConfig (centerOfMassOffset : Vec3.t)
    (wheels : list WheelCfg.t) (reactionWheels : list LoadedWheel.t)
    : list LoadedWheel.t :=
  reactionWheels ++ imap (loadWheel centerOfMassOffset) wheels.

Definition loadCMG (index : nat) (cmgConfig : CMGCfg.t) : LoadedCMG.t :=
  LoadedCMG.mk
    index
    (nameOr (CMGCfg.name cmgConfig) ("CMG" +:+ pretty index))
    (coalesceNumber
       (parseFloat (CMGCfg.maxAngularMomentum cmgConfig)) (JS.Fin 200))
    (coalesceNumber
       (parseFloat (CMGCfg.maxTorque cmgConfig)) (JS.Fin 5))
    Vec3.zero.

(** [data.cmgs || (data.cmg && data.cmg.cmgs)]: an array is truthy,
    even empty. *)
Definition cmgsArray (data : CMGData.t) : option (list CMGCfg.t) :=
  match CMGData.cmgs data with
  | Some a => Some a
  | None =>
      match CMGData.cmg data with
      | Some inner => inner
      | None => None
      end
  end.

Definition processCMGsConfig (data : CMGData.t)
    (cmgs : list LoadedCMG.t) : list LoadedCMG.t :=
  match cmgsArray data with
  | None => cmgs
  | Some a => cmgs ++ imap loadCMG a
  end.
End WithScanner.
End ActuatorConfig.

(** ** spacecraftManager.js: propellant *)

Module Fuel.
Local Open Scope R_scope.

(** The module-level fuel variables and the mass fields of the physics
    body they are copied to. *)
Record t : Type := mk {
  dryMass : R;
  fuelMass : R;
  maxFuelMass : R;
  bodyMass : R;
  bodyInvMass : R
}.

Definition updateSatelliteMass (f : t) : t :=
  let totalMass := dryMass f + fuelMass f in
  mk (dryMass f) (fuelMass f) (maxFuelMass f) totalMass
     (if decide (totalMass > 0) then 1 / totalMass else 0).

Definition consumeFuel (amount : R) (f : t) : t * R :=
  let f' :=
    updateSatelliteMass
      (mk (dryMass f) (Rmax 0 (fuelMass f - amount)) (maxFuelMass f)
          (bodyMass f) (bodyInvMass f)) in
  (f', fuelMass f').

Definition resetFuel (f : t) : t :=
  updateSatelliteMass
    (mk (dryMass f) (maxFuelMass f) (maxFuelMass f) (bodyMass f)
        (bodyInvMass f)).

(** The state the thruster loops of [animate] work on. *)
Record Propulsion : Type := mkPropulsion {
  fuel : t;
  thrusters : list Thruster.t;
  forces : list (Vec3.t * Vec3.t)
}.

Definition setActive (i : nat) (b : bool) (p : Propulsion) : Propulsion :=
  mkPropulsion (fuel p) (alter (Thruster.set_active b) i (thrusters p))
               (forces p).

(** [!t.thrust || !t.isp || t.isp <= 0 || isNaN(t.thrust) || isNaN(t.isp)] *)
Definition invalid (t : Thruster.t) : bool :=
  bool_decide (Thruster.thrust t = 0) || bool_decide (Thruster.isp t = 0)
  || bool_decide (Thruster.isp t <= 0).

(** The body of [indices.forEach(i => ...)]: thruster [i] fires for a
    frame of [dt] seconds. *)
Definition fire (dt : R) (i : nat) (p : Propulsion) : Propulsion :=
  match thrusters p !! i with
  | None => p
  | Some t =>
      if decide (fuelMass (fuel p) <= 0) then setActive i false p
      else if invalid t then setActive i false p
      else
        let forceLocal := Vec3.scale (Thruster.thrust t) (Thruster.dir t) in
        let fuelConsumptionRate :=
          Thruster.thrust t / (Thruster.isp t * 9.81) in
        let fuelConsumed := fuelConsumptionRate * dt in
        let '(f', remainingFuel) := consumeFuel fuelConsumed (fuel p) in
        let p' :=
          mkPropulsion f' (thrusters p)
                       (forces p ++ [(forceLocal, Thruster.pos t)]) in
        if decide (remainingFuel <= 0) then setActive i false p'
        else setActive i true p'
  end.

(** A firing: the frame's [dt] and the thruster index. *)
Definition fireAll (ops : list (R * nat)) (p : Propulsion) : Propulsion :=
  foldl (λ p op, fire op.1 op.2 p) p ops.
End Fuel.

(** ** spacecraftManager.js: docking and the undock clock *)

Module Quaternion.
Local Open Scope R_scope.

Record t : Type := mk { x : R; y : R; z : R; w : R }.

Definition setFromAxisAngle (axis : Vec3.t) (angle : R) : t :=
  let halfAngle := angle / 2 in
  let s := sin halfAngle in
  mk (Vec3.x axis * s) (Vec3.y axis * s) (Vec3.z axis * s) (cos halfAngle).

Definition dot (a b : t) : R := x a * x b + y a * y b + z a * z b + w a * w b.

Definition clamp (value min max : R) : R := Rmax min (Rmin max value).

Definition angleTo (a b : t) : R := 2 * acos (Rabs (clamp (dot a b) (-1) 1)).
End Quaternion.

Module Body.
Record t : Type := mk {
  position : Vec3.t;
  quaternion : Quaternion.t;
  velocity : Vec3.t;
  angularVelocity : Vec3.t
}.

Definition stop (b : t) : t :=
  mk (position b) (quaternion b) Vec3.zero Vec3.zero.
End Body.

Module Docking.
Local Open Scope R_scope.

(** The reference pose and thresholds; a session file may replace the
    defaults. *)
Record Setup : Type := mkSetup {
  initialPosition : Vec3.t;
  initialOrientation : Quaternion.t;
  DOCKING_BOX_SIZE : R;
  DOCKING_ANGLE_THRESHOLD : R
}.

Definition defaultSetup : Setup :=
  mkSetup (Vec3.mk 0 (-3) 5.5)
          (Quaternion.setFromAxisAngle (Vec3.mk 1 0 0) (- PI / 2))
          0.1 3.

Definition MAX_ANGULAR_SPEED : R := 1.0.
Definition MAX_XZ_SPEED : R := 0.1.
Definition MAX_Z_SPEED : R := 1.0.

Record DockingStatus : Type := mkStatus {
  inBox : bool;
  inAngle : bool;
  withinSpeedLimits : bool;
  withinAngularSpeedLimit : bool;
  angleDiff : R;
  distance : R;
  speed : R;
  angularSpeed : R
}.

Record Sim : Type := mkSim {
  satBody : Body.t;
  isDocked : bool;
  paused : bool;
  canDock : bool;
  hasLeftDockingBoxOnce : bool;
  undockTime : option R;
  pausedStartTime : option R;
  accumulatedPausedTime : R;
  lastDockedTime : R
}.

(** A null timestamp counts as 0 in arithmetic. *)
Definition timeOf (o : option R) : R := default 0 o.

Section WithSetup.
Variable setup : Setup.

Definition initialBody : Body.t :=
  Body.mk (initialPosition setup) (initialOrientation setup)
          Vec3.zero Vec3.zero.

(** The closure variables as [initSimulation] declares them. *)
Definition initialSim : Sim :=
  mkSim initialBody true true false false None None 0 0.

Definition isInDockingZone (satBody : Body.t) : DockingStatus :=
  let positionDiff :=
    Vec3.vsub (Body.position satBody) (initialPosition setup) in
  let distance :=
    sqrt (Vec3.x positionDiff ^ 2 + Vec3.y positionDiff ^ 2
          + Vec3.z positionDiff ^ 2) in
  let inBox :=
    bool_decide (Rabs (Vec3.x positionDiff) <= DOCKING_BOX_SIZE setup)
    && bool_decide (Rabs (Vec3.y positionDiff) <= DOCKING_BOX_SIZE setup)
    && bool_decide (Rabs (Vec3.z positionDiff) <= DOCKING_BOX_SIZE setup) in
  let angleDiff :=
    Quaternion.angleTo (Body.quaternion satBody) (initialOrientation setup)
    * (180 / PI) in
  let inAngle := bool_decide (angleDiff <= DOCKING_ANGLE_THRESHOLD setup) in
  let speed := Vec3.length (Body.velocity satBody) in
  let xzSpeed :=
    sqrt (Vec3.x (Body.velocity satBody) ^ 2
          + Vec3.z (Body.velocity satBody) ^ 2) in
  let zSpeed := Vec3.z (Body.velocity satBody) in
  let withinSpeedLimits :=
    bool_decide (xzSpeed <= MAX_XZ_SPEED)
    && bool_decide (zSpeed <= MAX_Z_SPEED) in
  let angularSpeed :=
    Vec3.length (Body.angularVelocity satBody) * (180 / PI) in
  let withinAngularSpeedLimit :=
    bool_decide (angularSpeed <= MAX_ANGULAR_SPEED) in
  mkStatus inBox inAngle withinSpeedLimits withinAngularSpeedLimit
           angleDiff distance speed angularSpeed.

(** The handler of backtick+p (and of backtick+f, which has the same
    body), called when [performance.now()] is [now]. *)
Definition togglePause (now : R) (s : Sim) : Sim :=
  let s :=
    if isDocked s && paused s then
      mkSim (satBody s) false (paused s) false true (Some now)
            (pausedStartTime s) 0 (lastDockedTime s)
    else s in
  let s :=
    if paused s then
      match pausedStartTime s with
      | Some started =>
          mkSim (satBody s) (isDocked s) (paused s) (canDock s)
                (hasLeftDockingBoxOnce s) (undockTime s) None
                (accumulatedPausedTime s + (now - started))
                (lastDockedTime s)
      | None => s
      end
    else
      mkSim (satBody s) (isDocked s) (paused s) (canDock s)
            (hasLeftDockingBoxOnce s) (undockTime s) (Some now)
            (accumulatedPausedTime s) (lastDockedTime s) in
  mkSim (satBody s) (isDocked s) (negb (paused s)) (canDock s)
        (hasLeftDockingBoxOnce s) (undockTime s) (pausedStartTime s)
        (accumulatedPausedTime s) (lastDockedTime s).

Definition stopEverything (s : Sim) : Sim :=
  mkSim (Body.stop (satBody s)) (isDocked s) (paused s) (canDock s)
        (hasLeftDockingBoxOnce s) (undockTime s) (pausedStartTime s)
        (accumulatedPausedTime s) (lastDockedTime s).

(** The docking part of [resetSimulation]. *)
Definition resetSimulation (s : Sim) : Sim :=
  mkSim initialBody true true false false None None 0 (lastDockedTime s).

(** The docking logic at the end of [animate], on the body as the
    frame left it. *)
Definition dockingLogic (now : R) (s : Sim) : Sim :=
  let dockingStatus := isInDockingZone (satBody s) in
  let hasLeft :=
    if negb (inBox dockingStatus) then true
    else hasLeftDockingBoxOnce s in
  let s :=
    mkSim (satBody s) (isDocked s) (paused s) (canDock s) hasLeft
          (undockTime s) (pausedStartTime s) (accumulatedPausedTime s)
          (lastDockedTime s) in
  let s :=
    if negb (isDocked s) && canDock s && hasLeftDockingBoxOnce s
       && inBox dockingStatus && inAngle dockingStatus
       && withinSpeedLimits dockingStatus
       && withinAngularSpeedLimit dockingStatus
    then
      let currentTime :=
        match pausedStartTime s with
        | Some started => started
        | None => now
        end in
      mkSim (Body.stop (satBody s)) true true (canDock s)
            (hasLeftDockingBoxOnce s) (undockTime s) (pausedStartTime s)
            (accumulatedPausedTime s)
            (currentTime - timeOf (undockTime s) - accumulatedPausedTime s)
    else s in
  if negb (canDock s) && negb (inBox dockingStatus)
     && hasLeftDockingBoxOnce s
  then
    mkSim (satBody s) (isDocked s) (paused s) true
          (hasLeftDockingBoxOnce s) (undockTime s) (pausedStartTime s)
          (accumulatedPausedTime s) (lastDockedTime s)
  else s.

(** One frame.  Forces and the physics step run only while not paused;
    the integrator is the physics engine's, so the frame takes the
    body it produces as an input. *)
Definition animate (now : R) (afterPhysics : Body.t) (s : Sim) : Sim :=
  let s :=
    if negb (paused s) then
      mkSim afterPhysics (isDocked s) (paused s) (canDock s)
            (hasLeftDockingBoxOnce s) (undockTime s) (pausedStartTime s)
            (accumulatedPausedTime s) (lastDockedTime s)
    else s in
  dockingLogic now s.

(** The elapsed milliseconds [updateClock] formats into the clock
    display. *)
Definition updateClock (now : R) (s : Sim) : R :=
  match undockTime s with
  | None => 0
  | Some undock =>
      if isDocked s then lastDockedTime s
      else
        let currentTime :=
          match pausedStartTime s with
          | Some started => if paused s then started else now
          | None => now
          end in
        let elapsedMilliseconds :=
          currentTime - undock - accumulatedPausedTime s in
        elapsedMilliseconds
  end.

(** What happens during a session, as far as the docking state goes.
    [KeyOther] stands for the other key handlers (camera, lamps, control
    mode, desaturation, thruster keys): they write none of the variables
    of [Sim]. *)
Inductive Event : Type :=
| KeyPause (now : R)
| KeyReset
| KeySpace
| KeyOther
| Frame (now : R) (afterPhysics : Body.t).

Definition step (s : Sim) (e : Event) : Sim :=
  match e with
  | KeyPause now => togglePause now s
  | KeyReset => resetSimulation s
  | KeySpace => stopEverything s
  | KeyOther => s
  | Frame now afterPhysics => animate now afterPhysics s
  end.

Definition run (es : list Event) (s : Sim) : Sim := foldl step s es.
End WithSetup.
End Docking.

(** ** attitudeControl.js: the loader *)

Module Controller.
Local Open Scope R_scope.

(** The fields of [AttitudeControlSystem] that loading writes. *)
Record t : Type := mk {
  centerOfMassOffset : Vec3.t;
  reactionWheels : list LoadedWheel.t;
  cmgs : list LoadedCMG.t;
  loaded : bool
}.

(** [new AttitudeControlSystem(satBody, scene)] *)
Definition create : t := mk Vec3.zero [] [] false.

(** [n || 0] on a number: NaN and 0 are the falsy numbers. *)
Definition orZero (n : JS.number) : R :=
  match n with JS.Fin r => r | JS.NaN => 0 end.

(** The body of the loop of [setCenterOfMassOffset]:
    [wheel.position.x -= this.centerOfMassOffset.x], and so on. *)
Definition shift (offset : Vec3.t) (wheel : LoadedWheel.t) : LoadedWheel.t :=
  LoadedWheel.mk
    (LoadedWheel.index wheel) (LoadedWheel.name wheel)
    (LoadedWheel.orientation wheel)
    (JS.mkn
       (JS.sub (JS.nx (LoadedWheel.position wheel)) (JS.Fin (Vec3.x offset)))
       (JS.sub (JS.ny (LoadedWheel.position wheel)) (JS.Fin (Vec3.y offset)))
       (JS.sub (JS.nz (LoadedWheel.position wheel)) (JS.Fin (Vec3.z offset))))
    (LoadedWheel.maxAngularMomentum wheel) (LoadedWheel.maxTorque wheel)
    (LoadedWheel.currentAngularMomentum wheel).

Definition setCenterOfMassOffset (offset : JS.nvec) (c : t) : t :=
  let centerOfMassOffset :=
    Vec3.mk (orZero (JS.nx offset)) (orZero (JS.ny offset))
            (orZero (JS.nz offset)) in
  mk centerOfMassOffset (shift centerOfMassOffset <$> reactionWheels c)
     (cmgs c) (loaded c).

Section WithScanner.
Variable StringToNumber : string → JS.number.

(** [initializeWithConfigs(reactionWheelsConfig, cmgConfig)].  A
    configuration may be absent ([None]); a reaction-wheel configuration
    object may lack its [wheels] array ([Some None]): the call of
    [forEach] then throws, the handler logs the error and no wheel is
    added. *)
Definition initializeWithConfigs
    (reactionWheelsConfig : option (option (list WheelCfg.t)))
    (cmgConfig : option CMGData.t) (c : t) : t * bool :=
  let reactionWheels :=
    match reactionWheelsConfig with
    | Some (Some wheels) =>
        ActuatorConfig.processReactionWheelsConfig
          StringToNumber (centerOfMassOffset c) wheels (reactionWheels c)
    | Some None | None => reactionWheels c
    end in
  let cmgs :=
    match cmgConfig with
    | Some data =>
        ActuatorConfig.processCMGsConfig StringToNumber data (cmgs c)
    | None => cmgs c
    end in
  let loaded :=
    bool_decide (0 < length reactionWheels)%nat
    || bool_decide (0 < length cmgs)%nat in
  (mk (centerOfMassOffset c) reactionWheels cmgs loaded, loaded).
End WithScanner.
End Controller.

(** ** spacecraftManager.js: the session configuration *)

Module SessionConfig.

(** A field of the configuration that holds a list of entries: absent,
    the array itself, or an object with the array inside (or without
    it). *)
Inductive field (A : Type) : Type :=
| absent
| array (a : list A)
| object (inner : option (list A)).
Arguments absent {A}.
Arguments array {A} a.
Arguments object {A} inner.

(** [Array.isArray(f) ? f : (f?.inner || [])] *)
Definition arrayOf {A} (f : field A) : list A :=
  match f with
  | array a => a
  | object (Some a) => a
  | object None | absent => []
  end.

(** The object under [cmg] inside the [cmg] field, read as one CMG
    entry; it may also carry a [cmgs] array of its own. *)
Record innerCMG : Type := mkInner {
  entry : CMGCfg.t;
  innerCmgs : option (list CMGCfg.t)
}.

(** The [cmg] field: absent, an array, or an object with an optional
    [cmgs] array and an optional [cmg] object. *)
Inductive cmgField : Type :=
| cmgAbsent
| cmgArray (a : list CMGCfg.t)
| cmgObject (cmgs : option (list CMGCfg.t)) (cmg : option innerCMG).

(** The [reactionwheels], [cmg] and [thrusters] fields of a session
    configuration, as uploaded or fetched. *)
Record Config : Type := mkConfig {
  config_reactionwheels : field WheelCfg.t;
  config_cmg : cmgField;
  config_thrusters : field ThrusterCfg.t
}.

(** The same fields of the object [normalizeConfiguration] returns:
    [{wheels: [...]}], [{cmgs: [...]}] and [{thrusters: [...]}]. *)
Record Normalized : Type := mkNormalized {
  reactionwheels : list WheelCfg.t;
  cmg : CMGData.t;
  thrusters : list ThrusterCfg.t
}.

Definition normalizeConfiguration (config : Config) : Normalized :=
  let cmg :=
    CMGData.mk
      (Some match config_cmg config with
            | cmgArray a => a
            | cmgObject (Some a) _ => a
            | cmgObject None _ | cmgAbsent => []
            end)
      None in
  let cmg :=
    match config_cmg config with
    | cmgObject _ (Some single) => CMGData.mk (Some [entry single]) None
    | _ => cmg
    end in
  mkNormalized (arrayOf (config_reactionwheels config)) cmg
               (arrayOf (config_thrusters config)).

Section WithScanner.
Variable StringToNumber : string → JS.number.

(** The part of [main] that loads the actuators of a normalised
    configuration into a new controller. *)
Definition loadActuators (config : Normalized) : Controller.t * bool :=
  Controller.initializeWithConfigs StringToNumber
    (Some (Some (reactionwheels config))) (Some (cmg config))
    Controller.create.
End WithScanner.
End SessionConfig.

(** ** spacecraftManager.js: the fuel status *)

Module FuelStatus.
Local Open Scope R_scope.

Record t : Type := mk {
  dryMass : R;
  fuelMass : R;
  maxFuelMass : R;
  fuelPercentage : R
}.

Definition getFuelStatus (f : Fuel.t) : t :=
  mk (Fuel.dryMass f) (Fuel.fuelMass f) (Fuel.maxFuelMass f)
     (Fuel.fuelMass f / Fuel.maxFuelMass f * 100).
End FuelStatus.

(** ** spacecraftManager.js: keys, and the actuators in a frame *)

Module Flight.
Import AttitudeControl Fuel.
Local Open Scope R_scope.

(** The keyboard state of [initSimulation] and the sliders that go with
    it.  An object used as a set of key names is a set; the start times
    are an object from key names to numbers. *)
Record Input : Type := mkInput {
  keys : gset string;
  fineControlMode : bool;
  fineControlKeys : gset string;
  fineControlProcessedKeys : gset string;
  fineControlKeyStartTimes : gmap string R;
  timedFiringEnabled : bool;
  firingDuration : R;
  torquePercentage : R
}.

(** The keys of [keyToThrusterIndices], in the order of the object
    literal. *)
Definition channelOrder : list string :=
  ["w"; "s"; "a"; "d"; "q"; "e"; "i"; "k"; "j"; "l"; "u"; "o"].


(** [!fineControlKeyStartTimes[k]]: no entry, or the number 0. *)
Definition noStartTime (i : Input) (k : string) : bool :=
  match fineControlKeyStartTimes i !! k with
  | Some t => bool_decide (t = 0)
  | None => true
  end.

(** The part of the keydown handler that records the key; [now] is
    [performance.now()]. *)
Definition keydown (key : string) (now : R) (i : Input) : Input :=
  if bool_decide (key = "CapsLock") then
    mkInput (keys i) (negb (fineControlMode i)) ∅ ∅
            (fineControlKeyStartTimes i) (timedFiringEnabled i)
            (firingDuration i) (torquePercentage i)
  else
    let k := ThrusterSetup.toLowerCase key in
    if fineControlMode i && bool_decide (k ∈ channelOrder) then
      if negb (bool_decide (k ∈ fineControlProcessedKeys i)) then
        mkInput (keys i) (fineControlMode i)
                ({[k]} ∪ fineControlKeys i)
                ({[k]} ∪ fineControlProcessedKeys i)
                (if timedFiringEnabled i && noStartTime i k
                 then <[k := now]> (fineControlKeyStartTimes i)
                 else fineControlKeyStartTimes i)
                (timedFiringEnabled i) (firingDuration i)
                (torquePercentage i)
      else i
    else
      mkInput ({[k]} ∪ keys i) (fineControlMode i) (fineControlKeys i)
              (fineControlProcessedKeys i) (fineControlKeyStartTimes i)
              (timedFiringEnabled i) (firingDuration i) (torquePercentage i).

Definition keyup (key : string) (i : Input) : Input :=
  let k := ThrusterSetup.toLowerCase key in
  if fineControlMode i then
    mkInput (keys i) (fineControlMode i) (fineControlKeys i)
            (fineControlProcessedKeys i ∖ {[k]})
            (fineControlKeyStartTimes i) (timedFiringEnabled i)
            (firingDuration i) (torquePercentage i)
  else
    mkInput (keys i ∖ {[k]}) (fineControlMode i) (fineControlKeys i)
            (fineControlProcessedKeys i) (fineControlKeyStartTimes i)
            (timedFiringEnabled i) (firingDuration i) (torquePercentage i).

(** The start of [animate]: keys whose timed firing is over are
    dropped. *)
Definition expireTimedKeys (currentTime : R) (i : Input) : Input :=
  if fineControlMode i && timedFiringEnabled i then
    let expired : gmap string R :=
      filter (λ kv, (currentTime - kv.2) / 1000 >= firingDuration i)
             (fineControlKeyStartTimes i) in
    mkInput (keys i) (fineControlMode i)
            (fineControlKeys i ∖ dom expired)
            (fineControlProcessedKeys i)
            (fineControlKeyStartTimes i ∖ expired)
            (timedFiringEnabled i) (firingDuration i) (torquePercentage i)
  else i.

(** The end of the actuator part of [animate]. *)
Definition clearFineControlKeys (i : Input) : Input :=
  if negb (timedFiringEnabled i) then
    mkInput (keys i) (fineControlMode i) ∅ (fineControlProcessedKeys i)
            (fineControlKeyStartTimes i) (timedFiringEnabled i)
            (firingDuration i) (torquePercentage i)
  else i.

(** [fineControlMode ? fineControlKeys[key] : keys[key]] *)
Definition keyIsPressed (i : Input) (key : string) : bool :=
  if fineControlMode i then bool_decide (key ∈ fineControlKeys i)
  else bool_decide (key ∈ keys i).


(** [Object.entries(keyToThrusterIndices)] for the object the simulation
    creates: loading adds no key, so the entries come in the order of the
    literal. *)
Definition entries (m : gmap string (list nat)) : list (string * list nat) :=
  omap (λ k, (λ indices, (k, indices)) <$> m !! k) channelOrder.

(** The torque limit the keys command a share of. *)
Definition maxTorque (s : System) : R :=
  let isCMGMode := bool_decide (mode s = mode_cmgs) in
  if isCMGMode && bool_decide (0 < length (cmgs s))%nat then
    foldl (λ sum cmg, sum + CMG.maxTorque cmg) 0 (cmgs s)
    / INR (length (cmgs s))
  else if negb isCMGMode && bool_decide (0 < length (reactionWheels s))%nat
  then
    foldl (λ sum wheel, sum + Wheel.maxTorque wheel) 0 (reactionWheels s)
    / INR (length (reactionWheels s))
  else 0.5.






End Flight.

(** ** spacecraftManager.js: the clock display *)

Module ClockDisplay.
Local Open Scope R_scope.

(** [Math.floor] *)
Definition floor (x : R) : Z := Zfloor x.

(** [x % y] on numbers: the remainder has the sign of [x]. *)
Definition rem (x y : R) : R :=
  let q := x / y in
  x - y * IZR (if decide (q >= 0) then Zfloor q else Zceil q).

Record Parts : Type := mkParts {
  hours : Z;
  minutes : Z;
  seconds : Z;
  milliseconds : Z
}.

Definition clockParts (elapsedMilliseconds : R) : Parts :=
  let elapsedSeconds := elapsedMilliseconds / 1000 in
  mkParts (floor (elapsedSeconds / 3600))
          (floor (rem elapsedSeconds 3600 / 60))
          (floor (rem elapsedSeconds 60))
          (floor (rem elapsedMilliseconds 1000)).

(** [s.padStart(n, '0')] *)
Definition padStart (n : nat) (s : string) : string :=
  String.concat "" (replicate (n - String.length s) "0") +:+ s.

(** The text H:MM:SS.mmm *)
Definition clockText (elapsedMilliseconds : R) : string :=
  let p := clockParts elapsedMilliseconds in
  pretty (hours p) +:+ ":" +:+ padStart 2 (pretty (minutes p)) +:+ ":"
  +:+ padStart 2 (pretty (seconds p)) +:+ "."
  +:+ padStart 3 (pretty (milliseconds p)).

(** What [updateClock] writes to the display at time [now]. *)
Definition display (now : R) (s : Docking.Sim) : string :=
  match Docking.undockTime s with
  | None => "0:00:00.000"
  | Some _ => clockText (Docking.updateClock now s)
  end.
End ClockDisplay.

(** * Vocabulary of the statements

    Predicates, derived operations and sample configurations the theorems
    below are stated with. *)

Module ActuatorNotions.
Import AttitudeControl.
Local Open Scope R_scope.

(** A wheel whose momentum is within its bounds. *)
Definition inRange (w : Wheel.t) : Prop :=
  - Wheel.maxAngularMomentum w <= Wheel.currentAngularMomentum w
  <= Wheel.maxAngularMomentum w.

(** The wheel, and the CMG, after one control call. *)
Definition advanceWheel (torque : Vec3.t) (w : Wheel.t) : Wheel.t :=
  (wheelControl torque w).1.

Definition advanceCMG (torque : Vec3.t) (c : CMG.t) : CMG.t :=
  (cmgControl torque c).1.


(** A wheel about +Z holding [h], with maximum 10. *)
Definition zWheel (h : R) : Wheel.t :=
  Wheel.mk 0 (Vec3.mk 0 0 1) Vec3.zero 10 0.5 h.

Definition sampleSystem : System :=
  mkSystem mode_reactionwheels [zWheel 0] [] true false [].

(** A CMG with maximum momentum 1 and maximum torque 9, in CMGS mode. *)
Definition smallCMG : CMG.t := CMG.mk 0 1 9 Vec3.zero.

Definition cmgSystem : System :=
  mkSystem mode_cmgs [] [smallCMG] true false [].

(** A CMG with maximum momentum 200 holding [h] along +X, in CMGS mode,
    and a thruster at (0,1,0) firing along -Z: its torque direction is
    -X. *)
Definition loadedCMGSystem (h : R) : System :=
  mkSystem mode_cmgs [] [CMG.mk 0 200 5 (Vec3.mk h 0 0)] true false [].

Definition pitchThruster : Thruster.t :=
  Thruster.mk (Vec3.mk 0 1 0) (Vec3.mk 0 0 (-1)) 50 300 false 0.

(** A thruster at (1,0,0) firing along +Y: its torque direction is +Z. *)
Definition rollThruster : Thruster.t :=
  Thruster.mk (Vec3.mk 1 0 0) (Vec3.mk 0 1 0) 50 300 false 0.

(** A bank of one Z wheel in reaction-wheel mode. *)
Definition bank (h : R) (active : bool) (log : list BodyInput) : System :=
  mkSystem mode_reactionwheels [zWheel h] [] true active log.

(** The bank at rest is asked once for the torque (0, 0, -300), which
    leaves its wheel at -5; then [n] desaturation calls follow. *)
Definition desaturations (n : nat) : System :=
  Nat.iter n (desaturateWithThrusters [rollThruster])
    (applyControlTorque (Vec3.mk 0 0 (-300)) (bank 0 false [])).
End ActuatorNotions.

Module BindingNotions.
Import ThrusterSetup.
Local Open Scope R_scope.

(** The twelve channel keys. *)
Definition channelKeys : list string :=
  ["w"; "s"; "a"; "d"; "q"; "e"; "i"; "k"; "j"; "l"; "u"; "o"].

Definition ownsChannels (m : KeyMap) : Prop :=
  ∀ k, k ∈ channelKeys → is_Some (m !! k).

Definition axisX : Vec3.t := Vec3.mk 1 0 0.
Definition axisY : Vec3.t := Vec3.mk 0 1 0.
Definition axisZ : Vec3.t := Vec3.mk 0 0 1.

(** An auto-bound thruster at (1,0,0) pointing along +Z. *)
Definition forwardThruster : ThrusterCfg.t :=
  ThrusterCfg.mk None (Vec3.mk 1 0 0) (Vec3.mk 0 0 1)
                 (JS.num (JS.Fin 50)) (JS.num (JS.Fin 300)) JS.undefined None.

(** The same keys, every array empty. *)
Definition emptied (m : KeyMap) : KeyMap := (λ _, []) <$> m.

(** [m] is [e] with the arrays of [m0] in front. *)
Definition prefixed (m0 m e : KeyMap) : Prop :=
  ∀ k,
    m !! k = match m0 !! k, e !! k with
             | Some l0, Some le => Some (l0 ++ le)
             | _, _ => None
             end
    ∧ (is_Some (m0 !! k) ↔ is_Some (e !! k)).

(** Code that does the same, array prefixes apart, on [m] and [e]. *)
Definition uniform {A} (c : Bind A) : Prop :=
  ∀ m0 m e, prefixed m0 m e →
    (c m).2 = (c e).2 ∧ prefixed m0 (c m).1 (c e).1.

(** What a run appends to the array of key [k], computed on the emptied
    map. *)
Definition appended (StringToNumber : string → JS.number)
    (config : list ThrusterCfg.t) (com : Vec3.t) (m : KeyMap) (k : string)
    : list nat :=
  default []
    ((processThrusterConfig StringToNumber config com (emptied m)).1 !! k).
End BindingNotions.

Module FuelNotions.
Import Fuel.
Local Open Scope R_scope.

(** What thruster loading guarantees of every thruster. *)
Definition sanitized (t : Thruster.t) : Prop :=
  0 < Thruster.thrust t ∧ 0 < Thruster.isp t.

(** The mass one firing burns. *)
Definition burn (t : Thruster.t) (dt : R) : R :=
  Thruster.thrust t / (Thruster.isp t * 9.81) * dt.

Definition nonnegDts (ops : list (R * nat)) : Prop :=
  Forall (λ op, 0 <= op.1) ops.

Definition sampleFuel : Fuel.t := Fuel.mk 5 5 5 10 (1 / 10).
End FuelNotions.

Module ConfigNotions.

End ConfigNotions.

Module DockingNotions.
Import Docking.
Local Open Scope R_scope.

(** The body the docking logic of a frame looks at. *)
Definition observed (s : Sim) (afterPhysics : Body.t) : Body.t :=
  if paused s then satBody s else afterPhysics.

Definition allCriteria (d : DockingStatus) : bool :=
  inBox d && inAngle d && withinSpeedLimits d && withinAngularSpeedLimit d.

Section WithSetup.
Variable setup : Setup.

(** The vehicle stays undocked through [es] and nothing resets the
    simulation. *)
Fixpoint undockedRun (s : Sim) (es : list Event) : Prop :=
  match es with
  | [] => True
  | e :: es =>
      e ≠ KeyReset ∧ isDocked (step setup s e) = false
      ∧ undockedRun (step setup s e) es
  end.

(** No reset, and every frame of [es] finds the vehicle in the box. *)
Fixpoint staysInBox (s : Sim) (es : list Event) : Prop :=
  match es with
  | [] => True
  | e :: es =>
      match e with
      | Frame _ b => inBox (isInDockingZone setup (observed s b)) = true
      | KeyReset => False
      | _ => True
      end
      ∧ staysInBox (step setup s e) es
  end.
End WithSetup.

Definition referenceOrientation : Quaternion.t :=
  initialOrientation defaultSetup.

(** One metre off the reference position, at rest. *)
Definition outsideBody : Body.t :=
  Body.mk (Vec3.mk 1 (-3) 5.5) referenceOrientation Vec3.zero Vec3.zero.

(** At the reference position, drifting at 0.2 m/s along X. *)
Definition fastBody : Body.t :=
  Body.mk (initialPosition defaultSetup) referenceOrientation
          (Vec3.mk 0.2 0 0) Vec3.zero.

(** Undock, leave the box, come back too fast, pause, stop the vehicle
    (the next frame docks it, still paused), undock again a minute later.
    Times are in milliseconds; of the frames of the flight the session
    lists one outside the box and the one before the pause. *)
Definition pausedDockingSession : list Event :=
  [ KeyPause 1000;
    Frame 60000 outsideBody;
    Frame 120000 fastBody;
    KeyPause 120010;
    KeySpace;
    Frame 120016 fastBody;
    KeyPause 180000 ].
End DockingNotions.

Module ExchangeNotions.
Import AttitudeControl.
Local Open Scope R_scope.

(** The torque a body input carries; a thruster force carries none of
    the actuators' torque. *)
Definition torqueOf (i : BodyInput) : Vec3.t :=
  match i with
  | applyTorque localTorque => localTorque
  | applyLocalForce _ _ => Vec3.zero
  end.

Definition torqueSum (inputs : list BodyInput) : Vec3.t :=
  foldr (λ i acc, Vec3.vadd (torqueOf i) acc) Vec3.zero inputs.

(** The angular momentum held by the wheels and the CMGs together. *)
Definition storedMomentum (s : System) : Vec3.t :=
  Vec3.vadd (totalWheelMomentum (reactionWheels s))
            (totalCMGMomentum (cmgs s)).

(** The torque direction of a thruster and its alignment with a
    direction, as the desaturation loops compute them. *)
Definition alignment (d : Vec3.t) (t : Thruster.t) : R :=
  Vec3.dot (Vec3.cross (Thruster.pos t) (Thruster.dir t)) d.

Definition aligned (d : Vec3.t) (ts : list Thruster.t) : list Thruster.t :=
  filter (λ t, alignment d t > 0.5) ts.

(** The force a desaturation firing applies: the thruster's thrust scaled
    by [share], at the thruster's position. *)
Definition desaturationForce (share : R) (t : Thruster.t) : BodyInput :=
  applyLocalForce
    (Vec3.scale (Thruster.thrust t * share) (Thruster.dir t))
    (Thruster.pos t).

(** A controller as the constructor leaves it. *)
Definition fresh : System :=
  mkSystem mode_thrusters [] [] false false [].
End ExchangeNotions.

Module DesaturationNotions.
(** A thruster at (1,0,0) firing along -Y: its torque direction is -Z. *)
Definition counterRollThruster : Thruster.t :=
  Thruster.mk (Vec3.mk 1 0 0) (Vec3.mk 0 (-1) 0) 50 300 false 0.
End DesaturationNotions.

Module LoaderNotions.
(** The wheel entries and the CMG entries a call of
    [initializeWithConfigs] is given. *)
Definition configuredWheels
    (reactionWheelsConfig : option (option (list WheelCfg.t)))
    : list WheelCfg.t :=
  match reactionWheelsConfig with
  | Some (Some wheels) => wheels
  | Some None | None => []
  end.

Definition configuredCMGs (cmgConfig : option CMGData.t)
    : list CMGCfg.t :=
  match cmgConfig with
  | Some data => default [] (ActuatorConfig.cmgsArray data)
  | None => []
  end.


(** An object [{cmgs: a}] read as a single CMG entry: it has none of the
    fields of an entry. *)
Definition wrapped (a : list CMGCfg.t) : SessionConfig.innerCMG :=
  SessionConfig.mkInner (CMGCfg.mk None JS.undefined JS.undefined) (Some a).
End LoaderNotions.

Module LoadingNotions.
Import ThrusterSetup.
Local Open Scope R_scope.

(** A custom key as the code looks it up. *)
Definition normalizedKey (key : string) : string := trim (toLowerCase key).

(** The custom keys of a thruster entry ([[]] unless [keybind] is an
    array). *)
Definition customKeybinds (t : ThrusterCfg.t) : list string :=
  default [] (ThrusterCfg.keybind t).

(** An entry whose binding cannot throw on a map that owns the channel
    arrays: it is bound automatically, or none of its custom keys names
    a property every object inherits. *)
Definition bindable (t : ThrusterCfg.t) : Prop :=
  JS.notFalse (ThrusterCfg.autoBind t) = true
  ∨ Forall (λ key, inheritedKey (normalizedKey key) = false)
           (customKeybinds t).

(** The map has no own property under an inherited name. *)
Definition plain (m : KeyMap) : Prop :=
  ∀ k, inheritedKey k = true → m !! k = None.

(** How many of the custom keys name channel [k]. *)
Definition hits (k : string) (keys : list string) : nat :=
  if bool_decide (k = "") then 0%nat
  else length (filter (λ key, normalizedKey key = k) keys).

(** Every index held by the map is below [n]. *)
Definition indicesBelow (n : nat) (m : KeyMap) : Prop :=
  ∀ k l j, m !! k = Some l → j ∈ l → (j < n)%nat.

(** A manually bound thruster: forward channel named twice, in upper
    case and with blanks, one unknown key and one blank key; its [isp] is
    not a number. *)
Definition sideThruster : ThrusterCfg.t :=
  ThrusterCfg.mk (Some "side") (Vec3.mk 0 1 0) (Vec3.mk 3 0 4)
                 (JS.num (JS.Fin 20)) (JS.str "abc") (JS.boolean false)
                 (Some [" W "; "x"; " "; "w"]).

(** A manually bound thruster whose key is the name of an inherited
    property. *)
Definition brokenThruster : ThrusterCfg.t :=
  ThrusterCfg.mk (Some "broken") (Vec3.mk 0 1 0) (Vec3.mk 0 0 1)
                 (JS.num (JS.Fin 20)) (JS.num (JS.Fin 300))
                 (JS.boolean false) (Some ["Constructor "; "w"]).
End LoadingNotions.

Module BurnNotions.
Import Fuel FuelNotions.
Local Open Scope R_scope.

(** The body's mass fields agree with the fuel variables. *)
Definition massConsistent (f : Fuel.t) : Prop :=
  bodyMass f = dryMass f + fuelMass f
  ∧ bodyInvMass f
    = (if decide (dryMass f + fuelMass f > 0)
       then 1 / (dryMass f + fuelMass f) else 0).

(** The mass the firings [ops] ask for, with the thrusters [ths]. *)
Definition totalBurn (ths : list Thruster.t) (ops : list (R * nat)) : R :=
  foldr (λ op acc,
           match ths !! op.2 with
           | Some t => burn t op.1 + acc
           | None => acc
           end) 0 ops.

(** The thrusters, their [active] flags apart. *)
Definition hardware (ths : list Thruster.t) : list Thruster.t :=
  Thruster.set_active false <$> ths.

(** Two sanitised thrusters for sample firings. *)
Definition sampleThrusters : list Thruster.t :=
  [Thruster.mk (Vec3.mk 1 0 0) (Vec3.mk 0 0 1) 50 300 false 0;
   Thruster.mk (Vec3.mk 0 1 0) (Vec3.mk 1 0 0) 20 250 false 1].

Definition samplePropulsion : Propulsion :=
  mkPropulsion sampleFuel sampleThrusters [].
End BurnNotions.

Module SessionNotions.
Import Docking.
Local Open Scope R_scope.

(** The states a session can be in: those some sequence of events leads
    to from the state [initSimulation] sets up. *)
Definition reachable (setup : Setup) (s : Sim) : Prop :=
  ∃ es : list Event, s = run setup es (initialSim setup).

Definition atRest (b : Body.t) : Prop :=
  Body.velocity b = Vec3.zero ∧ Body.angularVelocity b = Vec3.zero.

(** What holds of the docking and clock variables in every reachable
    state. *)
Record coherent (s : Sim) : Prop := mkCoherent {
  docked_paused : isDocked s = true → paused s = true;
  docked_at_rest : isDocked s = true → atRest (satBody s);
  running_no_pause_start : paused s = false → pausedStartTime s = None;
  paused_flight_has_start :
    isDocked s = false → paused s = true → is_Some (pausedStartTime s);
  flight_has_undock_time : isDocked s = false → is_Some (undockTime s);
  canDock_latched : canDock s = true → hasLeftDockingBoxOnce s = true;
  flight_latched : isDocked s = false → hasLeftDockingBoxOnce s = true
}.

(** The body with another velocity along Y. *)
Definition withVelocityY (vy : R) (b : Body.t) : Body.t :=
  Body.mk (Body.position b) (Body.quaternion b)
          (Vec3.mk (Vec3.x (Body.velocity b)) vy (Vec3.z (Body.velocity b)))
          (Body.angularVelocity b).

(** The event is not the pause key, or it is the pause key pressed at
    [t]. *)
Definition happensAt (t : R) (e : Event) : Prop :=
  match e with
  | KeyPause now => now = t
  | _ => True
  end.

Definition isPauseKey (e : Event) : bool :=
  match e with
  | KeyPause _ => true
  | _ => false
  end.
End SessionNotions.

Module FlightNotions.
Import Flight.
Local Open Scope R_scope.


(** Fine control is on, without timed firing, and with timed firing. *)
Definition fineInput : Input :=
  mkInput ∅ true ∅ ∅ ∅ false 0.1 50.

Definition timedInput : Input :=
  mkInput ∅ true ∅ ∅ ∅ true 0.1 50.


End FlightNotions.

(** * Properties *)

(** ** Vectors along one axis *)

Module Vec3Facts.
Local Open Scope R_scope.

Lemma vec3_eq (a b : Vec3.t) :
  Vec3.x a = Vec3.x b → Vec3.y a = Vec3.y b → Vec3.z a = Vec3.z b → a = b.
Proof. destruct a, b. simpl. by intros -> -> ->. Qed.

Lemma length_x (a : R) : Vec3.length (Vec3.mk a 0 0) = Rabs a.
Proof.
  unfold Vec3.length. simpl.
  replace (a * a + 0 * 0 + 0 * 0) with (Rsqr a) by (unfold Rsqr; ring).
  apply sqrt_Rsqr_abs.
Qed.

Lemma length_z (c : R) : Vec3.length (Vec3.mk 0 0 c) = Rabs c.
Proof.
  unfold Vec3.length. simpl.
  replace (0 * 0 + 0 * 0 + c * c) with (Rsqr c) by (unfold Rsqr; ring).
  apply sqrt_Rsqr_abs.
Qed.

Lemma length_zero : Vec3.length Vec3.zero = 0.
Proof. unfold Vec3.zero. rewrite length_x. apply Rabs_R0. Qed.

Lemma unit_z : Vec3.unit (Vec3.mk 0 0 1) = Vec3.mk 0 0 1.
Proof.
  unfold Vec3.unit. rewrite length_z, Rabs_R1.
  rewrite decide_True by lra. apply vec3_eq; simpl; lra.
Qed.
End Vec3Facts.

(** ** Reaction wheels: the momentum stays within its bounds *)

Module WheelFacts.
Import AttitudeControl ActuatorNotions.
Local Open Scope R_scope.

Lemma dt_pos : 0 < dt.
Proof. unfold dt. lra. Qed.

Lemma capacity_dt (c : R) : c / dt * dt = c.
Proof. unfold dt. field. Qed.

(** In exact arithmetic the control law is a clamp of the requested
    momentum change. *)
Lemma advance_momentum torque w :
  let r := Vec3.dot (Wheel.orientation w) torque in
  let h := Wheel.currentAngularMomentum w in
  let M := Wheel.maxAngularMomentum w in
  Wheel.currentAngularMomentum (advanceWheel torque w) =
    if decide (r > 0) then Rmin (h + r * dt) M
    else if decide (r < 0) then Rmax (h + r * dt) (- M)
    else h.
Proof.
  intros r h M. unfold advanceWheel, wheelControl, actualTorqueApplied. simpl.
  fold r h M. pose proof dt_pos as Hdt.
  destruct (decide (r > 0)) as [Hr|Hr].
  - pose proof (capacity_dt (M - h)) as Hc.
    unfold Rmin. destruct (Rle_dec r ((M - h) / dt)) as [Hle|Hle];
      destruct (Rle_dec (h + r * dt) M) as [Hle'|Hle']; try lra.
    + exfalso. apply Hle'.
      apply (Rmult_le_compat_r dt) in Hle; lra.
    + exfalso. apply Hle.
      apply (Rmult_le_reg_r dt); lra.
  - destruct (decide (r < 0)) as [Hn|Hn]; [|lra].
    pose proof (capacity_dt (h - - M)) as Hc.
    unfold Rmax.
    destruct (Rle_dec r (- ((h - - M) / dt))) as [Hle|Hle];
      destruct (Rle_dec (h + r * dt) (- M)) as [Hle'|Hle']; try lra.
    + exfalso. apply Hle'.
      apply (Rmult_le_compat_r dt) in Hle; lra.
    + exfalso. apply Hle.
      apply (Rmult_le_reg_r dt); lra.
Qed.








Lemma applyCMGControl_wheels torque s :
  reactionWheels (applyCMGControl torque s) = reactionWheels s.
Proof. reflexivity. Qed.







End WheelFacts.

Module WheelSaturation.
Import AttitudeControl ActuatorNotions WheelFacts.
Local Open Scope R_scope.



End WheelSaturation.

(** ** Control moment gyroscopes: the momentum limit *)

Module CMGLimit.
Import AttitudeControl ActuatorNotions Vec3Facts.
Local Open Scope R_scope.

(** Below the limit a request along the stored momentum is not scaled:
    the momentum grows by the full [tau * dt]. *)
Lemma advanceCMG_along_x (c : CMG.t) (a tau : R) :
  CMG.currentAngularMomentum c = Vec3.mk a 0 0 →
  0 <= a < CMG.maxAngularMomentum c →
  0 < tau <= CMG.maxTorque c →
  advanceCMG (Vec3.mk (- tau) 0 0) c
  = CMG.set_currentAngularMomentum (Vec3.mk (a + tau * dt) 0 0) c.
Proof.
  intros Hc [Ha0 HaM] [Ht0 HtM].
  assert (cmgActualTorque (Vec3.mk (- tau) 0 0) c = Vec3.mk (- tau) 0 0) as Hact.
  { assert (Vec3.length (Vec3.mk (- tau) 0 0) = tau) as Hlen.
    { rewrite length_x, Rabs_left; lra. }
    unfold cmgActualTorque. cbv zeta. rewrite Hc, length_x.
    rewrite (Rabs_pos_eq a) by done.
    rewrite (decide_False (P := a >= _)) by lra.
    assert (∀ b : bool, (if b then Vec3.mk (- tau) 0 0 else Vec3.mk (- tau) 0 0)
                        = Vec3.mk (- tau) 0 0) as Hif by (by intros []).
    destruct (decide (_ > 0)); rewrite Hlen; by rewrite decide_False by lra. }
  unfold advanceCMG, cmgControl. simpl. rewrite Hact, Hc.
  unfold CMG.set_currentAngularMomentum. f_equal.
  apply vec3_eq; unfold dt; simpl; lra.
Qed.

Lemma iter_advanceCMG_along_x (c : CMG.t) (tau : R) (n : nat) :
  CMG.currentAngularMomentum c = Vec3.zero →
  0 < tau <= CMG.maxTorque c →
  (n = 0%nat ∨ INR (n - 1) * (tau * dt) < CMG.maxAngularMomentum c) →
  Nat.iter n (advanceCMG (Vec3.mk (- tau) 0 0)) c
  = CMG.set_currentAngularMomentum (Vec3.mk (INR n * (tau * dt)) 0 0) c.
Proof.
  intros Hc Ht. assert (0 < dt) by (unfold dt; lra).
  assert (0 < tau * dt) by nra.
  induction n as [|n IH]; intros Hn.
  - simpl. destruct c. simpl in *. subst. unfold CMG.set_currentAngularMomentum.
    simpl. f_equal. apply vec3_eq; simpl; ring.
  - destruct Hn as [|Hn]; [lia|].
    replace (S n - 1)%nat with n in Hn by lia.
    assert (0 <= INR n) by apply pos_INR.
    rewrite Nat.iter_succ, IH.
    + rewrite S_INR.
      rewrite (advanceCMG_along_x _ (INR n * (tau * dt)) tau);
        [|reflexivity|simpl; split; nra|done].
      unfold CMG.set_currentAngularMomentum. simpl. f_equal.
      apply vec3_eq; simpl; lra.
    + destruct n as [|n]; [by left|right].
      replace (S n - 1)%nat with n by lia.
      rewrite S_INR in Hn. assert (0 <= INR n) by apply pos_INR. nra.
Qed.

Lemma iter_applyControlTorque_cmgs torque s n :
  mode s = mode_cmgs →
  mode (Nat.iter n (applyControlTorque torque) s) = mode_cmgs ∧
  cmgs (Nat.iter n (applyControlTorque torque) s)
  = Nat.iter n (advanceCMG torque) <$> cmgs s.
Proof.
  intros Hm. induction n as [|n [IHm IH]].
  - simpl. split; [done|]. by rewrite list_fmap_id.
  - rewrite Nat.iter_succ. unfold applyControlTorque at 1 3.
    rewrite IHm. split; [done|].
    unfold applyCMGControl. simpl. rewrite IH, <- !list_fmap_compose.
    done.
Qed.

(** C1 (the code departs from the claim).  A CMG with
    maxAngularMomentum 1 and maxTorque 9, starting from zero momentum in
    CMGS mode: after seven calls of applyControlTorque with the torque
    (-9, 0, 0) its stored momentum is (1.05, 0, 0), of magnitude 1.05,
    above the limit 1. *)
Theorem cmg_momentum_exceeds_limit :
  ∃ c,
    cmgs (Nat.iter 7 (applyControlTorque (Vec3.mk (-9) 0 0)) cmgSystem) = [c]
    ∧ CMG.maxAngularMomentum c = 1
    ∧ CMG.currentAngularMomentum c = Vec3.mk 1.05 0 0
    ∧ Vec3.length (CMG.currentAngularMomentum c) = 1.05
    ∧ Vec3.length (CMG.currentAngularMomentum c) > CMG.maxAngularMomentum c.
Proof.
  destruct (iter_applyControlTorque_cmgs (Vec3.mk (-9) 0 0) cmgSystem 7)
    as [_ Heq]; [done|].
  assert (Nat.iter 7 (advanceCMG (Vec3.mk (-9) 0 0)) smallCMG
          = CMG.set_currentAngularMomentum (Vec3.mk 1.05 0 0) smallCMG) as Hc.
  { change (Vec3.mk (-9) 0 0) with (Vec3.mk (- (9)) 0 0).
    rewrite (iter_advanceCMG_along_x smallCMG 9 7); simpl; try done.
    - unfold CMG.set_currentAngularMomentum. f_equal.
      apply vec3_eq; unfold dt; simpl; lra.
    - lra.
    - right. unfold dt. lra. }
  eexists. split.
  { rewrite Heq. cbn [cmgs cmgSystem fmap list_fmap]. rewrite Hc. done. }
  simpl. rewrite length_x, Rabs_pos_eq by lra. split_and!; try done. lra.
Qed.

(** The CMG branch of desaturation subtracts a vector that points
    against the total momentum, which adds to it: a CMG holding
    (12, 0, 0), with one thruster whose torque direction is -X, holds
    (12.02, 0, 0) after one call. *)
Lemma cmg_desaturation_adds_momentum :
  cmgs (desaturateWithThrusters [pitchThruster] (loadedCMGSystem 12))
  = [CMG.mk 0 200 5 (Vec3.mk 12.02 0 0)].
Proof.
  assert (totalCMGMomentum [CMG.mk 0 200 5 (Vec3.mk 12 0 0)] = Vec3.mk 12 0 0)
    as Htotal.
  { unfold totalCMGMomentum. simpl. apply vec3_eq; simpl; ring. }
  assert (Vec3.scale (-1) (Vec3.unit (Vec3.mk 12 0 0)) = Vec3.mk (-1) 0 0)
    as Hdir.
  { unfold Vec3.unit. rewrite length_x, Rabs_pos_eq by lra.
    rewrite decide_True by lra. apply vec3_eq; simpl; lra. }
  unfold desaturateWithThrusters, loadedCMGSystem.
  cbn [mode cmgs]. rewrite Htotal, length_x, Rabs_pos_eq by lra.
  rewrite (decide_True (P := 12 > 10)) by lra. rewrite Hdir.
  cbn [foldl]. unfold cmgDesaturationFiring.
  assert (Vec3.dot (Vec3.cross (Thruster.pos pitchThruster)
                               (Thruster.dir pitchThruster))
                   (Vec3.mk (-1) 0 0) = 1) as ->.
  { unfold Vec3.dot, Vec3.cross. simpl. lra. }
  rewrite (decide_True (P := 1 > 0.5)) by lra.
  cbn [fst snd fmap list_fmap cmgs set_cmgs send set_desaturationActive].
  f_equal. unfold bleedCMG, CMG.set_currentAngularMomentum. simpl. f_equal.
  apply vec3_eq; simpl; lra.
Qed.
End CMGLimit.

(** ** Desaturation of a wheel holding negative momentum *)

Module DesaturationFacts.
Import AttitudeControl ActuatorNotions Vec3Facts.
Local Open Scope R_scope.

Lemma total_zWheel h : totalWheelMomentum [zWheel h] = Vec3.mk 0 0 h.
Proof.
  unfold totalWheelMomentum. simpl.
  apply vec3_eq; simpl; ring.
Qed.

Lemma opposing_direction h :
  h < 0 → Vec3.scale (-1) (Vec3.unit (Vec3.mk 0 0 h)) = Vec3.mk 0 0 1.
Proof.
  intros Hh. unfold Vec3.unit. rewrite length_z, Rabs_left by done.
  rewrite decide_True by lra.
  apply vec3_eq; simpl; try ring. field. lra.
Qed.

Lemma rollThruster_alignment :
  Vec3.dot (Vec3.cross (Thruster.pos rollThruster) (Thruster.dir rollThruster))
           (Vec3.mk 0 0 1) = 1.
Proof. unfold Vec3.dot, Vec3.cross. simpl. ring. Qed.

Lemma bleed_zWheel h :
  -10 <= h <= 0 → bleedWheel 1 (zWheel h) = zWheel (Rmax (-10) (h - 0.01)).
Proof.
  intros Hh. unfold bleedWheel, zWheel. simpl.
  unfold Wheel.set_currentAngularMomentum. simpl. f_equal.
  replace (Vec3.scale (1 * 0.01) (Vec3.mk 0 0 1)) with (Vec3.mk 0 0 0.01)
    by (apply vec3_eq; simpl; ring).
  rewrite length_z, Rabs_pos_eq by lra.
  unfold Rmax, Rmin; repeat destruct (Rle_dec _ _); lra.
Qed.

(** One desaturation call on the bank: the wheel loses another 0.01,
    down to -10, and desaturation stays active. *)
Lemma desaturate_negative h active log :
  -10 <= h <= -5 →
  ∃ log',
    desaturateWithThrusters [rollThruster] (bank h active log)
    = bank (Rmax (-10) (h - 0.01)) true log'.
Proof.
  intros Hh. unfold desaturateWithThrusters. simpl mode. cbv iota.
  cbn [reactionWheels bank]. rewrite total_zWheel, length_z.
  rewrite Rabs_left by lra. rewrite (decide_True (P := - h > 0.1)) by lra.
  rewrite opposing_direction by lra.
  cbn [foldl]. unfold wheelDesaturationFiring.
  rewrite rollThruster_alignment. rewrite (decide_True (P := 1 > 0.5)) by lra.
  cbn [fst snd fmap list_fmap]. rewrite bleed_zWheel by lra.
  unfold maxWheelMomentum. cbn [foldl zWheel Wheel.currentAngularMomentum].
  assert (Rmax (-10) (h - 0.01) <= -5) as Hle.
  { unfold Rmax; destruct (Rle_dec _ _); lra. }
  rewrite decide_False.
  - eexists. reflexivity.
  - rewrite Rabs_left by lra.
    unfold Rmax at 1. destruct (Rle_dec _ _); lra.
Qed.

(** The bank reaches momentum -5 from rest with one control call. *)
Lemma negative_momentum_is_reachable :
  ∃ log,
    applyControlTorque (Vec3.mk 0 0 (-300)) (bank 0 false []) = bank (-5) false log.
Proof.
  assert (advanceWheel (Vec3.mk 0 0 (-300)) (zWheel 0) = zWheel (-5)) as Hw.
  { pose proof (WheelFacts.advance_momentum (Vec3.mk 0 0 (-300)) (zWheel 0)) as H.
    cbv zeta in H.
    assert (Vec3.dot (Wheel.orientation (zWheel 0)) (Vec3.mk 0 0 (-300)) = -300)
      as Hdot by (unfold Vec3.dot; simpl; lra).
    rewrite Hdot in H. rewrite decide_False, decide_True in H by lra.
    change (advanceWheel (Vec3.mk 0 0 (-300)) (zWheel 0))
      with (Wheel.set_currentAngularMomentum
              (Wheel.currentAngularMomentum
                 (advanceWheel (Vec3.mk 0 0 (-300)) (zWheel 0)))
              (zWheel 0)).
    rewrite H. unfold Wheel.set_currentAngularMomentum, zWheel. simpl.
    f_equal. unfold dt, Rmax. destruct (Rle_dec _ _); lra. }
  unfold applyControlTorque, bank. cbn [mode].
  unfold applyReactionWheelControl. cbn [reactionWheels fmap list_fmap].
  fold (advanceWheel (Vec3.mk 0 0 (-300)) (zWheel 0)). rewrite Hw.
  eexists. reflexivity.
Qed.

(** C7 (the code departs from the claim).  A single wheel about +Z with
    maximum 10 holds momentum -5 (after one control call from rest),
    above the 0.5 threshold in magnitude;
    the thruster at (1,0,0) firing along +Y has torque direction +Z,
    aligned (alignment 1 > 0.5) with the direction opposing the bank's
    momentum.  After [n] desaturation calls the wheel holds
    max(-10, -5 - n/100): the peak magnitude grows from 5 to 10, never
    drops below 0.5, and desaturationActive stays set. *)
Theorem desaturation_of_negative_wheel_diverges :
  ∀ n, ∃ log,
    desaturations n
    = bank (Rmax (-10) (-5 - INR n / 100)) (bool_decide (0 < n)%nat) log
    ∧ maxWheelMomentum (reactionWheels (desaturations n)) >= 5
    ∧ maxWheelMomentum (reactionWheels (desaturations n))
      <= maxWheelMomentum (reactionWheels (desaturations (S n))).
Proof.
  assert (∀ h, -10 <= h <= -5 → maxWheelMomentum [zWheel h] = - h) as Hpeak.
  { intros h Hh. unfold maxWheelMomentum. simpl.
    rewrite Rabs_left by lra. unfold Rmax. destruct (Rle_dec _ _); lra. }
  assert (∀ n, ∃ log, desaturations n
    = bank (Rmax (-10) (-5 - INR n / 100)) (bool_decide (0 < n)%nat) log)
    as Hstate.
  { induction n as [|n [log IH]].
    - destruct negative_momentum_is_reachable as [log Hlog].
      exists log. unfold desaturations. cbn [Nat.iter nat_rect]. rewrite Hlog.
      assert (Rmax (-10) (-5 - INR 0 / 100) = -5) as ->; [|done].
      simpl. unfold Rmax. destruct (Rle_dec _ _); lra.
    - unfold desaturations in *. rewrite Nat.iter_succ, IH.
      assert (0 <= INR n) by apply pos_INR.
      destruct (desaturate_negative (Rmax (-10) (-5 - INR n / 100))
                  (bool_decide (0 < n)%nat) log) as [log' ->].
      { unfold Rmax. destruct (Rle_dec _ _); lra. }
      exists log'. rewrite bool_decide_eq_true_2 by lia.
      assert (Rmax (-10) (Rmax (-10) (-5 - INR n / 100) - 0.01)
              = Rmax (-10) (-5 - INR (S n) / 100)) as ->; [|done].
      rewrite S_INR.
      unfold Rmax; repeat destruct (Rle_dec _ _); lra. }
  intros n. destruct (Hstate n) as [log Hn]. destruct (Hstate (S n)) as [log' HSn].
  exists log. split; [done|].
  rewrite Hn, HSn. cbn [reactionWheels bank].
  assert (0 <= INR n) by apply pos_INR.
  rewrite !Hpeak; rewrite ?S_INR;
    unfold Rmax; repeat destruct (Rle_dec _ _); lra.
Qed.
End DesaturationFacts.

(** ** Propellant *)

Module FuelFacts.
Import Fuel FuelNotions.
Local Open Scope R_scope.

Lemma sanitize_pos fallback n : 0 < fallback → 0 < ThrusterSetup.sanitize fallback n.
Proof.
  intros Hf. unfold ThrusterSetup.sanitize. destruct n as [|r]; [done|].
  simpl. case_bool_decide; lra.
Qed.

Section WithScanner.
Variable StringToNumber : string → JS.number.

Lemma processThruster_sanitized com i t m m' th :
  ThrusterSetup.processThruster StringToNumber com i t m = (m', Some th) →
  sanitized th.
Proof.
  unfold ThrusterSetup.processThruster, mbind, ThrusterSetup.Bind_bind,
    mret, ThrusterSetup.Bind_ret.
  destruct (if JS.notFalse _ then _ else _) as [m1 [[]|]]; [|done].
  intros [= _ <-]. split; simpl; apply sanitize_pos; lra.
Qed.

Lemma processFrom_sanitized com ts : ∀ i m m' ths,
  ThrusterSetup.processFrom StringToNumber com i ts m = (m', Some ths) →
  Forall sanitized ths.
Proof.
  induction ts as [|t ts IH]; intros i m m' ths.
  - intros [= _ <-]. constructor.
  - cbn [ThrusterSetup.processFrom]. unfold mbind at 1, ThrusterSetup.Bind_bind at 1.
    destruct (ThrusterSetup.processThruster _ _ _ _ _) as [m1 [th|]] eqn:Hth;
      [|done].
    unfold mbind, ThrusterSetup.Bind_bind.
    destruct (ThrusterSetup.processFrom _ _ _ _ _) as [m2 [rest|]] eqn:Hrest;
      [|done].
    intros [= _ <-]. constructor.
    + eapply processThruster_sanitized, Hth.
    + eapply IH, Hrest.
Qed.

Lemma initializeThrusters_sanitized config com m :
  Forall sanitized
    (ThrusterSetup.initializeThrustersWithConfig StringToNumber config com m).2.
Proof.
  unfold ThrusterSetup.initializeThrustersWithConfig,
    ThrusterSetup.processThrusterConfig.
  destruct (ThrusterSetup.processFrom _ _ _ _ _) as [m' [ths|]] eqn:H; simpl.
  - eapply processFrom_sanitized, H.
  - constructor.
Qed.
End WithScanner.

Lemma setActive_fuel i b p : fuel (setActive i b p) = fuel p.
Proof. reflexivity. Qed.

Lemma setActive_sanitized i b p :
  Forall sanitized (thrusters p) → Forall sanitized (thrusters (setActive i b p)).
Proof.
  intros H. unfold setActive. simpl.
  apply Forall_alter; [done|]. intros t _ Ht. exact Ht.
Qed.

Lemma burn_nonneg t dt : sanitized t → 0 <= dt → 0 <= burn t dt.
Proof.
  intros [Ht Hi] Hdt. unfold burn.
  apply Rmult_le_pos; [|done].
  apply Rlt_le, Rdiv_lt_0_compat; [done|]. lra.
Qed.

(** One firing, case by case. *)
Lemma fire_cases dt i p :
  Forall sanitized (thrusters p) →
  match thrusters p !! i with
  | None => fire dt i p = p
  | Some t =>
      if decide (fuelMass (fuel p) <= 0) then
        fire dt i p = setActive i false p
      else
        fuelMass (fuel (fire dt i p)) = Rmax 0 (fuelMass (fuel p) - burn t dt)
  end.
Proof.
  intros Hs. unfold fire. destruct (thrusters p !! i) as [t|] eqn:Hi; [|done].
  case_decide; [done|].
  assert (sanitized t) as [Ht Hisp].
  { eapply Forall_lookup_1; eauto. }
  assert (invalid t = false) as ->.
  { unfold invalid. rewrite !bool_decide_eq_false_2; [done|lra..]. }
  simpl. by case_decide.
Qed.

Lemma fire_sanitized dt i p :
  Forall sanitized (thrusters p) → Forall sanitized (thrusters (fire dt i p)).
Proof.
  intros Hs. unfold fire. destruct (thrusters p !! i) as [t|]; [|done].
  case_decide; [by apply setActive_sanitized|].
  destruct (invalid t); [by apply setActive_sanitized|].
  simpl. case_decide; by apply setActive_sanitized.
Qed.

Lemma fire_fuel dt i p :
  Forall sanitized (thrusters p) → 0 <= dt → 0 <= fuelMass (fuel p) →
  0 <= fuelMass (fuel (fire dt i p)) <= fuelMass (fuel p).
Proof.
  intros Hs Hdt Hf. pose proof (fire_cases dt i p Hs) as H.
  destruct (thrusters p !! i) as [t|] eqn:Hi.
  - case_decide.
    + rewrite H, setActive_fuel. lra.
    + rewrite H. assert (0 <= burn t dt).
      { apply burn_nonneg; [|done]. eapply Forall_lookup_1; eauto. }
      unfold Rmax. destruct (Rle_dec _ _); lra.
  - rewrite H. lra.
Qed.

Lemma fireAll_fuel ops : ∀ p,
  Forall sanitized (thrusters p) → nonnegDts ops → 0 <= fuelMass (fuel p) →
  Forall sanitized (thrusters (fireAll ops p)) ∧
  0 <= fuelMass (fuel (fireAll ops p)) <= fuelMass (fuel p).
Proof.
  induction ops as [|[dt i] ops IH]; intros p Hs Hd Hf.
  - simpl. split; [done|lra].
  - apply Forall_cons in Hd as [Hdt Hd]. simpl in Hdt.
    pose proof (fire_fuel dt i p Hs Hdt Hf) as [H0 H1].
    destruct (IH (fire dt i p)) as [Hs' [H2 H3]]; auto using fire_sanitized.
    simpl. split; [done|]. unfold fireAll in *. lra.
Qed.

Lemma fireAll_app ops1 ops2 p :
  fireAll (ops1 ++ ops2) p = fireAll ops2 (fireAll ops1 p).
Proof. unfold fireAll. by rewrite foldl_app. Qed.
End FuelFacts.

Module FuelMonotonicity.
Import Fuel FuelNotions FuelFacts.
Local Open Scope R_scope.

(** C2.  With the thrusters that thruster loading returns, a
    non-negative initial fuel mass and non-negative frame times: at every
    point of every sequence of firings the fuel mass is non-negative and
    no larger than at any earlier point; a firing with fuel left sets the
    fuel mass to max(0, fuelMass - thrust / (isp * 9.81) * dt); a firing
    with no fuel left changes neither the fuel nor the forces and leaves
    the thruster inactive. *)
Theorem fuel_is_monotone_and_nonnegative :
  ∀ (StringToNumber : string → JS.number) (config : list ThrusterCfg.t)
    (centerOfMass : Vec3.t) (keyMap : gmap string (list nat))
    (fuel0 : Fuel.t) (ops1 ops2 : list (R * nat)),
    let loadedThrusters :=
      (ThrusterSetup.initializeThrustersWithConfig
         StringToNumber config centerOfMass keyMap).2 in
    let p0 := mkPropulsion fuel0 loadedThrusters [] in
    let p := fireAll ops1 p0 in
    0 <= fuelMass fuel0 →
    nonnegDts ops1 →
    nonnegDts ops2 →
    (0 <= fuelMass (fuel (fireAll (ops1 ++ ops2) p0)) <= fuelMass (fuel p))
    ∧ fuelMass (fuel p) <= fuelMass fuel0
    ∧ (∀ dt i t,
         thrusters p !! i = Some t →
         0 < fuelMass (fuel p) →
         fuelMass (fuel (fire dt i p))
         = Rmax 0 (fuelMass (fuel p)
                   - Thruster.thrust t / (Thruster.isp t * 9.81) * dt))
    ∧ (∀ dt i t,
         thrusters p !! i = Some t →
         fuelMass (fuel p) <= 0 →
         fuel (fire dt i p) = fuel p
         ∧ forces (fire dt i p) = forces p
         ∧ Thruster.active <$> thrusters (fire dt i p) !! i = Some false).
Proof.
  intros scan config com keyMap fuel0 ops1 ops2 loaded p0 p Hf H1 H2.
  assert (Forall sanitized (thrusters p0)) as Hs0.
  { apply initializeThrusters_sanitized. }
  destruct (fireAll_fuel ops1 p0 Hs0 H1 Hf) as [Hs [Hp0 Hp1]]. fold p in Hs, Hp0, Hp1.
  split; [|split; [|split]].
  - rewrite fireAll_app. fold p.
    apply (fireAll_fuel ops2 p Hs H2 Hp0).
  - exact Hp1.
  - intros dt i t Hi Hpos. pose proof (fire_cases dt i p Hs) as Hc.
    rewrite Hi in Hc. rewrite decide_False in Hc by lra. exact Hc.
  - intros dt i t Hi Hle. pose proof (fire_cases dt i p Hs) as Hc.
    rewrite Hi in Hc. rewrite decide_True in Hc by done. rewrite Hc.
    split; [done|split; [done|]].
    unfold setActive. simpl. rewrite list_lookup_alter_eq, Hi. done.
Qed.

Lemma fuel_is_monotone_and_nonnegative_witness :
  let loadedThrusters :=
    (ThrusterSetup.initializeThrustersWithConfig
       (λ _, JS.NaN) [BindingNotions.forwardThruster] Vec3.zero ThrusterSetup.emptyKeyMap).2 in
  let p0 := mkPropulsion sampleFuel loadedThrusters [] in
  let p := fireAll [(1 / 60, 0%nat)] p0 in
  (0 <= fuelMass (fuel (fireAll ([(1 / 60, 0%nat)] ++ [(1 / 60, 0%nat)]) p0))
   <= fuelMass (fuel p))
  ∧ fuelMass (fuel p) <= fuelMass sampleFuel
  ∧ (∀ dt i t,
       thrusters p !! i = Some t →
       0 < fuelMass (fuel p) →
       fuelMass (fuel (fire dt i p))
       = Rmax 0 (fuelMass (fuel p)
                 - Thruster.thrust t / (Thruster.isp t * 9.81) * dt))
  ∧ (∀ dt i t,
       thrusters p !! i = Some t →
       fuelMass (fuel p) <= 0 →
       fuel (fire dt i p) = fuel p
       ∧ forces (fire dt i p) = forces p
       ∧ Thruster.active <$> thrusters (fire dt i p) !! i = Some false).
Proof.
  apply (fuel_is_monotone_and_nonnegative
           (λ _, JS.NaN) [BindingNotions.forwardThruster] Vec3.zero ThrusterSetup.emptyKeyMap
           sampleFuel [(1 / 60, 0%nat)] [(1 / 60, 0%nat)]).
  - simpl. lra.
  - repeat constructor; simpl; lra.
  - repeat constructor; simpl; lra.
Defined.
End FuelMonotonicity.

(** ** Channel binding *)

Module BindingFacts.
Import ThrusterSetup BindingNotions.
Local Open Scope R_scope.

Lemma emptyKeyMap_ownsChannels : ownsChannels emptyKeyMap.
Proof.
  intros k Hk. unfold channelKeys in Hk.
  repeat (apply elem_of_cons in Hk as [->|Hk]; [by eexists|]).
  by apply elem_of_nil in Hk.
Qed.

Lemma tolerance_65 : TRANSLATION_TOLERANCE = cos (65 * PI / 180).
Proof.
  unfold TRANSLATION_TOLERANCE, TRANSLATION_ANGLE_DEGREES. f_equal. lra.
Qed.

Lemma tolerance_bounds : 0 < TRANSLATION_TOLERANCE < 1.
Proof.
  rewrite tolerance_65. pose proof PI_RGT_0 as Hpi. split.
  - apply cos_gt_0; lra.
  - rewrite <- cos_0. apply cos_decreasing_1; lra.
Qed.

Lemma elem_of_axis (P Q : Prop) `{!Decision P, !Decision Q} (a b k : string) :
  k ∈ (if decide P then [if decide Q then a else b] else [])
  ↔ P ∧ ((Q ∧ k = a) ∨ (¬ Q ∧ k = b)).
Proof.
  destruct (decide P) as [HP|HP].
  - rewrite list_elem_of_singleton. destruct (decide Q); tauto.
  - rewrite elem_of_nil. tauto.
Qed.

Lemma autoBindKeys_channel pos dir k :
  k ∈ autoBindKeys pos dir → k ∈ channelKeys.
Proof.
  unfold autoBindKeys, translationKeys, rotationKeys, channelKeys.
  rewrite !elem_of_app, !elem_of_axis, !elem_of_cons. tauto.
Qed.

Lemma NoDup_axis (P Q : Prop) `{!Decision P, !Decision Q} (a b : string) :
  NoDup (if decide P then [if decide Q then a else b] else []).
Proof.
  destruct (decide P); [|constructor]. apply NoDup_singleton.
Qed.

Lemma autoBindKeys_NoDup pos dir : NoDup (autoBindKeys pos dir).
Proof.
  unfold autoBindKeys, translationKeys, rotationKeys.
  repeat first [apply NoDup_axis | apply NoDup_app; split_and!];
    intros k; rewrite ?elem_of_app, !elem_of_axis; intuition congruence.
Qed.

(** [push] on a key the object owns appends to its array. *)
Lemma push_owned k i (m : KeyMap) l :
  m !! k = Some l → push k i m = (<[k := l ++ [i]]> m, Some ()).
Proof. intros H. unfold push. by rewrite H. Qed.

Lemma pushAll_owned ks i : ∀ m : KeyMap,
  NoDup ks →
  (∀ k, k ∈ ks → is_Some (m !! k)) →
  ∃ m' : KeyMap,
    pushAll ks i m = (m', Some ()) ∧
    ∀ k, m' !! k = if bool_decide (k ∈ ks)
                   then (λ l, l ++ [i]) <$> m !! k else m !! k.
Proof.
  induction ks as [|k0 ks IH]; intros m Hnd Hown.
  - exists m. split; [done|]. intros k.
    rewrite bool_decide_eq_false_2; [done|]. apply not_elem_of_nil.
  - apply NoDup_cons in Hnd as [Hk0 Hnd].
    destruct (Hown k0) as [l Hl]; [left|].
    destruct (IH (<[k0 := l ++ [i]]> m) Hnd) as (m' & Hrun & Hlook).
    { intros k Hk. destruct (decide (k = k0)) as [->|Hne].
      - rewrite lookup_insert_eq. by eexists.
      - rewrite lookup_insert_ne by done. apply Hown. by right. }
    exists m'. split.
    + cbn [pushAll]. unfold mbind, Bind_bind. by rewrite (push_owned _ _ _ l), Hrun.
    + intros k. rewrite Hlook. destruct (decide (k = k0)) as [->|Hne].
      * rewrite (bool_decide_eq_false_2 (k0 ∈ ks)) by done.
        rewrite bool_decide_eq_true_2 by left.
        by rewrite lookup_insert_eq, Hl.
      * rewrite lookup_insert_ne by done.
        destruct (decide (k ∈ ks)).
        -- rewrite !bool_decide_eq_true_2; [done|by right|done].
        -- rewrite !bool_decide_eq_false_2; [done| |done].
           rewrite elem_of_cons. tauto.
Qed.

(** The keys of a thruster at (1,0,0) pointing along +Z: forward
    translation and yaw. *)
Lemma forward_keys :
  autoBindKeys (Vec3.mk 1 0 0) (Vec3.unit (Vec3.mk 0 0 1)) = ["w"; "l"].
Proof.
  pose proof tolerance_bounds as [Hlo Hhi].
  rewrite Vec3Facts.unit_z.
  unfold autoBindKeys, translationKeys, rotationKeys, Vec3.dot, Vec3.cross.
  simpl.
  replace (0 * 0 + 0 * 0 + 1 * 1) with 1 by ring.
  replace (0 * 1 + 0 * 0 + 1 * 0) with 0 by ring.
  replace (0 * 0 + 0 * 1 + 1 * 0) with 0 by ring.
  replace (0 * 1 - 0 * 0) with 0 by ring.
  replace (0 * 0 - 1 * 1) with (-1) by ring.
  replace (1 * 0 - 0 * 0) with 0 by ring.
  rewrite Rabs_R1, Rabs_R0, (Rabs_left (-1)) by lra.
  repeat (first [rewrite decide_True by lra | rewrite decide_False by lra]).
  done.
Qed.

Lemma forwardThruster_keys :
  autoBindKeys (Vec3.vsub (Vec3.mk 1 0 0) Vec3.zero)
               (Vec3.unit (Vec3.mk 0 0 1)) = ["w"; "l"].
Proof.
  replace (Vec3.vsub (Vec3.mk 1 0 0) Vec3.zero) with (Vec3.mk 1 0 0)
    by (apply Vec3Facts.vec3_eq; simpl; ring).
  apply forward_keys.
Qed.
End BindingFacts.

Module AutoBinding.
Import ThrusterSetup BindingNotions BindingFacts.
Local Open Scope R_scope.

Lemma keys_characterised pos dir :
  let torque := Vec3.cross pos dir in
  let tol := cos (65 * PI / 180) in
  ∀ k, k ∈ autoBindKeys pos dir ↔
    (Rabs (Vec3.dot dir axisZ) > tol ∧
       (Vec3.z dir > 0 ∧ k = "w" ∨ ¬ Vec3.z dir > 0 ∧ k = "s")) ∨
    (Rabs (Vec3.dot dir axisX) > tol ∧
       (Vec3.x dir > 0 ∧ k = "a" ∨ ¬ Vec3.x dir > 0 ∧ k = "d")) ∨
    (Rabs (Vec3.dot dir axisY) > tol ∧
       (Vec3.y dir > 0 ∧ k = "e" ∨ ¬ Vec3.y dir > 0 ∧ k = "q")) ∨
    (Rabs (Vec3.x torque) > 0.025 ∧
       (Vec3.x torque > 0 ∧ k = "k" ∨ ¬ Vec3.x torque > 0 ∧ k = "i")) ∨
    (Rabs (Vec3.y torque) > 0.025 ∧
       (Vec3.y torque > 0 ∧ k = "j" ∨ ¬ Vec3.y torque > 0 ∧ k = "l")) ∨
    (Rabs (Vec3.z torque) > 0.025 ∧
       (Vec3.z torque > 0 ∧ k = "o" ∨ ¬ Vec3.z torque > 0 ∧ k = "u")).
Proof.
  intros torque tol k.
  unfold autoBindKeys, translationKeys, rotationKeys.
  fold torque. rewrite tolerance_65. fold tol axisX axisY axisZ.
  rewrite !elem_of_app, !elem_of_axis. tauto.
Qed.

(** C8.  A thruster with auto-binding on, loaded as thruster [i] into a
    key map that owns the twelve channel arrays: [i] is appended to the
    array of exactly the keys of [autoBindKeys], once each.  A translation
    key is bound for an axis when |dot(dir, axis)| > cos(65 degrees), w/a/e
    for a positive direction component along Z/X/Y and s/d/q otherwise;
    a rotation key is bound for an axis when the component of
    torque = pos x dir along it exceeds 0.025 in absolute value, k/j/o for
    a positive component about X/Y/Z and i/l/u otherwise.  Both kinds can
    go to the same thruster. *)
Theorem auto_binding_by_projection_and_torque :
  (∀ (StringToNumber : string → JS.number) (centerOfMass : Vec3.t)
     (i : nat) (t : ThrusterCfg.t) (m : KeyMap),
     JS.notFalse (ThrusterCfg.autoBind t) = true →
     ownsChannels m →
     let pos := Vec3.vsub (ThrusterCfg.position t) centerOfMass in
     let dir := Vec3.unit (ThrusterCfg.direction t) in
     let torque := Vec3.cross pos dir in
     let tol := cos (65 * PI / 180) in
     ∃ (m' : KeyMap) (th : Thruster.t),
       processThruster StringToNumber centerOfMass i t m = (m', Some th)
       ∧ Thruster.pos th = pos ∧ Thruster.dir th = dir
       ∧ Thruster.index th = i
       ∧ (∀ k, m' !! k =
               if bool_decide (k ∈ autoBindKeys pos dir)
               then (λ l, l ++ [i]) <$> m !! k else m !! k)
       ∧ (∀ k, k ∈ autoBindKeys pos dir ↔
            (Rabs (Vec3.dot dir axisZ) > tol ∧
               (Vec3.z dir > 0 ∧ k = "w" ∨ ¬ Vec3.z dir > 0 ∧ k = "s")) ∨
            (Rabs (Vec3.dot dir axisX) > tol ∧
               (Vec3.x dir > 0 ∧ k = "a" ∨ ¬ Vec3.x dir > 0 ∧ k = "d")) ∨
            (Rabs (Vec3.dot dir axisY) > tol ∧
               (Vec3.y dir > 0 ∧ k = "e" ∨ ¬ Vec3.y dir > 0 ∧ k = "q")) ∨
            (Rabs (Vec3.x torque) > 0.025 ∧
               (Vec3.x torque > 0 ∧ k = "k" ∨ ¬ Vec3.x torque > 0 ∧ k = "i")) ∨
            (Rabs (Vec3.y torque) > 0.025 ∧
               (Vec3.y torque > 0 ∧ k = "j" ∨ ¬ Vec3.y torque > 0 ∧ k = "l")) ∨
            (Rabs (Vec3.z torque) > 0.025 ∧
               (Vec3.z torque > 0 ∧ k = "o" ∨ ¬ Vec3.z torque > 0 ∧ k = "u"))))
  ∧ autoBindKeys (Vec3.mk 1 0 0) (Vec3.unit (Vec3.mk 0 0 1)) = ["w"; "l"].
Proof.
  split.
  - intros scan com i t m Hauto Hown pos dir torque tol.
    destruct (pushAll_owned (autoBindKeys pos dir) i m) as (m' & Hrun & Hlook).
    { apply autoBindKeys_NoDup. }
    { intros k Hk. apply Hown. by eapply autoBindKeys_channel. }
    eexists m', _. split.
    { unfold processThruster. rewrite Hauto. fold pos dir.
      unfold mbind, Bind_bind. rewrite Hrun. reflexivity. }
    split_and!; try done. apply keys_characterised.
  - apply forward_keys.
Qed.

Lemma auto_binding_by_projection_and_torque_witness :
  ∃ (m' : KeyMap) (th : Thruster.t),
    processThruster (λ _, JS.NaN) Vec3.zero 0 forwardThruster emptyKeyMap
    = (m', Some th)
    ∧ Thruster.index th = 0%nat
    ∧ (∀ k, m' !! k =
            if bool_decide
                 (k ∈ autoBindKeys
                        (Vec3.vsub (Vec3.mk 1 0 0) Vec3.zero)
                        (Vec3.unit (Vec3.mk 0 0 1)))
            then (λ l, l ++ [0%nat]) <$> emptyKeyMap !! k
            else emptyKeyMap !! k).
Proof.
  destruct (proj1 auto_binding_by_projection_and_torque
              (λ _, JS.NaN) Vec3.zero 0%nat forwardThruster emptyKeyMap)
    as (m' & th & Hrun & _ & _ & Hi & Hlook & _).
  - reflexivity.
  - exact emptyKeyMap_ownsChannels.
  - exists m', th. split; [exact Hrun|]. split; [exact Hi|exact Hlook].
Defined.
End AutoBinding.

(** ** Binding against a shared key map *)

Module BindingFrame.
Import ThrusterSetup BindingNotions BindingFacts.
Local Open Scope R_scope.

Lemma prefixed_emptied m : prefixed m m (emptied m).
Proof.
  intros k. unfold emptied. rewrite lookup_fmap.
  destruct (m !! k) as [l|]; simpl; [|split; [done|]].
  - rewrite app_nil_r. split; [done|]. split; by eexists.
  - split; intros [? ?]; done.
Qed.

Lemma prefixed_lookup m0 m e k :
  prefixed m0 m e →
  match e !! k with
  | Some le => ∃ l0, m0 !! k = Some l0 ∧ m !! k = Some (l0 ++ le)
  | None => m !! k = None
  end.
Proof.
  intros H. destruct (H k) as [Hm Hdom].
  destruct (e !! k) as [le|] eqn:He.
  - destruct (proj2 Hdom) as [l0 Hl0]; [by eexists|].
    exists l0. by rewrite Hm, Hl0.
  - rewrite Hm. by destruct (m0 !! k).
Qed.

Lemma uniform_ret {A} (a : A) : uniform (mret a).
Proof. intros m0 m e H. done. Qed.

Lemma uniform_bind {A B} (c : Bind A) (f : A → Bind B) :
  uniform c → (∀ a, uniform (f a)) → uniform (c ≫= f).
Proof.
  intros Hc Hf m0 m e H. destruct (Hc m0 m e H) as [Hr Hp].
  unfold mbind, Bind_bind.
  destruct (c m) as [m1 r1], (c e) as [e1 r2]. simpl in *. subst r2.
  destruct r1 as [a|]; [by apply Hf|done].
Qed.

Lemma uniform_push k i : uniform (push k i).
Proof.
  intros m0 m e H. pose proof (prefixed_lookup m0 m e k H) as Hk.
  unfold push. destruct (e !! k) as [le|] eqn:He.
  - destruct Hk as (l0 & Hl0 & ->). simpl. split; [done|].
    intros k'. destruct (decide (k' = k)) as [->|Hne].
    + rewrite !lookup_insert_eq, Hl0. rewrite app_assoc.
      split; [done|]. split; by eexists.
    + rewrite !lookup_insert_ne by done. apply H.
  - rewrite Hk. done.
Qed.

Lemma uniform_pushAll ks i : uniform (pushAll ks i).
Proof.
  induction ks as [|k ks IH]; [apply uniform_ret|].
  apply uniform_bind; [apply uniform_push|done].
Qed.

Lemma uniform_customBind key i : uniform (customBind key i).
Proof.
  unfold customBind. case_bool_decide; [apply uniform_ret|].
  intros m0 m e Hp.
  pose proof (prefixed_lookup m0 m e (trim (toLowerCase key)) Hp) as Hk.
  destruct (e !! trim (toLowerCase key)) as [le|] eqn:He.
  - destruct Hk as (l0 & Hl0 & Hm). rewrite Hm.
    by apply uniform_push.
  - rewrite Hk. by destruct (inheritedKey _).
Qed.

Lemma uniform_customBindAll keys i : uniform (customBindAll keys i).
Proof.
  induction keys as [|k ks IH]; [apply uniform_ret|].
  apply uniform_bind; [apply uniform_customBind|done].
Qed.

Section WithScanner.
Variable StringToNumber : string → JS.number.

Lemma uniform_processThruster com i t :
  uniform (processThruster StringToNumber com i t).
Proof.
  unfold processThruster. apply uniform_bind.
  - destruct (JS.notFalse _);
      [apply uniform_pushAll|apply uniform_customBindAll].
  - intros _. apply uniform_ret.
Qed.

Lemma uniform_processFrom com ts :
  ∀ i, uniform (processFrom StringToNumber com i ts).
Proof.
  induction ts as [|t ts IH]; intros i; [apply uniform_ret|].
  cbn [processFrom]. apply uniform_bind; [apply uniform_processThruster|].
  intros th. apply uniform_bind; [apply IH|].
  intros rest. apply uniform_ret.
Qed.

Lemma run_frame config com (m : KeyMap) :
  (processThrusterConfig StringToNumber config com m).2
  = (processThrusterConfig StringToNumber config com (emptied m)).2
  ∧ ∀ k,
      (processThrusterConfig StringToNumber config com m).1 !! k
      = (λ l, l ++ appended StringToNumber config com m k) <$> m !! k.
Proof.
  destruct (uniform_processFrom com config 0%nat m m (emptied m)
              (prefixed_emptied m)) as [Hr Hp].
  split; [exact Hr|]. intros k. unfold appended.
  fold (processThrusterConfig StringToNumber config com) in Hp.
  destruct (Hp k) as [-> Hdom].
  destruct (m !! k) as [l0|]; simpl; [|done].
  destruct (proj1 Hdom) as [le ->]; [by eexists|]. done.
Qed.

Lemma run_emptied config com (m : KeyMap) :
  emptied (processThrusterConfig StringToNumber config com m).1 = emptied m.
Proof.
  apply map_eq. intros k. unfold emptied. rewrite !lookup_fmap.
  destruct (run_frame config com m) as [_ H]. rewrite H.
  by destruct (m !! k).
Qed.
End WithScanner.
End BindingFrame.

Module BindingDeterminism.
Import ThrusterSetup BindingNotions BindingFacts BindingFrame.
Local Open Scope R_scope.

(** C9, as amended.  The thrusters returned and the indices appended to
    each channel depend on the configuration, the centre of mass and the
    keys the map owns; the arrays already in the map are kept in front.
    Invoked again on the map it has just filled, the operation returns
    the same thrusters and appends the same indices once more: every
    channel then holds the same set of indices, each bound index twice. *)
Theorem binding_appends_to_the_shared_map :
  ∀ (StringToNumber : string → JS.number) (config : list ThrusterCfg.t)
    (centerOfMass : Vec3.t) (m : KeyMap),
    let bindThrusterChannels :=
      processThrusterConfig StringToNumber config centerOfMass in
    let added := appended StringToNumber config centerOfMass m in
    let once := (bindThrusterChannels m).1 in
    let twice := (bindThrusterChannels once).1 in
    (bindThrusterChannels m).2 = (bindThrusterChannels (emptied m)).2
    ∧ (bindThrusterChannels once).2 = (bindThrusterChannels m).2
    ∧ (∀ k, once !! k = (λ l, l ++ added k) <$> m !! k)
    ∧ (∀ k, twice !! k = (λ l, l ++ added k) <$> once !! k)
    ∧ (∀ k l1 l2, once !! k = Some l1 → twice !! k = Some l2 →
         ∀ i, i ∈ l2 ↔ i ∈ l1).
Proof.
  intros scan config com m run added once twice.
  destruct (run_frame scan config com m) as [Hthr Honce].
  destruct (run_frame scan config com once) as [Hthr2 Htwice].
  assert (emptied once = emptied m) as Hsame by apply run_emptied.
  assert (∀ k, twice !! k = (λ l, l ++ added k) <$> once !! k) as Htw.
  { intros k. unfold twice, run. rewrite Htwice. unfold appended.
    by rewrite Hsame. }
  split_and!; try done.
  - unfold run. by rewrite Hthr2, Hsame, Hthr.
  - intros k l1 l2 H1 H2 i. rewrite Htw, H1 in H2. simplify_eq/=.
    pose proof (Honce k) as Hk. fold run once added in Hk. rewrite H1 in Hk.
    destruct (m !! k) as [l|]; simplify_eq/=. rewrite !elem_of_app. tauto.
Qed.

Lemma forwardThruster_run (StringToNumber : string → JS.number) (m : KeyMap) :
  (processThrusterConfig StringToNumber [forwardThruster] Vec3.zero m).1
  = (pushAll ["w"; "l"] 0 m).1.
Proof.
  unfold processThrusterConfig, processFrom, processThruster.
  cbn [forwardThruster ThrusterCfg.autoBind ThrusterCfg.position
       ThrusterCfg.direction JS.notFalse].
  rewrite forwardThruster_keys. unfold mbind, Bind_bind.
  by destruct (pushAll _ _ _) as [m' [[]|]].
Qed.

(** C9, as stated, fails: one auto-bound thruster pointing along +Z,
    bound twice against the key map the simulation creates.  After the
    first invocation channel w holds [0], after the second [0; 0]. *)
Lemma rebinding_changes_the_assignment :
  let bindThrusterChannels :=
    processThrusterConfig (λ _, JS.NaN) [forwardThruster] Vec3.zero in
  let once := (bindThrusterChannels emptyKeyMap).1 in
  let twice := (bindThrusterChannels once).1 in
  once !! "w" = Some [0%nat] ∧ twice !! "w" = Some [0%nat; 0%nat]
  ∧ twice ≠ once.
Proof.
  intros run once twice.
  assert (once !! "w" = Some [0%nat]) as H1.
  { unfold once, run. rewrite forwardThruster_run. by vm_compute. }
  assert (twice !! "w" = Some [0%nat; 0%nat]) as H2.
  { unfold twice, once, run. rewrite !forwardThruster_run. by vm_compute. }
  split_and!; [done..|]. intros Heq. rewrite Heq, H1 in H2. done.
Qed.
End BindingDeterminism.

(** ** Defaults behind [??] in actuator loading *)

Module ConfigDefaults.
Import ActuatorConfig ConfigNotions.
Local Open Scope R_scope.


(** CANNON's [unit] of a vector with a NaN component is (1,0,0). *)
Lemma nunit_NaN (a : JS.nvec) :
  JS.nx a = JS.NaN ∨ JS.ny a = JS.NaN ∨ JS.nz a = JS.NaN →
  JS.nunit a = JS.mkn (JS.Fin 1) (JS.Fin 0) (JS.Fin 0).
Proof.
  destruct a as [[|x] [|y] [|z]]; simpl; intros [H|[H|H]]; try done.
Qed.

Section WithScanner.
Variable StringToNumber : string → JS.number.

Local Abbreviation parseFloat := (JS.parseFloat StringToNumber).

End WithScanner.

End ConfigDefaults.

(** ** Docking state machine *)

Module DockingFacts.
Import Docking DockingNotions.
Local Open Scope R_scope.

(** Case analysis on the docking status a frame computes. *)
Ltac status_cases :=
  unfold dockingLogic;
  cbn [satBody isDocked paused canDock hasLeftDockingBoxOnce undockTime
       pausedStartTime accumulatedPausedTime lastDockedTime];
  match goal with
  | |- context [isInDockingZone ?u ?b] =>
      let d := fresh "d" in
      set (d := isInDockingZone u b); clearbody d;
      destruct d as [[] [] [] [] ? ? ? ?]
  end;
  cbn [inBox inAngle withinSpeedLimits withinAngularSpeedLimit negb andb orb
       satBody isDocked paused canDock hasLeftDockingBoxOnce].

Section WithSetup.
Variable setup : Setup.

Local Abbreviation status := (isInDockingZone setup).

Lemma animate_observed now b s :
  animate setup now b s
  = dockingLogic setup now
      (mkSim (observed s b) (isDocked s) (paused s) (canDock s)
             (hasLeftDockingBoxOnce s) (undockTime s) (pausedStartTime s)
             (accumulatedPausedTime s) (lastDockedTime s)).
Proof. unfold animate, observed. by destruct s as [? ? [] ? ? ? ? ? ?]. Qed.

(** The latch after each kind of event. *)
Lemma latch_after s e :
  hasLeftDockingBoxOnce (step setup s e)
  = match e with
    | KeyPause _ => hasLeftDockingBoxOnce s || (isDocked s && paused s)
    | KeyReset => false
    | KeySpace | KeyOther => hasLeftDockingBoxOnce s
    | Frame _ b => hasLeftDockingBoxOnce s || negb (inBox (status (observed s b)))
    end.
Proof.
  destruct e as [now| | | |now b]; cbn [step]; try done.
  - unfold togglePause.
    destruct s as [? [] [] ? [] ? [?|] ? ?]; reflexivity.
  - rewrite animate_observed.
    destruct (isDocked s), (canDock s), (hasLeftDockingBoxOnce s);
      status_cases; reflexivity.
Qed.

(** Docking happens in a frame, under the full condition, and stops
    the vehicle. *)
Lemma frame_docks now b s :
  isDocked s = false →
  isDocked (animate setup now b s)
  = canDock s
    && (hasLeftDockingBoxOnce s || negb (inBox (status (observed s b))))
    && allCriteria (status (observed s b)).
Proof.
  intros Hd. rewrite animate_observed, Hd. unfold allCriteria.
  destruct (canDock s), (hasLeftDockingBoxOnce s);
    status_cases; reflexivity.
Qed.

Lemma frame_docked_state now b s :
  isDocked s = false →
  isDocked (animate setup now b s) = true →
  paused (animate setup now b s) = true
  ∧ Body.velocity (satBody (animate setup now b s)) = Vec3.zero
  ∧ Body.angularVelocity (satBody (animate setup now b s)) = Vec3.zero.
Proof.
  intros Hd. rewrite animate_observed, Hd.
  destruct (canDock s), (hasLeftDockingBoxOnce s);
    status_cases; done.
Qed.

Lemma frame_canDock now b s :
  canDock (animate setup now b s)
  = canDock s || negb (inBox (status (observed s b))).
Proof.
  rewrite animate_observed.
  destruct (isDocked s), (canDock s), (hasLeftDockingBoxOnce s);
    status_cases; reflexivity.
Qed.

Lemma togglePause_undocked now s :
  isDocked s = false →
  isDocked (togglePause now s) = false
  ∧ canDock (togglePause now s) = canDock s
  ∧ paused (togglePause now s) = negb (paused s)
  ∧ satBody (togglePause now s) = satBody s.
Proof.
  intros Hd. unfold togglePause.
  destruct s as [? [] [] ? ? ? [?|] ? ?]; simplify_eq/=; done.
Qed.

Lemma step_canDock_kept s e :
  e ≠ KeyReset → isDocked s = false → canDock s = true →
  canDock (step setup s e) = true.
Proof.
  intros He Hd Hc. destruct e as [now| | | |now b]; cbn [step]; try done.
  - destruct (togglePause_undocked now s Hd) as (_ & -> & _). done.
  - rewrite frame_canDock, Hc. done.
Qed.

Lemma undockedRun_canDock es : ∀ s,
  isDocked s = false → canDock s = true → undockedRun setup s es →
  isDocked (run setup es s) = false ∧ canDock (run setup es s) = true.
Proof.
  induction es as [|e es IH]; intros s Hd Hc Hrun; [done|].
  destruct Hrun as (He & Hd' & Hrun). simpl. apply IH; try done.
  by apply step_canDock_kept.
Qed.

Lemma undockedRun_latch es : ∀ s,
  hasLeftDockingBoxOnce s = true → undockedRun setup s es →
  hasLeftDockingBoxOnce (run setup es s) = true.
Proof.
  induction es as [|e es IH]; intros s Hl Hrun; [done|].
  destruct Hrun as (He & _ & Hrun). simpl. apply IH; [|done].
  rewrite latch_after, Hl. by destruct e.
Qed.

Lemma undockedRun_undocked es : ∀ s,
  isDocked s = false → undockedRun setup s es → isDocked (run setup es s) = false.
Proof.
  induction es as [|e es IH]; intros s Hd Hrun; [done|].
  destruct Hrun as (He & Hd' & Hrun). simpl. by apply IH.
Qed.

Lemma staysInBox_undocked es : ∀ s,
  isDocked s = false → canDock s = false → staysInBox setup s es →
  isDocked (run setup es s) = false ∧ canDock (run setup es s) = false.
Proof.
  induction es as [|e es IH]; intros s Hd Hc Hin; [done|].
  destruct Hin as [He Hin]. simpl. apply IH; try done.
  - destruct e as [now| | | |now b]; cbn [step]; try done.
    + by destruct (togglePause_undocked now s Hd) as (-> & _).
    + rewrite frame_docks, Hc by done. done.
  - destruct e as [now| | | |now b]; cbn [step]; try done.
    + destruct (togglePause_undocked now s Hd) as (_ & -> & _). done.
    + rewrite frame_canDock, Hc, He. done.
Qed.

(** What a frame does to an undocked vehicle, case by case. *)
Lemma frame_outside now b s :
  isDocked s = false →
  inBox (status (observed s b)) = false →
  animate setup now b s
  = mkSim (observed s b) false (paused s) true true (undockTime s)
          (pausedStartTime s) (accumulatedPausedTime s) (lastDockedTime s).
Proof.
  intros Hd. rewrite animate_observed, Hd.
  destruct (canDock s), (hasLeftDockingBoxOnce s);
    status_cases; intros; simplify_eq; reflexivity.
Qed.

Lemma frame_waiting now b s :
  isDocked s = false →
  inBox (status (observed s b)) = true →
  allCriteria (status (observed s b)) = false →
  animate setup now b s
  = mkSim (observed s b) false (paused s) (canDock s)
          (hasLeftDockingBoxOnce s) (undockTime s) (pausedStartTime s)
          (accumulatedPausedTime s) (lastDockedTime s).
Proof.
  intros Hd. rewrite animate_observed, Hd. unfold allCriteria.
  destruct (canDock s), (hasLeftDockingBoxOnce s);
    status_cases; intros; simplify_eq; reflexivity.
Qed.

Lemma frame_docking now b s :
  isDocked s = false → canDock s = true →
  hasLeftDockingBoxOnce s = true →
  allCriteria (status (observed s b)) = true →
  animate setup now b s
  = mkSim (Body.stop (observed s b)) true true true true (undockTime s)
          (pausedStartTime s) (accumulatedPausedTime s)
          (default now (pausedStartTime s) - timeOf (undockTime s)
           - accumulatedPausedTime s).
Proof.
  intros Hd Hc Hl. rewrite animate_observed, Hd, Hc, Hl. unfold allCriteria.
  status_cases; intros; simplify_eq.
  by destruct (pausedStartTime s).
Qed.

Lemma undock_state now :
  let s := togglePause now (initialSim setup) in
  isDocked s = false ∧ canDock s = false ∧ paused s = false
  ∧ hasLeftDockingBoxOnce s = true ∧ undockTime s = Some now
  ∧ pausedStartTime s = None ∧ accumulatedPausedTime s = 0.
Proof. simpl. done. Qed.
End WithSetup.
End DockingFacts.

(** ** Sample poses against the default docking reference *)

Module SamplePoses.
Import Docking DockingNotions DockingFacts.
Local Open Scope R_scope.

Lemma angle_to_itself : Quaternion.angleTo referenceOrientation referenceOrientation = 0.
Proof.
  unfold Quaternion.angleTo, Quaternion.dot, referenceOrientation. simpl.
  set (a := - PI / 2 / 2).
  assert ((1 * sin a) * (1 * sin a) + (0 * sin a) * (0 * sin a)
          + (0 * sin a) * (0 * sin a) + cos a * cos a = 1) as ->.
  { pose proof (sin2_cos2 a) as H. unfold Rsqr in H. lra. }
  assert (Quaternion.clamp 1 (-1) 1 = 1) as ->.
  { unfold Quaternion.clamp, Rmax, Rmin.
    repeat destruct (Rle_dec _ _); lra. }
  rewrite Rabs_R1, acos_1. ring.
Qed.

Lemma sqrt_two_squares_0 : sqrt (0 ^ 2 + 0 ^ 2) = 0.
Proof. replace (0 ^ 2 + 0 ^ 2) with 0 by ring. apply sqrt_0. Qed.

(** With the reference orientation and no rotation rate, the angle and
    angular-rate criteria hold. *)
Lemma aligned_and_still p v :
  let d := isInDockingZone defaultSetup
             (Body.mk p referenceOrientation v Vec3.zero) in
  inAngle d = true ∧ withinAngularSpeedLimit d = true.
Proof.
  pose proof PI_RGT_0 as Hpi.
  unfold isInDockingZone. cbn [inAngle withinAngularSpeedLimit Body.quaternion
    Body.angularVelocity]. fold referenceOrientation.
  rewrite angle_to_itself, Vec3Facts.length_zero. split; apply bool_decide_eq_true_2.
  - rewrite Rmult_0_l. simpl. lra.
  - rewrite Rmult_0_l. unfold MAX_ANGULAR_SPEED. lra.
Qed.

Lemma status_reference :
  allCriteria (isInDockingZone defaultSetup (initialBody defaultSetup)) = true.
Proof.
  destruct (aligned_and_still (initialPosition defaultSetup) Vec3.zero)
    as [Ha Hw].
  unfold allCriteria.
  change (Body.mk (initialPosition defaultSetup) referenceOrientation
                  Vec3.zero Vec3.zero)
    with (initialBody defaultSetup) in Ha, Hw.
  rewrite Ha, Hw.
  unfold isInDockingZone. cbn [inBox withinSpeedLimits].
  cbn [initialBody Body.position Body.velocity Vec3.vsub Vec3.x Vec3.y Vec3.z
       Vec3.zero defaultSetup initialPosition DOCKING_BOX_SIZE].
  rewrite sqrt_two_squares_0.
  replace (0 - 0) with 0 by ring. replace (-3 - -3) with 0 by ring.
  replace (5.5 - 5.5) with 0 by ring. rewrite Rabs_R0.
  unfold MAX_XZ_SPEED, MAX_Z_SPEED.
  rewrite !bool_decide_eq_true_2 by lra. done.
Qed.

Lemma status_outside :
  inBox (isInDockingZone defaultSetup outsideBody) = false.
Proof.
  unfold isInDockingZone. cbn [inBox].
  cbn [outsideBody Body.position Vec3.vsub Vec3.x Vec3.y Vec3.z
       defaultSetup initialPosition DOCKING_BOX_SIZE].
  replace (1 - 0) with 1 by ring. rewrite Rabs_R1.
  rewrite (bool_decide_eq_false_2 (1 <= 0.1)) by lra. done.
Qed.

Lemma status_fast :
  inBox (isInDockingZone defaultSetup fastBody) = true
  ∧ allCriteria (isInDockingZone defaultSetup fastBody) = false.
Proof.
  assert (inBox (isInDockingZone defaultSetup fastBody) = true) as Hin.
  { unfold isInDockingZone. cbn [inBox].
    cbn [fastBody Body.position Vec3.vsub Vec3.x Vec3.y Vec3.z
         defaultSetup initialPosition DOCKING_BOX_SIZE].
    replace (0 - 0) with 0 by ring. replace (-3 - -3) with 0 by ring.
    replace (5.5 - 5.5) with 0 by ring. rewrite Rabs_R0.
    rewrite !bool_decide_eq_true_2 by lra. done. }
  split; [done|]. unfold allCriteria. rewrite Hin.
  assert (withinSpeedLimits (isInDockingZone defaultSetup fastBody) = false)
    as ->; [|by rewrite !andb_false_r].
  unfold isInDockingZone. cbn [withinSpeedLimits].
  cbn [fastBody Body.velocity Vec3.x Vec3.z].
  replace (0.2 ^ 2 + 0 ^ 2) with (Rsqr 0.2) by (unfold Rsqr; simpl; lra).
  rewrite sqrt_Rsqr by lra.
  unfold MAX_XZ_SPEED. rewrite (bool_decide_eq_false_2 (0.2 <= 0.1)) by lra.
  done.
Qed.

Lemma stop_fastBody : Body.stop fastBody = initialBody defaultSetup.
Proof. reflexivity. Qed.
End SamplePoses.

Module DockingRoundTrip.
Import Docking DockingNotions DockingFacts SamplePoses.
Local Open Scope R_scope.

(** C5.  From a docked and paused state, undock.  If the vehicle
    then stays undocked until a frame finds it outside the box, and
    stays undocked until a frame finds it within the box, angle, speed
    and angular-speed thresholds, that frame docks it, pauses the
    simulation and zeroes its linear and angular velocity.  And after
    undocking, as long as every frame finds the vehicle inside the box,
    no frame docks it, whatever the other criteria are. *)
Theorem docking_needs_leaving_the_box_and_returning :
  ∀ (setup : Setup) (s0 : Sim) (t0 : R),
    isDocked s0 = true → paused s0 = true →
    let s1 := step setup s0 (KeyPause t0) in
    isDocked s1 = false
    ∧ (∀ es1 tOut bOut es2 tIn bIn,
         undockedRun setup s1 es1 →
         let a := run setup es1 s1 in
         inBox (isInDockingZone setup (observed a bOut)) = false →
         let sOut := step setup a (Frame tOut bOut) in
         undockedRun setup sOut es2 →
         let b := run setup es2 sOut in
         allCriteria (isInDockingZone setup (observed b bIn)) = true →
         let sIn := step setup b (Frame tIn bIn) in
         isDocked sIn = true ∧ paused sIn = true
         ∧ Body.velocity (satBody sIn) = Vec3.zero
         ∧ Body.angularVelocity (satBody sIn) = Vec3.zero)
    ∧ (∀ es, staysInBox setup s1 es → isDocked (run setup es s1) = false).
Proof.
  intros setup s0 t0 Hd Hp s1.
  assert (isDocked s1 = false ∧ canDock s1 = false) as [Hd1 Hc1].
  { unfold s1. cbn [step]. unfold togglePause. rewrite Hd, Hp.
    by destruct (pausedStartTime s0). }
  split; [done|]. split.
  - intros es1 tOut bOut es2 tIn bIn Hrun1 a Hout sOut Hrun2 b Hin sIn.
    assert (isDocked a = false) as Hda by by apply undockedRun_undocked.
    assert (isDocked sOut = false ∧ canDock sOut = true
            ∧ hasLeftDockingBoxOnce sOut = true) as (HdO & HcO & HlO).
    { unfold sOut. cbn [step]. by rewrite frame_outside. }
    destruct (undockedRun_canDock setup es2 sOut HdO HcO Hrun2) as [Hdb Hcb].
    pose proof (undockedRun_latch setup es2 sOut HlO Hrun2) as Hlb.
    fold b in Hdb, Hcb, Hlb.
    assert (isDocked sIn = true) as HdI.
    { unfold sIn. cbn [step]. by rewrite frame_docks, Hcb, Hlb, Hin. }
    split; [done|]. unfold sIn in *. cbn [step] in *.
    by apply frame_docked_state.
  - intros es Hin. by apply (staysInBox_undocked setup es s1).
Qed.

Lemma docking_needs_leaving_the_box_and_returning_witness :
  let s1 := step defaultSetup (initialSim defaultSetup) (KeyPause 1000) in
  isDocked s1 = false
  ∧ (let sOut := step defaultSetup s1 (Frame 2000 outsideBody) in
     let sIn := step defaultSetup sOut (Frame 3000 (initialBody defaultSetup)) in
     isDocked sIn = true ∧ paused sIn = true
     ∧ Body.velocity (satBody sIn) = Vec3.zero
     ∧ Body.angularVelocity (satBody sIn) = Vec3.zero)
  ∧ isDocked
      (run defaultSetup [Frame 2000 (initialBody defaultSetup)] s1) = false.
Proof.
  destruct (docking_needs_leaving_the_box_and_returning
              defaultSetup (initialSim defaultSetup) 1000 eq_refl eq_refl)
    as (H1 & H2 & H3).
  split; [exact H1|]. split.
  - apply (H2 [] 2000 outsideBody [] 3000 (initialBody defaultSetup)).
    + exact I.
    + exact status_outside.
    + exact I.
    + cbn [run foldl step].
      rewrite frame_outside;
        [exact status_reference|reflexivity|exact status_outside].
  - apply (H3 [Frame 2000 (initialBody defaultSetup)]).
    split; [|exact I].
    destruct (initialBody defaultSetup) eqn:E; rewrite <- E; clear E.
    cbv beta iota. pose proof status_reference as H.
    unfold allCriteria in H.
    change (observed
              (step defaultSetup (initialSim defaultSetup) (KeyPause 1000))
              (initialBody defaultSetup))
      with (initialBody defaultSetup).
    by destruct (inBox _).
Defined.
End DockingRoundTrip.

Module DockingLatch.
Import Docking DockingNotions DockingFacts.
Local Open Scope R_scope.

Lemma frame_docked_after setup now b s :
  isDocked (animate setup now b s)
  = isDocked s
    || canDock s
       && (hasLeftDockingBoxOnce s
           || negb (inBox (isInDockingZone setup (observed s b))))
       && allCriteria (isInDockingZone setup (observed s b)).
Proof.
  rewrite animate_observed. unfold allCriteria.
  destruct (isDocked s), (canDock s), (hasLeftDockingBoxOnce s);
    status_cases; reflexivity.
Qed.

Lemma togglePause_canDock now s :
  canDock (togglePause now s) = canDock s && negb (isDocked s && paused s).
Proof.
  unfold togglePause.
  destruct s as [? [] [] [] ? ? [?|] ? ?]; reflexivity.
Qed.

(** C4, as amended.  The latch hasLeftDockingBoxOnce is set by every
    frame whose inBox criterion is false and by the DOCKED to UNDOCKED
    transition (the pause key pressed while docked and paused); it is
    cleared only by a full reset; no other event changes it.  A frame
    docks only with the latch set, and what makes docking wait for the
    vehicle to leave the box after an undock is canDock, which the
    undock transition and the reset clear and a frame with inBox false
    sets. *)
Theorem latch_set_by_leaving_and_by_undocking :
  ∀ (setup : Setup) (s : Sim) (e : Event),
    hasLeftDockingBoxOnce (step setup s e)
    = match e with
      | KeyPause _ => hasLeftDockingBoxOnce s || (isDocked s && paused s)
      | KeyReset => false
      | KeySpace | KeyOther => hasLeftDockingBoxOnce s
      | Frame _ b =>
          hasLeftDockingBoxOnce s
          || negb (inBox (isInDockingZone setup (observed s b)))
      end
    ∧ canDock (step setup s e)
      = match e with
        | KeyPause _ => canDock s && negb (isDocked s && paused s)
        | KeyReset => false
        | KeySpace | KeyOther => canDock s
        | Frame _ b =>
            canDock s || negb (inBox (isInDockingZone setup (observed s b)))
        end
    ∧ isDocked (step setup s e)
      = match e with
        | KeyPause _ => isDocked s && negb (paused s)
        | KeyReset => true
        | KeySpace | KeyOther => isDocked s
        | Frame _ b =>
            isDocked s
            || canDock s
               && (hasLeftDockingBoxOnce s
                   || negb (inBox (isInDockingZone setup (observed s b))))
               && allCriteria (isInDockingZone setup (observed s b))
        end.
Proof.
  intros setup s e. split; [apply latch_after|].
  destruct e as [now| | | |now b]; cbn [step]; try done.
  - split; [apply togglePause_canDock|].
    unfold togglePause. destruct s as [? [] [] ? ? ? [?|] ? ?]; reflexivity.
  - split; [apply frame_canDock|apply frame_docked_after].
Qed.

(** C4, as stated, fails: pressing the pause key in the initial docked
    and paused state undocks, and the latch, clear before, is set after,
    though no frame has seen the vehicle outside the box. *)
Lemma undocking_sets_the_latch :
  let s := initialSim defaultSetup in
  let s' := step defaultSetup s (KeyPause 1000) in
  isDocked s = true ∧ paused s = true ∧ hasLeftDockingBoxOnce s = false
  ∧ isDocked s' = false ∧ hasLeftDockingBoxOnce s' = true.
Proof. repeat split. Qed.
End DockingLatch.

Module UndockClock.
Import Docking DockingNotions DockingFacts SamplePoses.
Local Open Scope R_scope.

(** The pause key, field by field. *)
Lemma togglePause_fields (now : R) (s : Sim) :
  togglePause now s
  = let undocking := isDocked s && paused s in
    let accumulated := if undocking then 0 else accumulatedPausedTime s in
    mkSim (satBody s)
          (isDocked s && negb (paused s))
          (negb (paused s))
          (canDock s && negb undocking)
          (hasLeftDockingBoxOnce s || undocking)
          (if undocking then Some now else undockTime s)
          (if paused s then None else Some now)
          (if paused s then
             match pausedStartTime s with
             | Some started => accumulated + (now - started)
             | None => accumulated
             end
           else accumulated)
          (lastDockedTime s).
Proof.
  destruct s as [b [] [] [] [] u [ps|] acc l]; reflexivity.
Qed.

Ltac sim_fields :=
  cbn [satBody isDocked paused canDock hasLeftDockingBoxOnce undockTime
       pausedStartTime accumulatedPausedTime lastDockedTime andb orb negb].

(** While paused, the clock shows what it showed when the pause began. *)
Lemma pause_freezes_clock (s : Sim) (t now : R) :
  isDocked s = false → paused s = false →
  updateClock now (togglePause t s) = updateClock t s.
Proof.
  intros Hd Hp. rewrite togglePause_fields. unfold updateClock.
  cbv zeta. sim_fields. rewrite Hd, Hp. sim_fields.
  destruct (undockTime s); [|reflexivity].
  destruct (pausedStartTime s); reflexivity.
Qed.

(** A pause from [t1] to [t2] takes [t2 - t1] off every later reading. *)
Lemma resume_discounts_pause (s : Sim) (t1 t2 now : R) :
  isDocked s = false → paused s = false → is_Some (undockTime s) →
  updateClock now (togglePause t2 (togglePause t1 s))
  = updateClock now s - (t2 - t1).
Proof.
  intros Hd Hp [u Hu]. rewrite !togglePause_fields. unfold updateClock.
  cbv zeta. sim_fields. rewrite Hd, Hp. sim_fields. rewrite Hu.
  destruct (pausedStartTime s); lra.
Qed.

(** C6 (the code departs from the claim).  In the session
    [pausedDockingSession] the vehicle docks while paused, so
    pausedStartTime (120010) survives the docking; the second undock at
    180000 resets accumulatedPausedTime to 0 and then adds
    180000 - 120010 to it.  From then on, with the simulation running and
    no pause since the undock, the clock shows wall time since undock
    minus 59990 ms: -59990 at the undock itself. *)
Theorem stale_pause_is_charged_to_the_next_flight :
  let s := run defaultSetup pausedDockingSession (initialSim defaultSetup) in
  isDocked s = false ∧ paused s = false
  ∧ undockTime s = Some 180000
  ∧ pausedStartTime s = None
  ∧ accumulatedPausedTime s = 59990
  ∧ (∀ now, updateClock now s = now - 180000 - 59990)
  ∧ updateClock 180000 s = -59990.
Proof.
  destruct status_fast as [HfastIn HfastAll].
  assert (run defaultSetup pausedDockingSession (initialSim defaultSetup)
          = mkSim (initialBody defaultSetup) false false false true
                  (Some 180000) None (0 + (180000 - 120010))
                  (120010 - 1000 - 0))
    as ->.
  { unfold pausedDockingSession, run. cbn [foldl step].
    rewrite (togglePause_fields 1000). unfold initialSim.
    cbv zeta. sim_fields.
    rewrite (frame_outside defaultSetup 60000 outsideBody);
      [|reflexivity|exact status_outside].
    unfold observed at 1. sim_fields.
    rewrite (frame_waiting defaultSetup 120000 fastBody);
      [|reflexivity|exact HfastIn|exact HfastAll].
    unfold observed at 1. sim_fields.
    rewrite (togglePause_fields 120010). cbv zeta. sim_fields.
    unfold stopEverything. sim_fields. rewrite stop_fastBody.
    rewrite (frame_docking defaultSetup 120016 fastBody);
      [|reflexivity|reflexivity|reflexivity|exact status_reference].
    unfold observed at 1. sim_fields.
    rewrite (togglePause_fields 180000). cbv zeta. sim_fields.
    cbn [default timeOf from_option]. reflexivity. }
  sim_fields. unfold updateClock. sim_fields.
  split_and!; try lra; try reflexivity. intros now. lra.
Qed.
End UndockClock.

(** ** Vector algebra used by the actuator laws *)

Module VectorFacts.
Local Open Scope R_scope.

Lemma vadd_zero_l v : Vec3.vadd Vec3.zero v = v.
Proof. apply Vec3Facts.vec3_eq; simpl; ring. Qed.

Lemma vadd_zero_r v : Vec3.vadd v Vec3.zero = v.
Proof. apply Vec3Facts.vec3_eq; simpl; ring. Qed.

Lemma vadd_assoc a b c :
  Vec3.vadd (Vec3.vadd a b) c = Vec3.vadd a (Vec3.vadd b c).
Proof. apply Vec3Facts.vec3_eq; simpl; ring. Qed.

Lemma squares_nonneg (a b c : R) : 0 <= a * a + b * b + c * c.
Proof. nra. Qed.

Lemma length_nonneg v : 0 <= Vec3.length v.
Proof. apply sqrt_pos. Qed.

Lemma length_scale k v :
  Vec3.length (Vec3.scale k v) = Rabs k * Vec3.length v.
Proof.
  unfold Vec3.length, Vec3.scale. cbn [Vec3.x Vec3.y Vec3.z].
  replace (k * Vec3.x v * (k * Vec3.x v) + k * Vec3.y v * (k * Vec3.y v)
           + k * Vec3.z v * (k * Vec3.z v))
    with (Rsqr k * (Vec3.x v * Vec3.x v + Vec3.y v * Vec3.y v
                    + Vec3.z v * Vec3.z v))
    by (unfold Rsqr; ring).
  rewrite sqrt_mult; [|apply Rle_0_sqr|apply squares_nonneg].
  by rewrite sqrt_Rsqr_abs.
Qed.

Lemma length_unit v : Vec3.length (Vec3.unit v) = 1.
Proof.
  unfold Vec3.unit. case_decide as Hpos.
  - unfold Vec3.length in *. cbn [Vec3.x Vec3.y Vec3.z].
    set (S := Vec3.x v * Vec3.x v + Vec3.y v * Vec3.y v
              + Vec3.z v * Vec3.z v) in *.
    assert (sqrt S * sqrt S = S) as HS.
    { apply sqrt_sqrt, squares_nonneg. }
    set (L := sqrt S) in *. clearbody L.
    replace (Vec3.x v * (1 / L) * (Vec3.x v * (1 / L))
             + Vec3.y v * (1 / L) * (Vec3.y v * (1 / L))
             + Vec3.z v * (1 / L) * (Vec3.z v * (1 / L)))
      with (S / (L * L)) by (unfold S; field; lra).
    rewrite HS. replace (S / S) with 1 by (field; nra).
    apply sqrt_1.
  - rewrite Vec3Facts.length_x. apply Rabs_R1.
Qed.

(** A positive multiple of a unit vector normalises to that vector. *)
Lemma unit_scale h v :
  h > 0 → Vec3.length v = 1 → Vec3.unit (Vec3.scale h v) = v.
Proof.
  intros Hh Hv. unfold Vec3.unit. rewrite length_scale, Hv, Rabs_right by lra.
  rewrite Rmult_1_r. rewrite decide_True by lra.
  apply Vec3Facts.vec3_eq; cbn [Vec3.x Vec3.y Vec3.z Vec3.scale]; field; lra.
Qed.
End VectorFacts.

(** ** Control modes *)

Module ControllerModes.
Import AttitudeControl ExchangeNotions.

Lemma runOp_unloaded s o :
  loaded s = false → mode s = mode_thrusters →
  loaded (runOp s o) = false ∧ mode (runOp s o) = mode_thrusters
  ∧ satBody (runOp s o) = satBody s.
Proof.
  intros Hl Hm.
  destruct o; cbn [runOp]; unfold toggleMode, applyControlTorque,
    desaturateWithThrusters, resetActuators; rewrite ?Hl, ?Hm; done.
Qed.

Lemma run_unloaded ops : ∀ s,
  loaded s = false → mode s = mode_thrusters →
  mode (run ops s) = mode_thrusters
  ∧ loaded (run ops s) = false
  ∧ satBody (run ops s) = satBody s.
Proof.
  induction ops as [|o ops IH]; intros s Hl Hm; [done|].
  destruct (runOp_unloaded s o Hl Hm) as (Hl' & Hm' & Hb).
  cbn [run foldl]. destruct (IH (runOp s o) Hl' Hm') as (H1 & H2 & H3).
  unfold run in *. by rewrite H1, H2, H3, Hb.
Qed.

(** X2.  The mode key cycles a loaded controller.  From thrusters mode
    the first toggle always gives reaction-wheel mode, also when no wheel
    is configured; with at least one CMG the cycle is thrusters,
    reaction wheels, CMGs, thrusters, without CMGs it is thrusters,
    reaction wheels, thrusters.  A toggle returns the mode it sets and
    changes nothing but the mode. *)
Theorem toggle_cycles_through_the_available_modes :
  ∀ s : System,
    loaded s = true → mode s = mode_thrusters →
    let s1 := (toggleMode s).1 in
    let s2 := (toggleMode s1).1 in
    let s3 := (toggleMode s2).1 in
    s1 = set_mode mode_reactionwheels s
    ∧ (toggleMode s).2 = mode_reactionwheels
    ∧ (cmgs s = [] → s2 = s ∧ (toggleMode s1).2 = mode_thrusters)
    ∧ (cmgs s ≠ [] →
       s2 = set_mode mode_cmgs s ∧ (toggleMode s1).2 = mode_cmgs
       ∧ s3 = s ∧ (toggleMode s2).2 = mode_thrusters).
Proof.
  intros s Hl Hm s1 s2 s3.
  assert (s1 = set_mode mode_reactionwheels s) as H1.
  { unfold s1, toggleMode. by rewrite Hl, Hm. }
  split; [done|]. split; [unfold toggleMode; by rewrite Hl, Hm|].
  split.
  - intros Hc. unfold s2. rewrite H1. unfold toggleMode.
    cbn [set_mode loaded mode cmgs fst snd]. rewrite Hl, Hc.
    cbn [length]. rewrite decide_False by lia.
    cbn [set_mode loaded mode cmgs fst snd reactionWheels desaturationActive
         satBody].
    split; [|done]. destruct s; simpl in *; by subst.
  - intros Hc.
    assert (0 < length (cmgs s))%nat as Hlen.
    { destruct (cmgs s); [done|simpl; lia]. }
    assert (s2 = set_mode mode_cmgs s) as H2.
    { unfold s2. rewrite H1. unfold toggleMode.
      cbn [set_mode loaded mode cmgs fst snd]. rewrite Hl.
      by rewrite decide_True by done. }
    split; [done|]. split.
    { rewrite H1. unfold toggleMode.
      cbn [set_mode loaded mode cmgs fst snd]. rewrite Hl.
      by rewrite decide_True by done. }
    unfold s3. rewrite H2. unfold toggleMode.
    cbn [set_mode loaded mode cmgs fst snd reactionWheels desaturationActive
         satBody]. rewrite Hl. cbn [fst snd mode].
    split; [|done]. destruct s; simpl in *; by subst.
Qed.

Lemma toggle_cycles_through_the_available_modes_witness :
  let s := ActuatorNotions.cmgSystem in
  let s0 := set_mode mode_thrusters s in
  let s1 := (toggleMode s0).1 in
  let s2 := (toggleMode s1).1 in
  let s3 := (toggleMode s2).1 in
  s1 = set_mode mode_reactionwheels s0
  ∧ (toggleMode s0).2 = mode_reactionwheels
  ∧ (cmgs s0 = [] → s2 = s0 ∧ (toggleMode s1).2 = mode_thrusters)
  ∧ (cmgs s0 ≠ [] →
     s2 = set_mode mode_cmgs s0 ∧ (toggleMode s1).2 = mode_cmgs
     ∧ s3 = s0 ∧ (toggleMode s2).2 = mode_thrusters).
Proof.
  apply (toggle_cycles_through_the_available_modes
           (set_mode mode_thrusters ActuatorNotions.cmgSystem));
    reflexivity.
Defined.

Lemma runOp_cmgs_empty s o : cmgs s = [] → cmgs (runOp s o) = [].
Proof.
  intros Hc. destruct o; cbn [runOp].
  - unfold toggleMode. destruct (loaded s); [|done].
    destruct (mode s); [done| |done]. by case_decide.
  - unfold applyControlTorque, applyReactionWheelControl, applyCMGControl.
    destruct (mode s); [done|done|]. cbn. by rewrite Hc.
  - unfold desaturateWithThrusters. destruct (mode s); [done|done|].
    cbn [cmgs set_desaturationActive send set_cmgs]. rewrite Hc.
    case_decide; [|done].
    generalize (Vec3.scale (-1) (Vec3.unit (totalCMGMomentum []))).
    intros d. induction thrusters as [|t ts IH] using rev_ind; [done|].
    rewrite foldl_app. cbn [foldl]. unfold cmgDesaturationFiring at 1.
    case_decide; [|done]. cbn [fst]. by rewrite IH.
  - cbn. by rewrite Hc.
Qed.

Lemma runOp_mode_cmgs s o :
  cmgs s = [] → mode s ≠ mode_cmgs → mode (runOp s o) ≠ mode_cmgs.
Proof.
  intros Hc Hm. destruct o; cbn [runOp].
  - unfold toggleMode. destruct (loaded s); [|exact Hm].
    revert Hm. rewrite Hc. cbn [length]. rewrite decide_False by lia.
    by destruct (mode s).
  - unfold applyControlTorque, applyReactionWheelControl, applyCMGControl.
    destruct (mode s) eqn:E; cbn [mode send set_reactionWheels set_cmgs];
      by rewrite ?E.
  - unfold desaturateWithThrusters.
    destruct (mode s) eqn:E;
      cbn [mode send set_reactionWheels set_cmgs set_desaturationActive];
      by rewrite ?E.
  - done.
Qed.

Lemma run_without_cmgs ops : ∀ s,
  cmgs s = [] → mode s ≠ mode_cmgs →
  mode (run ops s) ≠ mode_cmgs ∧ cmgs (run ops s) = [].
Proof.
  induction ops as [|o ops IH]; intros s Hc Hm; [done|].
  cbn [run foldl]. apply IH; [by apply runOp_cmgs_empty|].
  by apply runOp_mode_cmgs.
Qed.

(** X1.  A mode needs its actuators.  A controller for which nothing
    was loaded stays in thrusters mode whatever is asked of it - mode
    toggles, control torques, desaturations, resets - and never sends a
    torque or a force to the body; and a controller without CMGs that is
    not in CMG mode never enters it. *)
Theorem modes_need_their_actuators :
  ∀ (ops : list Op) (s : System),
    (loaded s = false → mode s = mode_thrusters →
     mode (run ops s) = mode_thrusters
     ∧ loaded (run ops s) = false
     ∧ satBody (run ops s) = satBody s)
    ∧ (cmgs s = [] → mode s ≠ mode_cmgs →
       mode (run ops s) ≠ mode_cmgs ∧ cmgs (run ops s) = []).
Proof.
  intros ops s. split; [apply run_unloaded|apply run_without_cmgs].
Qed.

Lemma modes_need_their_actuators_witness :
  let ops := [OpToggleMode; OpApplyControlTorque (Vec3.mk 1 0 0);
              OpDesaturate []; OpReset; OpToggleMode] in
  (mode (run ops fresh) = mode_thrusters
   ∧ loaded (run ops fresh) = false
   ∧ satBody (run ops fresh) = satBody fresh)
  ∧ (mode (run [OpToggleMode; OpToggleMode; OpToggleMode]
               ActuatorNotions.sampleSystem) ≠ mode_cmgs
     ∧ cmgs (run [OpToggleMode; OpToggleMode; OpToggleMode]
                 ActuatorNotions.sampleSystem) = []).
Proof.
  split.
  - apply (modes_need_their_actuators
             [OpToggleMode; OpApplyControlTorque (Vec3.mk 1 0 0);
              OpDesaturate []; OpReset; OpToggleMode] fresh);
      reflexivity.
  - apply (modes_need_their_actuators
             [OpToggleMode; OpToggleMode; OpToggleMode]
             ActuatorNotions.sampleSystem); [reflexivity|discriminate].
Defined.
End ControllerModes.

(** ** Momentum exchanged with the body *)

Module MomentumExchange.
Import AttitudeControl ExchangeNotions VectorFacts.
Local Open Scope R_scope.

Lemma foldl_wheel_momentum acc ws :
  foldl (λ totalMomentum wheel,
           Vec3.vadd totalMomentum
             (Vec3.scale (Wheel.currentAngularMomentum wheel)
                         (Wheel.orientation wheel))) acc ws
  = Vec3.vadd acc (totalWheelMomentum ws).
Proof.
  unfold totalWheelMomentum. revert acc.
  induction ws as [|w ws IH]; intros acc; cbn [foldl].
  - by rewrite vadd_zero_r.
  - rewrite IH, (IH (Vec3.vadd Vec3.zero _)), vadd_zero_l.
    by rewrite vadd_assoc.
Qed.

Lemma totalWheelMomentum_cons w ws :
  totalWheelMomentum (w :: ws)
  = Vec3.vadd (Vec3.scale (Wheel.currentAngularMomentum w)
                          (Wheel.orientation w))
              (totalWheelMomentum ws).
Proof.
  unfold totalWheelMomentum at 1. cbn [foldl].
  by rewrite foldl_wheel_momentum, vadd_zero_l.
Qed.

Lemma foldl_cmg_momentum acc cs :
  foldl (λ totalMomentum cmg,
           Vec3.vadd totalMomentum (CMG.currentAngularMomentum cmg)) acc cs
  = Vec3.vadd acc (totalCMGMomentum cs).
Proof.
  unfold totalCMGMomentum. revert acc.
  induction cs as [|c cs IH]; intros acc; cbn [foldl].
  - by rewrite vadd_zero_r.
  - rewrite IH, (IH (Vec3.vadd Vec3.zero _)), vadd_zero_l.
    by rewrite vadd_assoc.
Qed.

Lemma totalCMGMomentum_cons c cs :
  totalCMGMomentum (c :: cs)
  = Vec3.vadd (CMG.currentAngularMomentum c) (totalCMGMomentum cs).
Proof.
  unfold totalCMGMomentum at 1. cbn [foldl].
  by rewrite foldl_cmg_momentum, vadd_zero_l.
Qed.

Lemma wheels_exchange torque ws :
  Vec3.vadd
    (totalWheelMomentum ((wheelControl torque <$> ws).*1))
    (Vec3.scale dt (torqueSum ((wheelControl torque <$> ws).*2)))
  = totalWheelMomentum ws.
Proof.
  induction ws as [|w ws IH]; [apply Vec3Facts.vec3_eq; simpl; ring|].
  rewrite !fmap_cons. rewrite !totalWheelMomentum_cons.
  cbn [torqueSum foldr]. fold (torqueSum ((wheelControl torque <$> ws).*2)).
  rewrite <- IH.
  unfold wheelControl. cbn [fst snd torqueOf].
  generalize (actualTorqueApplied torque w) as a. intros a.
  apply Vec3Facts.vec3_eq;
    cbn [Vec3.x Vec3.y Vec3.z Vec3.vadd Vec3.scale
         Wheel.set_currentAngularMomentum Wheel.currentAngularMomentum
         Wheel.orientation]; ring.
Qed.

Lemma cmgs_exchange torque cs :
  Vec3.vadd
    (totalCMGMomentum ((cmgControl torque <$> cs).*1))
    (Vec3.scale dt (torqueSum ((cmgControl torque <$> cs).*2)))
  = totalCMGMomentum cs.
Proof.
  induction cs as [|c cs IH]; [apply Vec3Facts.vec3_eq; simpl; ring|].
  rewrite !fmap_cons. rewrite !totalCMGMomentum_cons.
  cbn [torqueSum foldr]. fold (torqueSum ((cmgControl torque <$> cs).*2)).
  rewrite <- IH.
  unfold cmgControl. cbn [fst snd torqueOf].
  generalize (cmgActualTorque torque c) as a. intros a.
  apply Vec3Facts.vec3_eq;
    cbn [Vec3.x Vec3.y Vec3.z Vec3.vadd Vec3.scale
         CMG.set_currentAngularMomentum CMG.currentAngularMomentum]; ring.
Qed.

(** X3.  Angular momentum is exchanged, not created: whatever the mode
    and the request, the momentum the wheels and CMGs hold after
    [applyControlTorque], plus [dt] times the sum of the torques the call
    sends to the body, equals the momentum they held before.  The call
    sends one torque per wheel in reaction-wheel mode, one per CMG in CMG
    mode and nothing in thrusters mode. *)
Theorem control_torque_exchanges_momentum :
  ∀ (torque : Vec3.t) (s : System),
    ∃ sent : list BodyInput,
      satBody (applyControlTorque torque s) = satBody s ++ sent
      ∧ Vec3.vadd (storedMomentum (applyControlTorque torque s))
                  (Vec3.scale dt (torqueSum sent))
        = storedMomentum s
      ∧ length sent
        = match mode s with
          | mode_thrusters => 0%nat
          | mode_reactionwheels => length (reactionWheels s)
          | mode_cmgs => length (cmgs s)
          end.
Proof.
  intros torque s. unfold applyControlTorque, storedMomentum.
  destruct (mode s).
  - exists []. rewrite app_nil_r. split; [done|]. split; [|done].
    apply Vec3Facts.vec3_eq; simpl; ring.
  - exists ((wheelControl torque <$> reactionWheels s).*2).
    unfold applyReactionWheelControl.
    cbn [satBody send set_reactionWheels reactionWheels cmgs].
    split; [done|]. split; [|by rewrite !length_fmap].
    rewrite <- (wheels_exchange torque (reactionWheels s)).
    apply Vec3Facts.vec3_eq; cbn [Vec3.x Vec3.y Vec3.z Vec3.vadd]; ring.
  - exists ((cmgControl torque <$> cmgs s).*2).
    unfold applyCMGControl.
    cbn [satBody send set_cmgs reactionWheels cmgs].
    split; [done|]. split; [|by rewrite !length_fmap].
    rewrite <- (cmgs_exchange torque (cmgs s)).
    apply Vec3Facts.vec3_eq; cbn [Vec3.x Vec3.y Vec3.z Vec3.vadd]; ring.
Qed.
End MomentumExchange.

(** ** Torque limits *)

Module TorqueLimits.
Import AttitudeControl ActuatorNotions ExchangeNotions VectorFacts.
Local Open Scope R_scope.

Lemma cmgActualTorque_bound torque c :
  0 <= CMG.maxTorque c →
  Vec3.length (cmgActualTorque torque c) <= CMG.maxTorque c.
Proof.
  intros HM. unfold cmgActualTorque.
  match goal with
  | |- context [if decide (Vec3.length ?a > _) then _ else _] => set (T := a)
  end.
  case_decide as Hbig; [|lra].
  pose proof (length_nonneg T) as HT.
  rewrite length_scale, Rabs_right.
  - replace (CMG.maxTorque c / Vec3.length T * Vec3.length T)
      with (CMG.maxTorque c) by (field; lra).
    lra.
  - apply Rle_ge. unfold Rdiv. apply Rmult_le_pos; [lra|].
    apply Rlt_le, Rinv_0_lt_compat. lra.
Qed.

Lemma cmgControl_step torque c :
  Vec3.vsub (CMG.currentAngularMomentum (advanceCMG torque c))
            (CMG.currentAngularMomentum c)
  = Vec3.scale (dt * -1) (cmgActualTorque torque c).
Proof.
  unfold advanceCMG, cmgControl. cbn [fst CMG.set_currentAngularMomentum
    CMG.currentAngularMomentum].
  apply Vec3Facts.vec3_eq;
    cbn [Vec3.x Vec3.y Vec3.z Vec3.vadd Vec3.vsub Vec3.scale]; ring.
Qed.

(** X4.  In CMG mode the torque handed to the body for each CMG is no
    larger than that CMG's [maxTorque] (taken non-negative), so no call
    changes a CMG's stored momentum by more than [maxTorque * dt]. *)
Theorem cmg_torque_stays_within_maxTorque :
  ∀ (torque : Vec3.t) (s : System),
    mode s = mode_cmgs →
    Forall (λ c, 0 <= CMG.maxTorque c) (cmgs s) →
    ∃ sent : list BodyInput,
      satBody (applyControlTorque torque s) = satBody s ++ sent
      ∧ Forall2 (λ c i, ∃ applied,
                   i = applyTorque applied
                   ∧ Vec3.length applied <= CMG.maxTorque c)
                (cmgs s) sent
      ∧ Forall2 (λ c c',
                   Vec3.length
                     (Vec3.vsub (CMG.currentAngularMomentum c')
                                (CMG.currentAngularMomentum c))
                   <= CMG.maxTorque c * dt)
                (cmgs s) (cmgs (applyControlTorque torque s)).
Proof.
  intros torque s Hm Hpos. unfold applyControlTorque. rewrite Hm.
  unfold applyCMGControl. cbn [satBody send set_cmgs cmgs].
  exists ((cmgControl torque <$> cmgs s).*2). split; [done|].
  induction Hpos as [|c cs Hc Hcs [IH1 IH2]]; [split; constructor|].
  rewrite !fmap_cons. split; constructor; try done.
  - exists (cmgActualTorque torque c). split; [done|].
    by apply cmgActualTorque_bound.
  - fold (advanceCMG torque c). rewrite cmgControl_step, length_scale.
    pose proof WheelFacts.dt_pos.
    rewrite Rabs_left by lra.
    pose proof (cmgActualTorque_bound torque c Hc).
    pose proof (length_nonneg (cmgActualTorque torque c)). nra.
Qed.

Lemma cmg_torque_stays_within_maxTorque_witness :
  ∃ sent : list BodyInput,
    satBody (applyControlTorque (Vec3.mk (-9) 0 0) cmgSystem)
    = satBody cmgSystem ++ sent
    ∧ Forall2 (λ c i, ∃ applied,
                 i = applyTorque applied
                 ∧ Vec3.length applied <= CMG.maxTorque c)
              (cmgs cmgSystem) sent
    ∧ Forall2 (λ c c',
                 Vec3.length
                   (Vec3.vsub (CMG.currentAngularMomentum c')
                              (CMG.currentAngularMomentum c))
                 <= CMG.maxTorque c * dt)
              (cmgs cmgSystem)
              (cmgs (applyControlTorque (Vec3.mk (-9) 0 0) cmgSystem)).
Proof.
  apply (cmg_torque_stays_within_maxTorque (Vec3.mk (-9) 0 0) cmgSystem).
  - reflexivity.
  - repeat constructor. simpl. lra.
Defined.

Lemma over_dt (c : R) : c / dt = 60 * c.
Proof. unfold dt. field. Qed.

(** X5.  A wheel within its momentum bounds takes the requested torque
    along its axis or less of it, never more and never of the opposite
    sign; and it takes all of it whenever the momentum after the step
    stays within the bounds.  The wheel's [maxTorque] plays no part. *)
Theorem wheel_takes_the_request_or_less :
  ∀ (torque : Vec3.t) (w : Wheel.t),
    inRange w →
    let requested := Vec3.dot (Wheel.orientation w) torque in
    let applied := actualTorqueApplied torque w in
    (0 <= applied <= requested ∨ requested <= applied <= 0)
    ∧ (- Wheel.maxAngularMomentum w
       <= Wheel.currentAngularMomentum w + requested * dt
       <= Wheel.maxAngularMomentum w →
       applied = requested)
    ∧ ∀ q : R,
        actualTorqueApplied torque
          (Wheel.mk (Wheel.index w) (Wheel.orientation w) (Wheel.position w)
                    (Wheel.maxAngularMomentum w) q
                    (Wheel.currentAngularMomentum w))
        = applied.
Proof.
  intros torque w [Hlo Hhi] requested applied.
  unfold applied, actualTorqueApplied. fold requested.
  cbn [Wheel.orientation Wheel.maxAngularMomentum
       Wheel.currentAngularMomentum].
  fold requested. rewrite !over_dt.
  split; [|split; [|done]].
  - case_decide; [|case_decide].
    + left. unfold Rmin. destruct (Rle_dec _ _); lra.
    + right. unfold Rmax. destruct (Rle_dec _ _); lra.
    + left. lra.
  - unfold dt. intros [H1 H2]. case_decide; [|case_decide].
    + unfold Rmin. destruct (Rle_dec _ _); lra.
    + unfold Rmax. destruct (Rle_dec _ _); lra.
    + lra.
Qed.

Lemma wheel_takes_the_request_or_less_witness :
  let w := zWheel 0 in
  let torque := Vec3.mk 0 0 300 in
  let requested := Vec3.dot (Wheel.orientation w) torque in
  let applied := actualTorqueApplied torque w in
  (0 <= applied <= requested ∨ requested <= applied <= 0)
  ∧ (- Wheel.maxAngularMomentum w
     <= Wheel.currentAngularMomentum w + requested * dt
     <= Wheel.maxAngularMomentum w →
     applied = requested)
  ∧ ∀ q : R,
      actualTorqueApplied torque
        (Wheel.mk (Wheel.index w) (Wheel.orientation w) (Wheel.position w)
                  (Wheel.maxAngularMomentum w) q
                  (Wheel.currentAngularMomentum w))
      = applied.
Proof.
  apply (wheel_takes_the_request_or_less (Vec3.mk 0 0 300) (zWheel 0)).
  unfold inRange. simpl. lra.
Defined.
End TorqueLimits.

(** ** Desaturation firings *)

Module DesaturationFirings.
Import AttitudeControl ActuatorNotions ExchangeNotions DesaturationNotions.
Import VectorFacts.
Local Open Scope R_scope.

Lemma wheel_firings d ts : ∀ ws acc,
  foldl (wheelDesaturationFiring d) (ws, acc) ts
  = (foldl (λ ws t, bleedWheel (alignment d t) <$> ws) ws (aligned d ts),
     acc ++ (desaturationForce 0.5 <$> aligned d ts)).
Proof.
  unfold aligned.
  induction ts as [|t ts IH]; intros ws acc; cbn [foldl].
  - by rewrite app_nil_r.
  - rewrite filter_cons. unfold wheelDesaturationFiring at 2.
    fold (alignment d t). cbn [fst snd].
    destruct (decide (alignment d t > 0.5)) as [Ha|Ha].
    + rewrite IH. cbn [foldl fmap list_fmap]. by rewrite <- app_assoc.
    + by rewrite IH.
Qed.

Lemma cmg_firings d ts : ∀ cs acc,
  foldl (cmgDesaturationFiring d) (cs, acc) ts
  = (foldl (λ cs _, bleedCMG d <$> cs) cs (aligned d ts),
     acc ++ (desaturationForce 0.3 <$> aligned d ts)).
Proof.
  unfold aligned.
  induction ts as [|t ts IH]; intros cs acc; cbn [foldl].
  - by rewrite app_nil_r.
  - rewrite filter_cons. unfold cmgDesaturationFiring at 2.
    fold (alignment d t). cbn [fst snd].
    destruct (decide (alignment d t > 0.5)) as [Ha|Ha].
    + rewrite IH. cbn [foldl fmap list_fmap]. by rewrite <- app_assoc.
    + by rewrite IH.
Qed.

(** X6.  Desaturation fires exactly the thrusters whose torque direction
    (position x direction) has alignment above 0.5 with the direction
    opposite to the stored momentum, in the order of the thruster array:
    each sends one local force of half its thrust (reaction wheels; 0.3
    of it for CMGs) at its position and bleeds every wheel (CMG) once.
    With the stored momentum at or below 0.1 (10 for CMGs) nothing fires
    and nothing changes but the [desaturationActive] flag, which the call
    sets to whether the peak wheel momentum is at least 0.5 (the total CMG
    momentum at least 5). *)
Theorem desaturation_fires_the_aligned_thrusters :
  ∀ (thrusters : list Thruster.t) (s : System),
    let s' := desaturateWithThrusters thrusters s in
    (mode s = mode_reactionwheels →
     let total := totalWheelMomentum (reactionWheels s) in
     let d := Vec3.scale (-1) (Vec3.unit total) in
     let firing :=
       if decide (Vec3.length total > 0.1) then aligned d thrusters
       else [] in
     satBody s' = satBody s ++ (desaturationForce 0.5 <$> firing)
     ∧ reactionWheels s'
       = foldl (λ ws t, bleedWheel (alignment d t) <$> ws)
               (reactionWheels s) firing
     ∧ desaturationActive s'
       = bool_decide (0.5 <= maxWheelMomentum (reactionWheels s'))
     ∧ cmgs s' = cmgs s ∧ mode s' = mode s)
    ∧ (mode s = mode_cmgs →
       let total := totalCMGMomentum (cmgs s) in
       let d := Vec3.scale (-1) (Vec3.unit total) in
       let firing :=
         if decide (Vec3.length total > 10) then aligned d thrusters
         else [] in
       satBody s' = satBody s ++ (desaturationForce 0.3 <$> firing)
       ∧ cmgs s' = foldl (λ cs _, bleedCMG d <$> cs) (cmgs s) firing
       ∧ desaturationActive s'
         = bool_decide (5 <= Vec3.length (totalCMGMomentum (cmgs s')))
       ∧ reactionWheels s' = reactionWheels s ∧ mode s' = mode s)
    ∧ (mode s = mode_thrusters → s' = s).
Proof.
  intros thrusters s s'.
  split; [|split];
    [| |intros Hm; unfold s', desaturateWithThrusters; by rewrite Hm].
  - intros Hm total d firing. unfold s', desaturateWithThrusters.
    rewrite Hm.
    cbn [satBody reactionWheels cmgs mode desaturationActive
         set_desaturationActive send set_reactionWheels].
    fold total. fold d. unfold firing.
    destruct (decide (Vec3.length total > 0.1)) as [Hbig|Hsmall].
    + rewrite wheel_firings. cbn [fst snd app].
      split; [done|]. split; [done|]. split; [|done].
      case_decide; [by rewrite bool_decide_eq_false_2 by lra|].
      by rewrite bool_decide_eq_true_2 by lra.
    + cbn [fst snd foldl fmap list_fmap]. rewrite app_nil_r.
      split; [done|]. split; [done|]. split; [|done].
      case_decide; [by rewrite bool_decide_eq_false_2 by lra|].
      by rewrite bool_decide_eq_true_2 by lra.
  - intros Hm total d firing. unfold s', desaturateWithThrusters.
    rewrite Hm.
    cbn [satBody reactionWheels cmgs mode desaturationActive
         set_desaturationActive send set_cmgs].
    fold total. fold d. unfold firing.
    destruct (decide (Vec3.length total > 10)) as [Hbig|Hsmall].
    + rewrite cmg_firings. cbn [fst snd app].
      split; [done|]. split; [done|]. split; [|done].
      case_decide; [by rewrite bool_decide_eq_false_2 by lra|].
      by rewrite bool_decide_eq_true_2 by lra.
    + cbn [fst snd foldl fmap list_fmap]. rewrite app_nil_r.
      split; [done|]. split; [done|]. split; [|done].
      case_decide; [by rewrite bool_decide_eq_false_2 by lra|].
      by rewrite bool_decide_eq_true_2 by lra.
Qed.

Lemma desaturation_fires_the_aligned_thrusters_witness :
  let thrusters := [counterRollThruster] in
  let s := bank 5 false [] in
  let s' := desaturateWithThrusters thrusters s in
  let total := totalWheelMomentum (reactionWheels s) in
  let d := Vec3.scale (-1) (Vec3.unit total) in
  let firing :=
    if decide (Vec3.length total > 0.1) then aligned d thrusters else [] in
  satBody s' = satBody s ++ (desaturationForce 0.5 <$> firing)
  ∧ reactionWheels s'
    = foldl (λ ws t, bleedWheel (alignment d t) <$> ws)
            (reactionWheels s) firing
  ∧ desaturationActive s'
    = bool_decide (0.5 <= maxWheelMomentum (reactionWheels s'))
  ∧ cmgs s' = cmgs s ∧ mode s' = mode s.
Proof.
  apply (proj1 (desaturation_fires_the_aligned_thrusters
                  [counterRollThruster] (bank 5 false []))).
  reflexivity.
Defined.

(** X7.  Desaturation works on a wheel that holds positive momentum: for
    a single wheel with a unit axis holding more than 0.1, a thruster
    whose alignment [a] with the direction opposite to the axis exceeds
    0.5 takes 0.01 * a off the stored momentum (not below
    -maxAngularMomentum) and sends one force of half its thrust. *)
Theorem desaturation_bleeds_positive_momentum :
  ∀ (w : Wheel.t) (t : Thruster.t) (s : System),
    mode s = mode_reactionwheels →
    reactionWheels s = [w] →
    Vec3.length (Wheel.orientation w) = 1 →
    0.1 < Wheel.currentAngularMomentum w <= Wheel.maxAngularMomentum w →
    let a := alignment (Vec3.scale (-1) (Wheel.orientation w)) t in
    a > 0.5 →
    reactionWheels (desaturateWithThrusters [t] s)
    = [Wheel.set_currentAngularMomentum
         (Rmax (- Wheel.maxAngularMomentum w)
               (Wheel.currentAngularMomentum w - 0.01 * a)) w]
    ∧ satBody (desaturateWithThrusters [t] s)
      = satBody s ++ [desaturationForce 0.5 t].
Proof.
  intros w t s Hm Hw Hunit [Hh HM] a Ha.
  assert (totalWheelMomentum [w]
          = Vec3.scale (Wheel.currentAngularMomentum w) (Wheel.orientation w))
    as Htotal.
  { unfold totalWheelMomentum. cbn [foldl]. apply vadd_zero_l. }
  assert (Vec3.length (totalWheelMomentum [w]) > 0.1) as Hbig.
  { rewrite Htotal, length_scale, Hunit, Rabs_right; lra. }
  assert (Vec3.unit (totalWheelMomentum [w]) = Wheel.orientation w) as Hdir.
  { rewrite Htotal. apply unit_scale; [lra|done]. }
  unfold desaturateWithThrusters. rewrite Hm, Hw.
  cbn [satBody reactionWheels set_desaturationActive send
       set_reactionWheels].
  rewrite decide_True by done. rewrite Hdir. cbn [foldl].
  unfold wheelDesaturationFiring.
  fold (alignment (Vec3.scale (-1) (Wheel.orientation w)) t). fold a.
  rewrite decide_True by done. cbn [fst snd fmap list_fmap app].
  split; [|done]. f_equal. unfold bleedWheel.
  rewrite length_scale, Hunit, Rmult_1_r, Rabs_right by lra.
  f_equal. f_equal.
  unfold Rmin. destruct (Rle_dec _ _); lra.
Qed.

Lemma desaturation_bleeds_positive_momentum_witness :
  let w := zWheel 5 in
  let t := counterRollThruster in
  let s := bank 5 false [] in
  let a := alignment (Vec3.scale (-1) (Wheel.orientation w)) t in
  reactionWheels (desaturateWithThrusters [t] s)
  = [Wheel.set_currentAngularMomentum
       (Rmax (- Wheel.maxAngularMomentum w)
             (Wheel.currentAngularMomentum w - 0.01 * a)) w]
  ∧ satBody (desaturateWithThrusters [t] s)
    = satBody s ++ [desaturationForce 0.5 t].
Proof.
  apply (desaturation_bleeds_positive_momentum
           (zWheel 5) counterRollThruster (bank 5 false [])).
  - reflexivity.
  - reflexivity.
  - apply (eq_trans (Vec3Facts.length_z 1)), Rabs_R1.
  - simpl. lra.
  - unfold alignment, Vec3.dot, Vec3.cross. simpl. lra.
Defined.
End DesaturationFirings.

(** ** Loading the actuators *)

Module LoaderFacts.
Import ActuatorConfig Controller LoaderNotions VectorFacts.
Local Open Scope R_scope.


Lemma shift_shift o1 o2 w :
  shift o2 (shift o1 w) = shift (Vec3.vadd o1 o2) w.
Proof.
  unfold shift. cbn. f_equal.
  destruct (LoadedWheel.position w) as [[|x] [|y] [|z]];
    cbn; f_equal; f_equal; ring.
Qed.

Section WithScanner.
Variable StringToNumber : string → JS.number.

Lemma shift_loadWheel o i cfg :
  shift o (loadWheel StringToNumber Vec3.zero i cfg)
  = loadWheel StringToNumber o i cfg.
Proof.
  unfold shift, loadWheel.
  cbn [LoadedWheel.index LoadedWheel.name LoadedWheel.orientation
       LoadedWheel.position LoadedWheel.maxAngularMomentum
       LoadedWheel.maxTorque LoadedWheel.currentAngularMomentum
       JS.nx JS.ny JS.nz Vec3.x Vec3.y Vec3.z Vec3.zero].
  f_equal. f_equal.
  - destruct (JS.parseFloat _ _) as [|p]; [done|]. cbn. f_equal. ring.
  - destruct (JS.parseFloat _ _) as [|p]; [done|]. cbn. f_equal. ring.
  - destruct (JS.parseFloat _ _) as [|p]; [done|]. cbn. f_equal. ring.
Qed.



(** X9.  On a new controller [initializeWithConfigs] returns the
    [loaded] flag it stores, and the flag is true exactly when the
    configurations supply at least one wheel or one CMG.  The controller
    then holds one wheel per wheel entry and one CMG per CMG entry, each
    built from its entry with the entry's position in the array as
    index. *)
Theorem loaded_iff_an_actuator_is_configured :
  ∀ (reactionWheelsConfig : option (option (list WheelCfg.t)))
    (cmgConfig : option CMGData.t),
    let r :=
      initializeWithConfigs StringToNumber reactionWheelsConfig cmgConfig
        create in
    let wheels := configuredWheels reactionWheelsConfig in
    let entries := configuredCMGs cmgConfig in
    r.2 = loaded r.1
    ∧ (r.2 = true ↔ wheels ≠ [] ∨ entries ≠ [])
    ∧ reactionWheels r.1 = imap (loadWheel StringToNumber Vec3.zero) wheels
    ∧ cmgs r.1 = imap (loadCMG StringToNumber) entries.
Proof.
  intros rw cmg r wheels entries.
  assert (reactionWheels r.1
          = imap (loadWheel StringToNumber Vec3.zero) wheels) as Hw.
  { unfold r, wheels, initializeWithConfigs.
    cbn [fst reactionWheels create centerOfMassOffset].
    by destruct rw as [[ws|]|]. }
  assert (cmgs r.1 = imap (loadCMG StringToNumber) entries) as Hc.
  { unfold r, entries, initializeWithConfigs, configuredCMGs,
      processCMGsConfig.
    cbn [fst cmgs create].
    destruct cmg as [data|]; [|done]. by destruct (cmgsArray data). }
  split; [done|]. split; [|done].
  transitivity (loaded r.1 = true); [done|].
  unfold r at 1, initializeWithConfigs at 1. cbn [fst loaded].
  fold (initializeWithConfigs StringToNumber rw cmg create).
  change (bool_decide (0 < length (reactionWheels r.1))%nat
          || bool_decide (0 < length (cmgs r.1))%nat = true
          ↔ wheels ≠ [] ∨ entries ≠ []).
  rewrite Hw, Hc, !length_imap, orb_true_iff, !bool_decide_eq_true.
  destruct wheels, entries; simpl; split; intros H;
    first [lia | tauto | (left; lia) | (right; lia)
          | (left; done) | (right; done)].
Qed.

(** X10.  Setting the centre-of-mass offset after the wheels are loaded
    leaves them where loading them after the offset was set puts them:
    at the configured position minus the offset.  A further call
    subtracts its offset from the positions already shifted, while the
    stored offset is replaced: after two calls the wheels are displaced
    by the sum of the two offsets. *)
Theorem offset_commutes_with_loading_and_accumulates :
  ∀ (offset : JS.nvec) (wheels : list WheelCfg.t)
    (cmgConfig : option CMGData.t),
    let load :=
      initializeWithConfigs StringToNumber (Some (Some wheels)) cmgConfig in
    reactionWheels (setCenterOfMassOffset offset (load create).1)
    = reactionWheels (load (setCenterOfMassOffset offset create)).1
    ∧ ∀ (second : JS.nvec) (c : t),
        let once := setCenterOfMassOffset offset c in
        let twice := setCenterOfMassOffset second once in
        reactionWheels twice
        = shift (Vec3.vadd (centerOfMassOffset once)
                           (centerOfMassOffset twice))
            <$> reactionWheels c.
Proof.
  intros offset wheels cmg load. split.
  - unfold load, initializeWithConfigs, setCenterOfMassOffset,
      processReactionWheelsConfig.
    cbn [fst reactionWheels centerOfMassOffset create app fmap list_fmap].
    apply list_eq. intros i.
    rewrite list_lookup_fmap, !list_lookup_imap.
    destruct (wheels !! i) as [cfg|]; [|done]. cbn.
    by rewrite shift_loadWheel.
  - intros second c once twice. unfold twice, once, setCenterOfMassOffset.
    cbn [reactionWheels centerOfMassOffset].
    rewrite <- list_fmap_compose. apply list_fmap_ext.
    intros i w _. apply shift_shift.
Qed.
End WithScanner.
End LoaderFacts.

(** ** The shapes of a session configuration *)

Module SessionShapes.
Import ActuatorConfig Controller SessionConfig LoaderNotions.

(** X11.  Through [normalizeConfiguration] and [initializeWithConfigs] a
    session configuration loads one wheel per entry whether
    [reactionwheels] is the array or an object holding it under [wheels],
    and one CMG per entry whether [cmg] is the array or an object holding
    it under [cmgs]; an absent field loads nothing.  An object under
    [cmg.cmg] is always read as a single CMG entry: the nested shape
    [{cmg: {cmg: {cmgs: [...]}}}] loads one CMG named CMG0 whose
    limits are NaN, whatever the array holds. *)
Theorem session_shapes_load_alike :
  ∀ (StringToNumber : string → JS.number)
    (wheels : list WheelCfg.t) (a : list CMGCfg.t)
    (rw : field WheelCfg.t) (c : cmgField) (th : field ThrusterCfg.t),
    let loadedWheels f :=
      reactionWheels
        (loadActuators StringToNumber
           (normalizeConfiguration (mkConfig f c th))).1 in
    let loadedCMGs f :=
      cmgs (loadActuators StringToNumber
              (normalizeConfiguration (mkConfig rw f th))).1 in
    (loadedWheels (array wheels)
     = imap (loadWheel StringToNumber Vec3.zero) wheels
     ∧ loadedWheels (object (Some wheels)) = loadedWheels (array wheels)
     ∧ loadedWheels absent = [] ∧ loadedWheels (object None) = [])
    ∧ (loadedCMGs (cmgArray a) = imap (loadCMG StringToNumber) a
       ∧ loadedCMGs (cmgObject (Some a) None) = loadedCMGs (cmgArray a)
       ∧ loadedCMGs cmgAbsent = [] ∧ loadedCMGs (cmgObject None None) = [])
    ∧ (∀ o single,
         loadedCMGs (cmgObject o (Some single))
         = [loadCMG StringToNumber 0 (entry single)])
    ∧ loadedCMGs (cmgObject None (Some (wrapped a)))
      = [LoadedCMG.mk 0 "CMG0" JS.NaN JS.NaN Vec3.zero].
Proof.
  intros scan wheels a rw c th loadedWheels loadedCMGs.
  split; [|split; [|split]].
  - by split_and!.
  - by split_and!.
  - done.
  - done.
Qed.
End SessionShapes.

(** ** Loading the thrusters *)

Module LoadingFacts.
Import ThrusterSetup BindingNotions BindingFacts BindingFrame LoadingNotions.
Local Open Scope R_scope.

Lemma customBind_run key i (m : KeyMap) :
  inheritedKey (normalizedKey key) = false ∨ is_Some (m !! normalizedKey key) →
  ∃ m' : KeyMap,
    customBind key i m = (m', Some ())
    ∧ ∀ k, m' !! k = (λ l, l ++ replicate (hits k [key]) i) <$> m !! k.
Proof.
  intros Hkey. unfold customBind. fold (normalizedKey key).
  assert (∀ k, normalizedKey key ≠ k ∨ k = "" →
               m !! k = (λ l, l ++ replicate (hits k [key]) i) <$> m !! k)
    as Hsame.
  { intros k Hk. unfold hits. case_bool_decide as Hempty.
    - destruct (m !! k); simpl; by rewrite ?app_nil_r.
    - rewrite filter_cons, decide_False by tauto.
      destruct (m !! k); simpl; by rewrite ?app_nil_r. }
  case_bool_decide as Hempty.
  - exists m. split; [done|]. intros k.
    destruct (decide (k = "")) as [->|Hk]; apply Hsame; [by right|].
    left. congruence.
  - destruct (m !! normalizedKey key) as [l|] eqn:Hl.
    + exists (<[normalizedKey key := l ++ [i]]> m).
      split; [by apply push_owned|]. intros k.
      destruct (decide (normalizedKey key = k)) as [<-|Hne].
      * rewrite lookup_insert_eq, Hl. unfold hits.
        rewrite bool_decide_eq_false_2 by done.
        by rewrite filter_cons, decide_True by done.
      * rewrite lookup_insert_ne by done. apply Hsame. by left.
    + destruct Hkey as [->|[? ?]]; [|done].
      exists m. split; [done|]. intros k.
      destruct (decide (normalizedKey key = k)) as [<-|Hne].
      * by rewrite Hl.
      * apply Hsame. by left.
Qed.

Lemma hits_cons k key keys :
  hits k (key :: keys) = (hits k [key] + hits k keys)%nat.
Proof.
  unfold hits. case_bool_decide; [done|].
  rewrite !filter_cons, filter_nil. by case_decide.
Qed.

Lemma customBindAll_run keys i : ∀ m : KeyMap,
  Forall (λ key, inheritedKey (normalizedKey key) = false
                 ∨ is_Some (m !! normalizedKey key)) keys →
  ∃ m' : KeyMap,
    customBindAll keys i m = (m', Some ())
    ∧ ∀ k, m' !! k = (λ l, l ++ replicate (hits k keys) i) <$> m !! k.
Proof.
  induction keys as [|key keys IH]; intros m Hkeys.
  - exists m. split; [done|]. intros k.
    assert (hits k [] = 0%nat) as -> by (unfold hits; by case_bool_decide).
    destruct (m !! k); simpl; by rewrite ?app_nil_r.
  - apply Forall_cons in Hkeys as [Hkey Hkeys].
    destruct (customBind_run key i m Hkey) as (m1 & Hrun1 & Hlook1).
    destruct (IH m1) as (m' & Hrun & Hlook).
    { eapply Forall_impl; [exact Hkeys|]. intros key' [H|H]; [by left|].
      right. rewrite Hlook1. by apply fmap_is_Some. }
    exists m'. split.
    + cbn [customBindAll]. unfold mbind, Bind_bind. by rewrite Hrun1.
    + intros k. rewrite Hlook, Hlook1, (hits_cons k key keys).
      destruct (m !! k) as [l|]; [|done]. simpl.
      by rewrite replicate_add, app_assoc.
Qed.

Lemma owns_after (m m' : KeyMap) (f : string → list nat → list nat) :
  ownsChannels m → (∀ k, m' !! k = f k <$> m !! k) → ownsChannels m'.
Proof.
  intros Hown Hlook k Hk. rewrite Hlook. apply fmap_is_Some. by apply Hown.
Qed.

Lemma uniform_unowned {A} (c : Bind A) (m : KeyMap) k :
  uniform c → m !! k = None → (c m).1 !! k = None.
Proof.
  intros Hc Hk. destruct (Hc m m (emptied m) (prefixed_emptied m)) as [_ Hp].
  destruct (Hp k) as [-> _]. by rewrite Hk.
Qed.

Lemma uniform_plain {A} (c : Bind A) (m : KeyMap) :
  uniform c → plain m → plain (c m).1.
Proof. intros Hc Hm k Hk. apply uniform_unowned; [done|]. by apply Hm. Qed.

Lemma inherited_not_blank k : inheritedKey k = true → k ≠ "".
Proof. by intros H ->. Qed.

Lemma customBindAll_throws keys i : ∀ m : KeyMap,
  plain m →
  Exists (λ key, inheritedKey (normalizedKey key) = true) keys →
  (customBindAll keys i m).2 = None.
Proof.
  induction keys as [|key keys IH]; intros m Hm Hbad.
  - by apply Exists_nil in Hbad.
  - cbn [customBindAll]. unfold mbind, Bind_bind.
    destruct (customBind key i m) as [m1 [[]|]] eqn:Hrun; [|done].
    apply Exists_cons in Hbad as [Hkey|Hbad].
    + exfalso. revert Hrun. unfold customBind. fold (normalizedKey key).
      rewrite bool_decide_eq_false_2 by by apply inherited_not_blank.
      by rewrite (Hm _ Hkey), Hkey.
    + apply IH; [|done].
      replace m1 with (customBind key i m).1 by by rewrite Hrun.
      apply uniform_plain; [apply uniform_customBind|done].
Qed.

Lemma push_below n k i (m : KeyMap) :
  (i < n)%nat → indicesBelow n m → indicesBelow n (push k i m).1.
Proof.
  intros Hi Hm. unfold push. destruct (m !! k) as [l|] eqn:Hl; [|done].
  cbn [fst]. intros k' l' j.
  destruct (decide (k' = k)) as [->|Hne].
  - rewrite lookup_insert_eq. intros [= <-]. rewrite elem_of_app.
    intros [Hj|Hj]; [by eapply Hm|]. apply list_elem_of_singleton in Hj. lia.
  - rewrite lookup_insert_ne by done. apply Hm.
Qed.

Lemma bind_below {A B} n (c : Bind A) (f : A → Bind B) (m : KeyMap) :
  indicesBelow n (c m).1 →
  (∀ a m1, indicesBelow n m1 → indicesBelow n (f a m1).1) →
  indicesBelow n ((c ≫= f) m).1.
Proof.
  intros Hc Hf. unfold mbind, Bind_bind.
  destruct (c m) as [m1 [a|]]; [|done]. by apply Hf.
Qed.

Lemma pushAll_below n ks i : ∀ m : KeyMap,
  (i < n)%nat → indicesBelow n m → indicesBelow n (pushAll ks i m).1.
Proof.
  induction ks as [|k ks IH]; intros m Hi Hm; [done|].
  cbn [pushAll]. apply bind_below; [by apply push_below|].
  intros _ m1. by apply IH.
Qed.

Lemma customBind_below n key i (m : KeyMap) :
  (i < n)%nat → indicesBelow n m → indicesBelow n (customBind key i m).1.
Proof.
  intros Hi Hm. unfold customBind. case_bool_decide; [done|].
  destruct (m !! _) eqn:Hl.
  - by apply push_below.
  - by destruct (inheritedKey _).
Qed.

Lemma customBindAll_below n keys i : ∀ m : KeyMap,
  (i < n)%nat → indicesBelow n m → indicesBelow n (customBindAll keys i m).1.
Proof.
  induction keys as [|k ks IH]; intros m Hi Hm; [done|].
  cbn [customBindAll]. apply bind_below; [by apply customBind_below|].
  intros _ m1. by apply IH.
Qed.

Section WithScanner.
Variable StringToNumber : string → JS.number.

Local Abbreviation parseFloat := (JS.parseFloat StringToNumber).

Lemma processThruster_below n com i t (m : KeyMap) :
  (i < n)%nat → indicesBelow n m →
  indicesBelow n (processThruster StringToNumber com i t m).1.
Proof.
  intros Hi Hm. unfold processThruster. apply bind_below; [|done].
  destruct (JS.notFalse _);
    [by apply pushAll_below|by apply customBindAll_below].
Qed.

Lemma processFrom_below n com ts : ∀ i (m : KeyMap),
  (i + length ts ≤ n)%nat → indicesBelow n m →
  indicesBelow n (processFrom StringToNumber com i ts m).1.
Proof.
  induction ts as [|t ts IH]; intros i m Hi Hm; [done|].
  cbn [processFrom length] in *.
  apply bind_below; [apply processThruster_below; [lia|done]|].
  intros th m1 Hm1. apply bind_below; [apply IH; [lia|done]|done].
Qed.

(** The thruster a configuration entry is turned into. *)
Lemma processThruster_runs com i t (m : KeyMap) :
  ownsChannels m → bindable t →
  ∃ m' : KeyMap,
    processThruster StringToNumber com i t m
    = (m', Some (Thruster.mk
                   (Vec3.vsub (ThrusterCfg.position t) com)
                   (Vec3.unit (ThrusterCfg.direction t))
                   (sanitize 50 (parseFloat (ThrusterCfg.thrust t)))
                   (sanitize 300 (parseFloat (ThrusterCfg.isp t)))
                   false i))
    ∧ ownsChannels m'.
Proof.
  intros Hown Hbind. unfold processThruster, mbind, Bind_bind.
  destruct (JS.notFalse (ThrusterCfg.autoBind t)) eqn:Hauto.
  - destruct (pushAll_owned
                (autoBindKeys (Vec3.vsub (ThrusterCfg.position t) com)
                              (Vec3.unit (ThrusterCfg.direction t))) i m)
      as (m' & Hrun & Hlook).
    { apply autoBindKeys_NoDup. }
    { intros k Hk. apply Hown. by eapply autoBindKeys_channel. }
    exists m'. rewrite Hrun. split; [done|].
    intros k Hk. rewrite Hlook. case_bool_decide.
    + apply fmap_is_Some. by apply Hown.
    + by apply Hown.
  - destruct Hbind as [Hbind|Hbind]; [congruence|].
    destruct (customBindAll_run (customKeybinds t) i m) as (m' & Hrun & Hlook).
    { eapply Forall_impl; [exact Hbind|]. intros key Hk. by left. }
    unfold customKeybinds in Hrun. exists m'. rewrite Hrun. split; [done|].
    by apply (owns_after m m'
                (λ k l, l ++ replicate (hits k (customKeybinds t)) i)).
Qed.

Lemma processFrom_cons com i t ts (m m1 : KeyMap) th :
  processThruster StringToNumber com i t m = (m1, Some th) →
  processFrom StringToNumber com i (t :: ts) m
  = match processFrom StringToNumber com (S i) ts m1 with
    | (m2, Some rest) => (m2, Some (th :: rest))
    | (m2, None) => (m2, None)
    end.
Proof.
  intros Hrun. cbn [processFrom]. unfold mbind, Bind_bind. rewrite Hrun.
  by destruct (processFrom _ _ _ _ _) as [m2 [rest|]].
Qed.

Lemma processFrom_runs com ts : ∀ i (m : KeyMap),
  ownsChannels m → Forall bindable ts →
  ∃ (m' : KeyMap) (ths : list Thruster.t),
    processFrom StringToNumber com i ts m = (m', Some ths)
    ∧ ownsChannels m'
    ∧ length ths = length ts
    ∧ ∀ j t, ts !! j = Some t →
        ths !! j
        = Some (Thruster.mk
                  (Vec3.vsub (ThrusterCfg.position t) com)
                  (Vec3.unit (ThrusterCfg.direction t))
                  (sanitize 50 (parseFloat (ThrusterCfg.thrust t)))
                  (sanitize 300 (parseFloat (ThrusterCfg.isp t)))
                  false (i + j)).
Proof.
  induction ts as [|t ts IH]; intros i m Hown Hbind.
  - exists m, []. by split_and!.
  - apply Forall_cons in Hbind as [Ht Hts].
    destruct (processThruster_runs com i t m Hown Ht) as (m1 & Hrun1 & Hown1).
    destruct (IH (S i) m1 Hown1 Hts) as (m' & ths & Hrun & Hown' & Hlen & Hlook).
    eexists m', (_ :: ths). split_and!.
    + cbn [processFrom]. unfold mbind, Bind_bind. rewrite Hrun1, Hrun. done.
    + done.
    + simpl. by rewrite Hlen.
    + intros [|j] t'; simpl.
      * intros [= <-]. by rewrite Nat.add_0_r.
      * intros Hj. rewrite (Hlook j t' Hj). do 2 f_equal. lia.
Qed.

Lemma processFrom_throws com ts : ∀ i (m : KeyMap),
  plain m →
  Exists (λ t, JS.notFalse (ThrusterCfg.autoBind t) = false
               ∧ Exists (λ key, inheritedKey (normalizedKey key) = true)
                        (customKeybinds t)) ts →
  (processFrom StringToNumber com i ts m).2 = None.
Proof.
  induction ts as [|t ts IH]; intros i m Hm Hbad.
  - by apply Exists_nil in Hbad.
  - cbn [processFrom]. unfold mbind at 1, Bind_bind at 1.
    destruct (processThruster StringToNumber com i t m) as [m1 [th|]] eqn:Hrun;
      [|done].
    assert (plain m1) as Hm1.
    { replace m1 with (processThruster StringToNumber com i t m).1
        by by rewrite Hrun.
      apply uniform_plain; [apply uniform_processThruster|done]. }
    apply Exists_cons in Hbad as [[Hauto Hkeys]|Hbad].
    + exfalso. revert Hrun. unfold processThruster, mbind, Bind_bind.
      rewrite Hauto.
      pose proof (customBindAll_throws _ i m Hm Hkeys) as Hthrow.
      unfold customKeybinds in Hthrow.
      destruct (customBindAll _ i m) as [m2 [[]|]]; [done|done].
    + unfold mbind, Bind_bind.
      pose proof (IH (S i) m1 Hm1 Hbad) as Hrest.
      by destruct (processFrom StringToNumber com (S i) ts m1) as [m2 [rest|]].
Qed.
End WithScanner.

Lemma emptyKeyMap_plain : plain emptyKeyMap.
Proof.
  intros k Hk. unfold inheritedKey in Hk.
  apply orb_true_iff in Hk as [Hk|Hk]; apply bool_decide_eq_true in Hk;
    subst k; by vm_compute.
Qed.

Lemma emptyKeyMap_below : indicesBelow 0 emptyKeyMap.
Proof.
  intros k l j Hl Hj.
  assert (l = []) as ->; [|by apply elem_of_nil in Hj].
  unfold emptyKeyMap in Hl. apply elem_of_list_to_map_2 in Hl.
  apply list_elem_of_fmap in Hl as (k' & [= _ ->] & _). done.
Qed.

Lemma indicesBelow_mono n n' (m : KeyMap) :
  (n ≤ n')%nat → indicesBelow n m → indicesBelow n' m.
Proof. intros Hn Hm k l j Hl Hj. specialize (Hm k l j Hl Hj). lia. Qed.
End LoadingFacts.

Module ThrusterLoading.
Import ThrusterSetup BindingNotions BindingFacts LoadingNotions LoadingFacts.
Local Open Scope R_scope.

(** X12.  Loading succeeds whenever the key map owns the twelve channel
    arrays and no manually bound thruster lists a key that names an
    inherited property: the result has one thruster per configuration
    entry, in order; thruster [j] has index [j], is inactive, sits at the
    configured position minus the centre of mass, points along a unit
    vector, and carries the configured thrust and isp when they parse to
    positive numbers, 50 N and 300 s otherwise. *)
Theorem loading_builds_one_thruster_per_entry :
  ∀ (StringToNumber : string → JS.number) (config : list ThrusterCfg.t)
    (centerOfMass : Vec3.t) (m : KeyMap),
    ownsChannels m → Forall bindable config →
    let thrusters :=
      (initializeThrustersWithConfig StringToNumber config centerOfMass m).2 in
    length thrusters = length config
    ∧ ∀ j t, config !! j = Some t →
        ∃ th, thrusters !! j = Some th
          ∧ Thruster.index th = j
          ∧ Thruster.active th = false
          ∧ Thruster.pos th = Vec3.vsub (ThrusterCfg.position t) centerOfMass
          ∧ Thruster.dir th = Vec3.unit (ThrusterCfg.direction t)
          ∧ Vec3.length (Thruster.dir th) = 1
          ∧ Thruster.thrust th
            = sanitize 50 (JS.parseFloat StringToNumber (ThrusterCfg.thrust t))
          ∧ Thruster.isp th
            = sanitize 300 (JS.parseFloat StringToNumber (ThrusterCfg.isp t))
          ∧ 0 < Thruster.thrust th ∧ 0 < Thruster.isp th.
Proof.
  intros scan config com m Hown Hbind thrusters.
  destruct (processFrom_runs scan com config 0%nat m Hown Hbind)
    as (m' & ths & Hrun & _ & Hlen & Hlook).
  assert (thrusters = ths) as ->.
  { unfold thrusters, initializeThrustersWithConfig, processThrusterConfig.
    by rewrite Hrun. }
  split; [done|]. intros j t Hj. eexists. split; [by apply Hlook|].
  cbn [Thruster.index Thruster.active Thruster.pos Thruster.dir
       Thruster.thrust Thruster.isp].
  split_and!; try done.
  - apply VectorFacts.length_unit.
  - apply FuelFacts.sanitize_pos. lra.
  - apply FuelFacts.sanitize_pos. lra.
Qed.

Lemma loading_builds_one_thruster_per_entry_witness :
  let config := [forwardThruster; sideThruster] in
  let thrusters :=
    (initializeThrustersWithConfig (λ _, JS.NaN) config Vec3.zero
       emptyKeyMap).2 in
  length thrusters = length config
  ∧ ∀ j t, config !! j = Some t →
      ∃ th, thrusters !! j = Some th
        ∧ Thruster.index th = j
        ∧ Thruster.active th = false
        ∧ Thruster.pos th = Vec3.vsub (ThrusterCfg.position t) Vec3.zero
        ∧ Thruster.dir th = Vec3.unit (ThrusterCfg.direction t)
        ∧ Vec3.length (Thruster.dir th) = 1
        ∧ Thruster.thrust th
          = sanitize 50 (JS.parseFloat (λ _, JS.NaN) (ThrusterCfg.thrust t))
        ∧ Thruster.isp th
          = sanitize 300 (JS.parseFloat (λ _, JS.NaN) (ThrusterCfg.isp t))
        ∧ 0 < Thruster.thrust th ∧ 0 < Thruster.isp th.
Proof.
  apply (loading_builds_one_thruster_per_entry
           (λ _, JS.NaN) [forwardThruster; sideThruster] Vec3.zero
           emptyKeyMap).
  - apply emptyKeyMap_ownsChannels.
  - apply Forall_cons; split; [left; reflexivity|].
    apply Forall_cons; split; [right; repeat constructor|constructor].
Defined.

(** X13.  One manually bound thruster that lists a key whose lower-cased,
    trimmed name is [constructor] or [__proto__] costs the whole bank: on
    a key map without own properties of those names the loader returns
    no thruster at all.  The key map is not rolled back: when that key
    comes first in its list, the map is left as the entries before the
    offending one filled it. *)
Theorem inherited_key_loses_every_thruster :
  ∀ (StringToNumber : string → JS.number)
    (before after : list ThrusterCfg.t) (bad : ThrusterCfg.t)
    (centerOfMass : Vec3.t) (m : KeyMap),
    plain m →
    JS.notFalse (ThrusterCfg.autoBind bad) = false →
    Exists (λ key, inheritedKey (normalizedKey key) = true)
           (customKeybinds bad) →
    let load config :=
      initializeThrustersWithConfig StringToNumber config centerOfMass m in
    (load (before ++ bad :: after)).2 = []
    ∧ (ownsChannels m → Forall bindable before →
       (∃ key keys, customKeybinds bad = key :: keys
                    ∧ inheritedKey (normalizedKey key) = true) →
       (load (before ++ bad :: after)).1 = (load before).1
       ∧ length (load before).2 = length before).
Proof.
  intros scan before after bad com m Hm Hauto Hkeys load. split.
  - unfold load, initializeThrustersWithConfig, processThrusterConfig.
    assert ((processFrom scan com 0 (before ++ bad :: after) m).2 = None)
      as Hthrow.
    { apply processFrom_throws; [done|]. rewrite Exists_app. right.
      apply Exists_cons_hd. by split. }
    by destruct (processFrom _ _ _ _ _) as [m' [ths|]].
  - intros Hown Hbefore (key & keys & Hfirst & Hkey).
    unfold load, initializeThrustersWithConfig, processThrusterConfig.
    clear load. generalize 0%nat as i. revert m Hm Hown.
    induction before as [|t ts IH]; intros m Hm Hown i.
    + cbn [app processFrom length]. unfold mbind at 1, Bind_bind at 1.
      unfold processThruster, mbind, Bind_bind. rewrite Hauto.
      unfold customKeybinds in Hfirst. rewrite Hfirst.
      cbn [customBindAll]. unfold mbind, Bind_bind, customBind.
      fold (normalizedKey key).
      rewrite bool_decide_eq_false_2 by by apply inherited_not_blank.
      by rewrite (Hm _ Hkey), Hkey.
    + apply Forall_cons in Hbefore as [Ht Hts].
      destruct (processThruster_runs scan com i t m Hown Ht)
        as (m1 & Hrun1 & Hown1).
      assert (plain m1) as Hm1.
      { replace m1 with (processThruster scan com i t m).1 by by rewrite Hrun1.
        apply uniform_plain; [apply BindingFrame.uniform_processThruster|done]. }
      specialize (IH Hts m1 Hm1 Hown1 (S i)).
      rewrite <- app_comm_cons.
      rewrite !(processFrom_cons scan com i t _ m m1 _ Hrun1).
      destruct (processFrom_runs scan com ts (S i) m1 Hown1 Hts)
        as (mb & thb & Hrunb & _ & Hlen & _).
      rewrite Hrunb in IH |- *.
      destruct (processFrom scan com (S i) (ts ++ bad :: after) m1)
        as [ma [tha|]];
        cbn [fst snd length] in *; destruct IH as [IH1 IH2];
        (split; [done|by rewrite Hlen]).
Qed.

Lemma inherited_key_loses_every_thruster_witness :
  let load config :=
    initializeThrustersWithConfig (λ _, JS.NaN) config Vec3.zero
      emptyKeyMap in
  (load ([forwardThruster] ++ brokenThruster :: [sideThruster])).2 = []
  ∧ (ownsChannels emptyKeyMap → Forall bindable [forwardThruster] →
     (∃ key keys, customKeybinds brokenThruster = key :: keys
                  ∧ inheritedKey (normalizedKey key) = true) →
     (load ([forwardThruster] ++ brokenThruster :: [sideThruster])).1
     = (load [forwardThruster]).1
     ∧ length (load [forwardThruster]).2 = length [forwardThruster]).
Proof.
  apply (inherited_key_loses_every_thruster
           (λ _, JS.NaN) [forwardThruster] [sideThruster] brokenThruster
           Vec3.zero emptyKeyMap).
  - apply emptyKeyMap_plain.
  - reflexivity.
  - left. reflexivity.
Defined.

(** X14.  A thruster with [autoBind: false] is bound by its key list
    alone: its index is appended to channel [k] once for every listed key
    that is [k] after lower-casing and trimming, so a key listed twice
    binds it twice; blank keys and keys that name no array of the map are
    skipped; position and direction play no part.  The thruster itself is
    built as any other. *)
Theorem manual_binding_follows_the_key_list :
  ∀ (StringToNumber : string → JS.number) (t : ThrusterCfg.t)
    (centerOfMass : Vec3.t) (i : nat) (m : KeyMap),
    JS.notFalse (ThrusterCfg.autoBind t) = false →
    Forall (λ key, inheritedKey (normalizedKey key) = false
                   ∨ is_Some (m !! normalizedKey key))
           (customKeybinds t) →
    let r := processThruster StringToNumber centerOfMass i t m in
    (∃ th, r.2 = Some th ∧ Thruster.index th = i)
    ∧ ∀ k, r.1 !! k
           = (λ l, l ++ replicate (hits k (customKeybinds t)) i) <$> m !! k.
Proof.
  intros scan t com i m Hauto Hkeys r.
  destruct (customBindAll_run (customKeybinds t) i m Hkeys)
    as (m' & Hrun & Hlook).
  unfold r, processThruster, mbind, Bind_bind. rewrite Hauto.
  unfold customKeybinds in Hrun. rewrite Hrun. cbn [fst snd].
  split; [by eexists|done].
Qed.

Lemma manual_binding_follows_the_key_list_witness :
  let r := processThruster (λ _, JS.NaN) Vec3.zero 3 sideThruster
             emptyKeyMap in
  (∃ th, r.2 = Some th ∧ Thruster.index th = 3%nat)
  ∧ ∀ k, r.1 !! k
         = (λ l, l ++ replicate (hits k (customKeybinds sideThruster)) 3%nat)
             <$> emptyKeyMap !! k.
Proof.
  apply (manual_binding_follows_the_key_list
           (λ _, JS.NaN) sideThruster Vec3.zero 3 emptyKeyMap).
  - reflexivity.
  - repeat constructor.
Defined.

(** X15.  Loading never binds an index that is out of range: starting
    from the key map the simulation creates, every index found in a
    channel afterwards is below the number of configuration entries,
    whether loading succeeded or threw; and when no entry can throw, every
    bound index is the index of a thruster of the returned array. *)
Theorem bound_indices_are_in_range :
  ∀ (StringToNumber : string → JS.number) (config : list ThrusterCfg.t)
    (centerOfMass : Vec3.t),
    let r :=
      initializeThrustersWithConfig StringToNumber config centerOfMass
        emptyKeyMap in
    indicesBelow (length config) r.1
    ∧ (Forall bindable config →
       ∀ k l j, r.1 !! k = Some l → j ∈ l →
         ∃ th, r.2 !! j = Some th ∧ Thruster.index th = j).
Proof.
  intros scan config com r.
  assert (indicesBelow (length config) r.1) as Hbelow.
  { unfold r, initializeThrustersWithConfig, processThrusterConfig.
    pose proof (processFrom_below scan (length config) com config 0%nat
                  emptyKeyMap) as H.
    destruct (processFrom _ _ _ _ _) as [m' [ths|]]; apply H; try done;
      eapply indicesBelow_mono, emptyKeyMap_below; lia. }
  split; [done|]. intros Hbind k l j Hl Hj.
  specialize (Hbelow k l j Hl Hj).
  destruct (processFrom_runs scan com config 0%nat emptyKeyMap
              emptyKeyMap_ownsChannels Hbind)
    as (m' & ths & Hrun & _ & Hlen & Hlook).
  assert (r.2 = ths) as ->.
  { unfold r, initializeThrustersWithConfig, processThrusterConfig.
    by rewrite Hrun. }
  destruct (lookup_lt_is_Some_2 config j Hbelow) as [t Ht].
  eexists. split; [by apply Hlook|done].
Qed.

Lemma bound_indices_are_in_range_witness :
  let config := [forwardThruster; sideThruster] in
  let r :=
    initializeThrustersWithConfig (λ _, JS.NaN) config Vec3.zero
      emptyKeyMap in
  indicesBelow (length config) r.1
  ∧ ∀ k l j, r.1 !! k = Some l → j ∈ l →
      ∃ th, r.2 !! j = Some th ∧ Thruster.index th = j.
Proof.
  destruct (bound_indices_are_in_range
              (λ _, JS.NaN) [forwardThruster; sideThruster] Vec3.zero)
    as [H1 H2].
  split; [exact H1|]. apply H2.
  apply Forall_cons; split; [left; reflexivity|].
  apply Forall_cons; split; [right; repeat constructor|constructor].
Defined.
End ThrusterLoading.

(** ** Fuel accounting over sequences of firings *)

Module BurnFacts.
Import Fuel FuelNotions FuelFacts BurnNotions.
Local Open Scope R_scope.

Lemma updateSatelliteMass_consistent f : massConsistent (updateSatelliteMass f).
Proof. by split. Qed.

Lemma hardware_setActive i b ths :
  hardware (alter (Thruster.set_active b) i ths) = hardware ths.
Proof.
  unfold hardware. apply list_eq. intros j. rewrite !list_lookup_fmap.
  destruct (decide (j = i)) as [->|Hne].
  - rewrite list_lookup_alter_eq. by destruct (ths !! i).
  - by rewrite list_lookup_alter_ne.
Qed.

(** What one firing leaves alone. *)
Lemma fire_static dt i p :
  hardware (thrusters (fire dt i p)) = hardware (thrusters p)
  ∧ dryMass (fuel (fire dt i p)) = dryMass (fuel p)
  ∧ maxFuelMass (fuel (fire dt i p)) = maxFuelMass (fuel p)
  ∧ (massConsistent (fuel p) → massConsistent (fuel (fire dt i p)))
  ∧ ∃ added, forces (fire dt i p) = forces p ++ added
      ∧ (length added ≤ 1)%nat
      ∧ ∀ force point, (force, point) ∈ added →
          ∃ t, thrusters p !! i = Some t
               ∧ force = Vec3.scale (Thruster.thrust t) (Thruster.dir t)
               ∧ point = Thruster.pos t.
Proof.
  assert (∀ b q, q = p →
            hardware (thrusters (setActive i b q)) = hardware (thrusters p)
            ∧ dryMass (fuel (setActive i b q)) = dryMass (fuel p)
            ∧ maxFuelMass (fuel (setActive i b q)) = maxFuelMass (fuel p)
            ∧ (massConsistent (fuel p) →
               massConsistent (fuel (setActive i b q)))
            ∧ ∃ added, forces (setActive i b q) = forces p ++ added
                ∧ (length added ≤ 1)%nat
                ∧ ∀ force point, (force, point) ∈ added →
                    ∃ t, thrusters p !! i = Some t
                      ∧ force = Vec3.scale (Thruster.thrust t) (Thruster.dir t)
                      ∧ point = Thruster.pos t) as Hidle.
  { intros b q ->. unfold setActive. cbn [thrusters fuel forces].
    rewrite hardware_setActive. split_and!; try done.
    exists []. rewrite app_nil_r. split_and!; [done|simpl; lia|].
    intros ?? H. by apply elem_of_nil in H. }
  unfold fire. destruct (thrusters p !! i) as [t|] eqn:Hi.
  - case_decide; [by apply Hidle|].
    destruct (invalid t); [by apply Hidle|].
    cbn [consumeFuel]. 
    assert (∀ b,
      hardware (thrusters (setActive i b
        (mkPropulsion
           (updateSatelliteMass
              (mk (dryMass (fuel p))
                  (Rmax 0 (fuelMass (fuel p)
                           - Thruster.thrust t / (Thruster.isp t * 9.81) * dt))
                  (maxFuelMass (fuel p)) (bodyMass (fuel p))
                  (bodyInvMass (fuel p))))
           (thrusters p)
           (forces p ++ [(Vec3.scale (Thruster.thrust t) (Thruster.dir t),
                          Thruster.pos t)]))))
      = hardware (thrusters p)) as Hhw.
    { intros b. unfold setActive. cbn [thrusters].
      apply hardware_setActive. }
    case_decide; (split_and!; [apply Hhw|done|done|intros _; by split|]);
      (eexists; split; [reflexivity|]; split; [simpl; lia|]);
      intros force point Hin; apply list_elem_of_singleton in Hin;
      injection Hin as -> ->; by exists t.
  - split_and!; try done. exists []. rewrite app_nil_r.
    split_and!; [done|simpl; lia|]. intros ?? H. by apply elem_of_nil in H.
Qed.

Lemma totalBurn_hardware ths1 ths2 ops :
  hardware ths1 = hardware ths2 → totalBurn ths1 ops = totalBurn ths2 ops.
Proof.
  intros Hhw. unfold totalBurn.
  induction ops as [|[dt i] ops IH]; [done|]. cbn [foldr fst snd].
  rewrite IH.
  assert (hardware ths1 !! i = hardware ths2 !! i) as Hi by by rewrite Hhw.
  unfold hardware in Hi. rewrite !list_lookup_fmap in Hi.
  destruct (ths1 !! i) as [t1|], (ths2 !! i) as [t2|]; try done.
  injection Hi as Hp Hd Ht Hs Hx. unfold burn. by rewrite Ht, Hs.
Qed.

Lemma totalBurn_nonneg ths ops :
  Forall sanitized ths → nonnegDts ops → 0 <= totalBurn ths ops.
Proof.
  intros Hs Hd. unfold totalBurn.
  induction Hd as [|[dt i] ops Hdt Hd IH]; cbn [foldr fst snd]; [lra|].
  destruct (ths !! i) as [t|] eqn:Hi; [|done].
  assert (0 <= burn t dt); [|lra].
  apply burn_nonneg; [|done]. eapply Forall_lookup_1; eauto.
Qed.

Lemma fireAll_cons op ops p :
  fireAll (op :: ops) p = fireAll ops (fire op.1 op.2 p).
Proof. done. Qed.

Lemma fireAll_static ops : ∀ p,
  hardware (thrusters (fireAll ops p)) = hardware (thrusters p)
  ∧ dryMass (fuel (fireAll ops p)) = dryMass (fuel p)
  ∧ maxFuelMass (fuel (fireAll ops p)) = maxFuelMass (fuel p)
  ∧ (massConsistent (fuel p) → massConsistent (fuel (fireAll ops p)))
  ∧ ∃ added, forces (fireAll ops p) = forces p ++ added
      ∧ (length added ≤ length ops)%nat
      ∧ ∀ force point, (force, point) ∈ added →
          ∃ t, t ∈ hardware (thrusters p)
               ∧ force = Vec3.scale (Thruster.thrust t) (Thruster.dir t)
               ∧ point = Thruster.pos t.
Proof.
  induction ops as [|[dt i] ops IH]; intros p.
  - split_and!; try done. exists []. rewrite app_nil_r.
    split_and!; [done|done|]. intros ?? H. by apply elem_of_nil in H.
  - rewrite fireAll_cons. cbn [fst snd].
    destruct (fire_static dt i p) as (H1 & H2 & H3 & H4 & a1 & H5 & H6 & H7).
    destruct (IH (fire dt i p)) as (I1 & I2 & I3 & I4 & a2 & I5 & I6 & I7).
    split_and!; try congruence; [tauto|].
    exists (a1 ++ a2). split_and!.
    + by rewrite I5, H5, app_assoc.
    + rewrite length_app. simpl. lia.
    + intros force point Hin. apply elem_of_app in Hin as [Hin|Hin].
      * destruct (H7 force point Hin) as (t & Ht & -> & ->).
        exists (Thruster.set_active false t). split; [|done].
        unfold hardware. apply list_elem_of_fmap. exists t. split; [done|].
        by eapply list_elem_of_lookup_2.
      * rewrite <- H1. by apply I7.
Qed.
End BurnFacts.

Module FuelAccounting.
Import Fuel FuelNotions FuelFacts BurnNotions BurnFacts.
Local Open Scope R_scope.

(** X16.  The fuel left after any sequence of firings is the initial fuel
    minus the burns of the firings that name an existing thruster,
    stopped at zero: max(0, fuelMass - sum of thrust / (isp * 9.81) * dt).
    It depends on the firings only through that sum, not on their order
    or on which firings found the tank empty. *)
Theorem fuel_left_is_initial_minus_total_burn :
  ∀ (ops : list (R * nat)) (p : Propulsion),
    Forall sanitized (thrusters p) → nonnegDts ops →
    0 <= fuelMass (fuel p) →
    fuelMass (fuel (fireAll ops p))
    = Rmax 0 (fuelMass (fuel p) - totalBurn (thrusters p) ops).
Proof.
  induction ops as [|[dt i] ops IH]; intros p Hs Hd Hf.
  - cbn. unfold Rmax. destruct (Rle_dec _ _); lra.
  - apply Forall_cons in Hd as [Hdt Hd]. cbn [fst] in Hdt.
    rewrite fireAll_cons. cbn [fst snd].
    pose proof (fire_fuel dt i p Hs Hdt Hf) as [Hf0 Hf1].
    rewrite (IH (fire dt i p)) by auto using fire_sanitized.
    rewrite (totalBurn_hardware (thrusters (fire dt i p)) (thrusters p))
      by apply fire_static.
    pose proof (totalBurn_nonneg (thrusters p) ops Hs Hd) as HB.
    unfold totalBurn at 2. cbn [foldr fst snd]. fold (totalBurn (thrusters p) ops).
    pose proof (fire_cases dt i p Hs) as Hc.
    destruct (thrusters p !! i) as [t|] eqn:Hi.
    + assert (0 <= burn t dt) as Hb.
      { apply burn_nonneg; [|done]. eapply Forall_lookup_1; eauto. }
      case_decide.
      * rewrite Hc, setActive_fuel.
        unfold Rmax. repeat destruct (Rle_dec _ _); lra.
      * rewrite Hc. unfold Rmax. repeat destruct (Rle_dec _ _); lra.
    + by rewrite Hc.
Qed.

Lemma fuel_left_is_initial_minus_total_burn_witness :
  let ops := [(1 / 60, 0%nat); (1 / 60, 1%nat); (1 / 60, 7%nat)] in
  fuelMass (fuel (fireAll ops samplePropulsion))
  = Rmax 0 (fuelMass (fuel samplePropulsion)
            - totalBurn (thrusters samplePropulsion) ops).
Proof.
  apply (fuel_left_is_initial_minus_total_burn
           [(1 / 60, 0%nat); (1 / 60, 1%nat); (1 / 60, 7%nat)]
           samplePropulsion).
  - repeat constructor; simpl; lra.
  - repeat constructor; simpl; lra.
  - simpl. lra.
Defined.

(** X17.  Firing touches nothing but the fuel mass, the body's mass
    fields, the [active] flags and the list of applied forces: the
    thrusters' positions, directions, thrust, isp and indices, the dry
    mass and the tank size stay as they were.  Each firing applies at most
    one force, and every applied force is thrust times direction of a
    thruster, at that thruster's position.  The body's mass stays equal
    to dry mass plus fuel mass, with its inverse, once it is. *)
Theorem firing_changes_only_fuel_flags_and_forces :
  ∀ (ops : list (R * nat)) (p : Propulsion),
    hardware (thrusters (fireAll ops p)) = hardware (thrusters p)
    ∧ dryMass (fuel (fireAll ops p)) = dryMass (fuel p)
    ∧ maxFuelMass (fuel (fireAll ops p)) = maxFuelMass (fuel p)
    ∧ (massConsistent (fuel p) → massConsistent (fuel (fireAll ops p)))
    ∧ ∃ added, forces (fireAll ops p) = forces p ++ added
        ∧ (length added ≤ length ops)%nat
        ∧ ∀ force point, (force, point) ∈ added →
            ∃ t, t ∈ hardware (thrusters p)
                 ∧ force = Vec3.scale (Thruster.thrust t) (Thruster.dir t)
                 ∧ point = Thruster.pos t.
Proof. intros ops p. apply fireAll_static. Qed.

Lemma firing_changes_only_fuel_flags_and_forces_witness :
  massConsistent
    (fuel (fireAll [(1 / 60, 0%nat); (1 / 60, 1%nat)] samplePropulsion)).
Proof.
  apply (firing_changes_only_fuel_flags_and_forces
           [(1 / 60, 0%nat); (1 / 60, 1%nat)] samplePropulsion).
  split; simpl; [lra|]. rewrite decide_True by lra. f_equal. lra.
Defined.

(** X18.  With a positive tank size and a fuel mass between 0 and the tank
    size, the fuel percentage of [getFuelStatus] stays between 0 and 100
    through any sequence of firings and never rises; [resetFuel] then
    gives the state it gives before any firing - a full tank, a body mass
    of dry mass plus tank size - and the percentage reads 100. *)
Theorem fuel_percentage_stays_between_0_and_100 :
  ∀ (ops : list (R * nat)) (p : Propulsion),
    Forall sanitized (thrusters p) → nonnegDts ops →
    0 < maxFuelMass (fuel p) →
    0 <= fuelMass (fuel p) <= maxFuelMass (fuel p) →
    let percentage f :=
      FuelStatus.fuelPercentage (FuelStatus.getFuelStatus f) in
    0 <= percentage (fuel (fireAll ops p)) <= percentage (fuel p)
    ∧ percentage (fuel p) <= 100
    ∧ resetFuel (fuel (fireAll ops p)) = resetFuel (fuel p)
    ∧ fuelMass (resetFuel (fuel p)) = maxFuelMass (fuel p)
    ∧ bodyMass (resetFuel (fuel p)) = dryMass (fuel p) + maxFuelMass (fuel p)
    ∧ percentage (resetFuel (fuel (fireAll ops p))) = 100.
Proof.
  intros ops p Hs Hd Hmax [Hf0 Hf1] percentage.
  destruct (fireAll_fuel ops p Hs Hd Hf0) as [_ [Hg0 Hg1]].
  destruct (fireAll_static ops p) as (_ & Hdry & Hm & _).
  assert (resetFuel (fuel (fireAll ops p)) = resetFuel (fuel p)) as Hr.
  { unfold resetFuel, updateSatelliteMass.
    cbn [dryMass fuelMass maxFuelMass]. by rewrite Hdry, Hm. }
  assert (percentage (resetFuel (fuel p)) = 100) as H100.
  { unfold percentage, FuelStatus.getFuelStatus, resetFuel.
    cbn [FuelStatus.fuelPercentage updateSatelliteMass fuelMass maxFuelMass].
    field. lra. }
  split; [|split; [|split_and!; try done; by rewrite Hr]].
  - unfold percentage, FuelStatus.getFuelStatus.
    cbn [FuelStatus.fuelPercentage]. rewrite Hm.
    set (M := maxFuelMass (fuel p)) in *.
    set (f := fuelMass (fuel p)) in *.
    set (g := fuelMass (fuel (fireAll ops p))) in *.
    clearbody M f g.
    assert (0 < / M) as Hinv by by apply Rinv_0_lt_compat.
    unfold Rdiv. split; nra.
  - unfold percentage, FuelStatus.getFuelStatus.
    cbn [FuelStatus.fuelPercentage].
    set (M := maxFuelMass (fuel p)) in *.
    set (f := fuelMass (fuel p)) in *. clearbody M f.
    assert (0 < / M) as Hinv by by apply Rinv_0_lt_compat.
    assert (M * / M = 1) as HM by (field; lra).
    unfold Rdiv. nra.
Qed.

Lemma fuel_percentage_stays_between_0_and_100_witness :
  let ops := [(1 / 60, 0%nat); (1 / 60, 1%nat)] in
  let p := samplePropulsion in
  let percentage f :=
    FuelStatus.fuelPercentage (FuelStatus.getFuelStatus f) in
  0 <= percentage (fuel (fireAll ops p)) <= percentage (fuel p)
  ∧ percentage (fuel p) <= 100
  ∧ resetFuel (fuel (fireAll ops p)) = resetFuel (fuel p)
  ∧ fuelMass (resetFuel (fuel p)) = maxFuelMass (fuel p)
  ∧ bodyMass (resetFuel (fuel p)) = dryMass (fuel p) + maxFuelMass (fuel p)
  ∧ percentage (resetFuel (fuel (fireAll ops p))) = 100.
Proof.
  apply (fuel_percentage_stays_between_0_and_100
           [(1 / 60, 0%nat); (1 / 60, 1%nat)] samplePropulsion).
  - repeat constructor; simpl; lra.
  - repeat constructor; simpl; lra.
  - simpl. lra.
  - simpl. lra.
Defined.
End FuelAccounting.

(** ** Invariants of a session *)

Module SessionFacts.
Import Docking DockingNotions DockingFacts SessionNotions.
Local Open Scope R_scope.

Section WithSetup.
Variable setup : Setup.

Lemma initial_coherent : coherent (initialSim setup).
Proof. by split. Qed.

(** A frame, field by field. *)
Lemma animate_fields now b s :
  animate setup now b s
  = let d := isInDockingZone setup (observed s b) in
    let latch := hasLeftDockingBoxOnce s || negb (inBox d) in
    let docks :=
      negb (isDocked s) && canDock s && latch && allCriteria d in
    mkSim (if docks then Body.stop (observed s b) else observed s b)
          (isDocked s || docks)
          (paused s || docks)
          (canDock s || negb (inBox d))
          latch
          (undockTime s) (pausedStartTime s) (accumulatedPausedTime s)
          (if docks then
             default now (pausedStartTime s) - timeOf (undockTime s)
             - accumulatedPausedTime s
           else lastDockedTime s).
Proof.
  rewrite animate_observed. unfold allCriteria. cbv zeta.
  destruct (isDocked s), (canDock s), (hasLeftDockingBoxOnce s), (paused s);
    status_cases; try reflexivity;
    by destruct (pausedStartTime s).
Qed.

Lemma step_coherent s e : coherent s → coherent (step setup s e).
Proof.
  intros [H1 H2 H3 H4 H5 H6 H7]. destruct e as [now| | | |now b]; cbn [step].
  - rewrite UndockClock.togglePause_fields. cbv zeta.
    destruct s as [body [] [] [] [] u [ps|] acc l];
      cbn [satBody isDocked paused canDock hasLeftDockingBoxOnce undockTime
           pausedStartTime accumulatedPausedTime lastDockedTime andb orb negb]
        in *;
      split;
      cbn [satBody isDocked paused canDock hasLeftDockingBoxOnce undockTime
           pausedStartTime accumulatedPausedTime lastDockedTime andb orb negb];
      intros; try done; try (by eexists); auto.
  - by split.
  - unfold stopEverything. split;
      cbn [satBody isDocked paused canDock hasLeftDockingBoxOnce undockTime
           pausedStartTime accumulatedPausedTime lastDockedTime];
      auto. intros _. by split.
  - by split.
  - rewrite animate_fields. cbv zeta. unfold observed.
    set (d := isInDockingZone setup _). clearbody d.
    destruct s as [body [] [] [] [] u [ps|] acc l];
      cbn [satBody isDocked paused canDock hasLeftDockingBoxOnce undockTime
           pausedStartTime accumulatedPausedTime lastDockedTime andb orb negb]
        in *;
      destruct (inBox d), (allCriteria d);
      split;
      cbn [satBody isDocked paused canDock hasLeftDockingBoxOnce undockTime
           pausedStartTime accumulatedPausedTime lastDockedTime andb orb negb];
      intros; try done; try (by eexists); auto; try (by split);
      try (exfalso; by specialize (H1 eq_refl)).
Qed.

Lemma run_coherent es : ∀ s, coherent s → coherent (run setup es s).
Proof.
  induction es as [|e es IH]; intros s Hs; [done|].
  cbn [run foldl]. apply IH. by apply step_coherent.
Qed.

Lemma reachable_coherent s : reachable setup s → coherent s.
Proof. intros [es ->]. apply run_coherent, initial_coherent. Qed.

Lemma reachable_step s e : reachable setup s → reachable setup (step setup s e).
Proof.
  intros [es ->]. exists (es ++ [e]). unfold run. by rewrite foldl_app.
Qed.
End WithSetup.
End SessionFacts.

Module SessionInvariants.
Import Docking DockingNotions DockingFacts SessionNotions SessionFacts.
Local Open Scope R_scope.

(** X19.  In every state a session can reach (any sequence of pause keys,
    resets, space bars, other keys and frames from the initial state) a
    docked vehicle is paused and at rest: its linear and angular
    velocities are zero. *)
Theorem docked_vehicle_is_paused_and_at_rest :
  ∀ (setup : Setup) (es : list Event),
    let s := run setup es (initialSim setup) in
    isDocked s = true →
    paused s = true
    ∧ Body.velocity (satBody s) = Vec3.zero
    ∧ Body.angularVelocity (satBody s) = Vec3.zero.
Proof.
  intros setup es s Hd.
  destruct (run_coherent setup es _ (initial_coherent setup))
    as [H1 H2 _ _ _ _ _].
  split; [by apply H1|]. by apply H2.
Qed.

Lemma docked_vehicle_is_paused_and_at_rest_witness :
  let s := run defaultSetup [KeyPause 1000; KeyReset]
             (initialSim defaultSetup) in
  paused s = true
  ∧ Body.velocity (satBody s) = Vec3.zero
  ∧ Body.angularVelocity (satBody s) = Vec3.zero.
Proof.
  apply (docked_vehicle_is_paused_and_at_rest
           defaultSetup [KeyPause 1000; KeyReset]).
  reflexivity.
Defined.

(** X20.  In every reachable state [canDock] implies the latch
    [hasLeftDockingBoxOnce], and an undocked vehicle has the latch set
    and an undock time: of the conditions of docking the latch is never
    the one that decides.  The pause bookkeeping is consistent while
    undocked: [pausedStartTime] is null while running and set while
    paused. *)
Theorem latch_never_decides_docking :
  ∀ (setup : Setup) (es : list Event),
    let s := run setup es (initialSim setup) in
    (canDock s = true → hasLeftDockingBoxOnce s = true)
    ∧ (isDocked s = false →
       hasLeftDockingBoxOnce s = true ∧ is_Some (undockTime s)
       ∧ (paused s = true → is_Some (pausedStartTime s)))
    ∧ (paused s = false → pausedStartTime s = None)
    ∧ ∀ now b,
        isDocked (animate setup now b s)
        = isDocked s
          || canDock s && allCriteria (isInDockingZone setup (observed s b)).
Proof.
  intros setup es s.
  destruct (run_coherent setup es _ (initial_coherent setup))
    as [H1 H2 H3 H4 H5 H6 H7]. fold s in H1, H2, H3, H4, H5, H6, H7.
  split_and!; auto.
  intros now b. rewrite animate_fields. cbv zeta.
  cbn [isDocked]. clear H1 H2 H3 H4 H5.
  destruct (isDocked s), (canDock s), (hasLeftDockingBoxOnce s);
    cbn [andb orb negb]; try done;
    try (by specialize (H6 eq_refl)); try (by specialize (H7 eq_refl)).
Qed.

Lemma latch_never_decides_docking_witness :
  let s := run defaultSetup [KeyPause 1000; Frame 60000 outsideBody]
             (initialSim defaultSetup) in
  hasLeftDockingBoxOnce s = true ∧ is_Some (undockTime s)
  ∧ (paused s = true → is_Some (pausedStartTime s)).
Proof.
  apply (latch_never_decides_docking
           defaultSetup [KeyPause 1000; Frame 60000 outsideBody]).
  cbn [run foldl step].
  rewrite (UndockClock.togglePause_fields 1000). unfold initialSim.
  cbv zeta. UndockClock.sim_fields.
  by rewrite (frame_outside defaultSetup 60000 outsideBody);
    [|reflexivity|exact SamplePoses.status_outside].
Defined.
End SessionInvariants.

(** ** The clock over a session *)

Module ClockFacts.
Import Docking DockingNotions DockingFacts SessionNotions SessionFacts.
Local Open Scope R_scope.

Ltac fields :=
  cbn [satBody isDocked paused canDock hasLeftDockingBoxOnce undockTime
       pausedStartTime accumulatedPausedTime lastDockedTime andb orb negb].

Section WithSetup.
Variable setup : Setup.

(** A frame that leaves the vehicle undocked writes none of the clock's
    variables. *)
Lemma frame_keeps_clock now b s t :
  isDocked (animate setup now b s) = false →
  updateClock t (animate setup now b s) = updateClock t s.
Proof.
  rewrite animate_fields. cbv zeta. fields.
  set (docks := negb (isDocked s) && _ && _ && _). clearbody docks.
  intros H. apply orb_false_elim in H as [Hd ->].
  unfold updateClock. fields. by rewrite !orb_false_r.
Qed.

(** A frame on a docked vehicle changes neither the docked flag nor the
    clock's variables. *)
Lemma frame_docked now b s t :
  isDocked s = true →
  isDocked (animate setup now b s) = true
  ∧ undockTime (animate setup now b s) = undockTime s
  ∧ updateClock t (animate setup now b s) = updateClock t s.
Proof.
  intros Hd. rewrite animate_fields. cbv zeta. fields. rewrite Hd. fields.
  unfold updateClock. fields. by rewrite Hd.
Qed.

Lemma quiet_step s e t :
  isPauseKey e = false → e ≠ KeyReset → isDocked s = true →
  isDocked (step setup s e) = true
  ∧ updateClock t (step setup s e) = updateClock t s.
Proof.
  intros Hp Hr Hd. destruct e as [now| | | |now b]; cbn [step]; try done.
  destruct (frame_docked now b s t Hd) as (H1 & _ & H2). done.
Qed.

Lemma quiet_run es : ∀ s t,
  Forall (λ e, isPauseKey e = false ∧ e ≠ KeyReset) es →
  isDocked s = true →
  isDocked (run setup es s) = true
  ∧ updateClock t (run setup es s) = updateClock t s.
Proof.
  induction es as [|e es IH]; intros s t Hes Hd; [done|].
  apply Forall_cons in Hes as [[Hp Hr] Hes].
  destruct (quiet_step s e t Hp Hr Hd) as [Hd' Hc].
  cbn [run foldl]. destruct (IH (step setup s e) t Hes Hd') as [H1 H2].
  unfold run in *. by rewrite H1, H2.
Qed.

Lemma docked_zero_run es : ∀ s,
  Forall (λ e, isPauseKey e = false) es →
  isDocked s = true → undockTime s = None →
  isDocked (run setup es s) = true ∧ undockTime (run setup es s) = None.
Proof.
  induction es as [|e es IH]; intros s Hes Hd Hu; [done|].
  apply Forall_cons in Hes as [Hp Hes]. cbn [run foldl].
  apply IH; [done|..]; destruct e as [now| | | |now b]; cbn [step]; try done.
  - by destruct (frame_docked now b s 0 Hd) as (? & _ & _).
  - destruct (frame_docked now b s 0 Hd) as (_ & -> & _). done.
Qed.
End WithSetup.
End ClockFacts.

Module SessionClock.
Import Docking DockingNotions DockingFacts SessionNotions SessionFacts.
Import ClockFacts.
Local Open Scope R_scope.

(** X21.  From the start of a session, and from every reset, the clock
    reads 0 and the vehicle stays docked until the pause key is pressed:
    frames, space bars, other keys and further resets change neither. *)
Theorem clock_reads_zero_until_the_undock :
  ∀ (setup : Setup) (s0 : Sim) (es : list Event) (now : R),
    Forall (λ e, isPauseKey e = false) es →
    let fromStart := run setup es (initialSim setup) in
    let fromReset := run setup es (resetSimulation setup s0) in
    (isDocked fromStart = true ∧ updateClock now fromStart = 0)
    ∧ (isDocked fromReset = true ∧ updateClock now fromReset = 0).
Proof.
  intros setup s0 es now Hes fromStart fromReset.
  destruct (docked_zero_run setup es (initialSim setup) Hes eq_refl eq_refl)
    as [H1 H2].
  destruct (docked_zero_run setup es (resetSimulation setup s0) Hes
              eq_refl eq_refl) as [H3 H4].
  unfold updateClock, fromStart, fromReset. by rewrite H1, H2, H3, H4.
Qed.

Lemma clock_reads_zero_until_the_undock_witness :
  let es := [Frame 16 outsideBody; KeySpace; KeyReset; Frame 32 fastBody] in
  let fromStart := run defaultSetup es (initialSim defaultSetup) in
  let fromReset :=
    run defaultSetup es
      (resetSimulation defaultSetup (initialSim defaultSetup)) in
  (isDocked fromStart = true ∧ updateClock 5000 fromStart = 0)
  ∧ (isDocked fromReset = true ∧ updateClock 5000 fromReset = 0).
Proof.
  apply (clock_reads_zero_until_the_undock
           defaultSetup (initialSim defaultSetup)
           [Frame 16 outsideBody; KeySpace; KeyReset; Frame 32 fastBody]
           5000).
  repeat constructor.
Defined.

(** X22.  Docking freezes the clock at the reading of the docking frame:
    when a frame at time [now] docks a vehicle in flight, the clock shows
    from then on, at whatever later time and through any later frames,
    space bars and other keys, what it showed at [now] just before. *)
Theorem docking_freezes_the_clock :
  ∀ (setup : Setup) (es later : list Event) (now : R) (b : Body.t),
    let s := run setup es (initialSim setup) in
    let docked := animate setup now b s in
    isDocked s = false →
    isDocked docked = true →
    Forall (λ e, isPauseKey e = false ∧ e ≠ KeyReset) later →
    ∀ t, updateClock t (run setup later docked) = updateClock now s
         ∧ isDocked (run setup later docked) = true.
Proof.
  intros setup es later now b s docked Hd Hdock Hlater t.
  destruct (quiet_run setup later docked t Hlater Hdock) as [H1 ->].
  split; [|done].
  destruct (run_coherent setup es _ (initial_coherent setup))
    as [_ _ H3 _ H5 H6 H7]. fold s in H3, H5, H6, H7.
  destruct (H5 Hd) as [u Hu].
  revert Hdock. unfold docked. rewrite animate_fields. cbv zeta.
  set (d := isInDockingZone setup _). clearbody d.
  unfold updateClock. fields. rewrite Hd, Hu. fields.
  destruct (canDock s && (hasLeftDockingBoxOnce s || negb (inBox d))
            && allCriteria d); [|done].
  intros _. cbn [timeOf default from_option].
  destruct (paused s) eqn:Hp.
  - by destruct (pausedStartTime s).
  - by rewrite (H3 eq_refl).
Qed.

Lemma docking_freezes_the_clock_witness :
  let es := [KeyPause 1000; Frame 60000 outsideBody] in
  let s := run defaultSetup es (initialSim defaultSetup) in
  let docked :=
    animate defaultSetup 120000 (initialBody defaultSetup) s in
  updateClock 500000 (run defaultSetup [KeySpace] docked)
  = updateClock 120000 s
  ∧ isDocked (run defaultSetup [KeySpace] docked) = true.
Proof.
  assert (run defaultSetup [KeyPause 1000; Frame 60000 outsideBody]
            (initialSim defaultSetup)
          = mkSim outsideBody false false true true (Some 1000) None 0 0)
    as Hs.
  { cbn [run foldl step].
    rewrite (UndockClock.togglePause_fields 1000). unfold initialSim.
    cbv zeta. fields.
    by rewrite (frame_outside defaultSetup 60000 outsideBody);
      [|reflexivity|exact SamplePoses.status_outside]. }
  apply (docking_freezes_the_clock
           defaultSetup [KeyPause 1000; Frame 60000 outsideBody] [KeySpace]
           120000 (initialBody defaultSetup)).
  - by rewrite Hs.
  - rewrite Hs.
    rewrite (frame_docking defaultSetup 120000 (initialBody defaultSetup));
      [done|done|done|done|exact SamplePoses.status_reference].
  - repeat constructor. discriminate.
Defined.

(** X23.  In flight the clock is a stopwatch.  In every reachable
    undocked state it advances at the rate of wall time while the
    simulation runs and stands still while it is paused, and no event
    that leaves the vehicle undocked makes it jump: the reading at the
    time of a pause key is the same before and after the key, and frames,
    space bars and other keys do not touch it.  An undock from a docked
    state whose [pausedStartTime] is null starts it at 0. *)
Theorem flight_clock_is_a_stopwatch :
  ∀ (setup : Setup) (es : list Event),
    let s := run setup es (initialSim setup) in
    (isDocked s = false →
     (paused s = false →
      ∀ t1 t2, updateClock t2 s - updateClock t1 s = t2 - t1)
     ∧ (paused s = true → ∀ t1 t2, updateClock t2 s = updateClock t1 s)
     ∧ (∀ e t, e ≠ KeyReset → happensAt t e →
          isDocked (step setup s e) = false →
          updateClock t (step setup s e) = updateClock t s))
    ∧ (isDocked s = true → pausedStartTime s = None →
       ∀ t, isDocked (togglePause t s) = false
            ∧ paused (togglePause t s) = false
            ∧ updateClock t (togglePause t s) = 0).
Proof.
  intros setup es s.
  destruct (run_coherent setup es _ (initial_coherent setup))
    as [H1 _ H3 H4 H5 _ _]. fold s in H1, H3, H4, H5.
  split.
  - intros Hd. destruct (H5 Hd) as [u Hu]. split_and!.
    + intros Hp t1 t2. unfold updateClock.
      rewrite Hu, Hd, (H3 Hp). lra.
    + intros Hp t1 t2. unfold updateClock.
      destruct (H4 Hd Hp) as [st Hst]. by rewrite Hu, Hd, Hst, Hp.
    + intros e t Hr Ht Hstay.
      destruct e as [now| | | |now b]; cbn [step] in *; try done.
      * cbn [happensAt] in Ht. subst now.
        rewrite UndockClock.togglePause_fields. cbv zeta.
        unfold updateClock. fields. rewrite Hd, Hu. fields.
        destruct (paused s) eqn:Hp.
        -- destruct (H4 Hd eq_refl) as [st ->]. fields. lra.
        -- rewrite (H3 eq_refl). fields. lra.
      * by apply frame_keeps_clock.
  - intros Hd Hps t. rewrite UndockClock.togglePause_fields. cbv zeta.
    unfold updateClock. fields. rewrite Hd, (H1 Hd), Hps. fields.
    split_and!; [done|done|lra].
Qed.

Lemma flight_clock_is_a_stopwatch_witness :
  let s := run defaultSetup [KeyPause 1000] (initialSim defaultSetup) in
  (paused s = false →
   ∀ t1 t2, updateClock t2 s - updateClock t1 s = t2 - t1)
  ∧ (paused s = true → ∀ t1 t2, updateClock t2 s = updateClock t1 s)
  ∧ (∀ e t, e ≠ KeyReset → happensAt t e →
       isDocked (step defaultSetup s e) = false →
       updateClock t (step defaultSetup s e) = updateClock t s).
Proof.
  apply (flight_clock_is_a_stopwatch defaultSetup [KeyPause 1000]).
  reflexivity.
Defined.
End SessionClock.

(** ** The docking criteria *)

Module DockingCriteria.
Import Docking DockingNotions SessionNotions.
Local Open Scope R_scope.

Lemma abs_le_sqrt_sum (a rest : R) : 0 <= rest → Rabs a <= sqrt (a ^ 2 + rest).
Proof.
  intros Hrest. rewrite <- sqrt_Rsqr_abs. apply sqrt_le_1_alt.
  unfold Rsqr. lra.
Qed.

(** X24.  Of the two speed limits of the docking zone only the XZ limit
    decides: a vehicle whose speed in the XZ plane is within 0.1 has a Z
    velocity within the Z limit of 1.0, so [withinSpeedLimits] holds
    exactly when sqrt(vx^2 + vz^2) <= 0.1.  The velocity along Y is not
    limited at all. *)
Theorem xz_speed_limit_alone_decides :
  ∀ (setup : Setup) (b : Body.t),
    withinSpeedLimits (isInDockingZone setup b)
    = bool_decide (sqrt (Vec3.x (Body.velocity b) ^ 2
                         + Vec3.z (Body.velocity b) ^ 2) <= MAX_XZ_SPEED)
    ∧ ∀ vy : R,
        withinSpeedLimits (isInDockingZone setup (withVelocityY vy b))
        = withinSpeedLimits (isInDockingZone setup b).
Proof.
  intros setup b. split; [|done].
  unfold isInDockingZone. cbn [withinSpeedLimits].
  set (vx := Vec3.x (Body.velocity b)).
  set (vz := Vec3.z (Body.velocity b)).
  case_bool_decide as Hxz; [|done]. cbn [andb].
  apply bool_decide_eq_true_2.
  pose proof (abs_le_sqrt_sum vz (vx ^ 2)) as Ha.
  replace (vz ^ 2 + vx ^ 2) with (vx ^ 2 + vz ^ 2) in Ha by ring.
  assert (0 <= vx ^ 2) as Hsq by (simpl; nra).
  specialize (Ha Hsq). pose proof (Rle_abs vz).
  unfold MAX_XZ_SPEED, MAX_Z_SPEED in *. lra.
Qed.

End DockingCriteria.

(** ** The actuators in a frame *)

Module FlightFacts.
Import AttitudeControl Fuel Flight FlightNotions.
Local Open Scope R_scope.

End FlightFacts.

Module FrameActuation.
Import AttitudeControl Fuel Flight FlightNotions FlightFacts.
Local Open Scope R_scope.






End FrameActuation.

(** ** Fine control of the keys *)

Module FineControl.
Import Flight FlightNotions.
Local Open Scope R_scope.

Lemma keydown_fresh key now i :
  key ≠ "CapsLock" → fineControlMode i = true →
  ThrusterSetup.toLowerCase key ∈ channelOrder →
  ThrusterSetup.toLowerCase key ∉ fineControlProcessedKeys i →
  keydown key now i
  = let k := ThrusterSetup.toLowerCase key in
    mkInput (keys i) true ({[k]} ∪ fineControlKeys i)
            ({[k]} ∪ fineControlProcessedKeys i)
            (if timedFiringEnabled i && noStartTime i k
             then <[k := now]> (fineControlKeyStartTimes i)
             else fineControlKeyStartTimes i)
            (timedFiringEnabled i) (firingDuration i) (torquePercentage i).
Proof.
  intros Hcaps Hfine Hchan Hfresh. unfold keydown.
  rewrite bool_decide_eq_false_2 by done. rewrite Hfine.
  rewrite (bool_decide_eq_true_2 _ Hchan). cbn [andb].
  by rewrite (bool_decide_eq_false_2 _ Hfresh).
Qed.

Lemma keydown_repeat key now i :
  key ≠ "CapsLock" → fineControlMode i = true →
  ThrusterSetup.toLowerCase key ∈ channelOrder →
  ThrusterSetup.toLowerCase key ∈ fineControlProcessedKeys i →
  keydown key now i = i.
Proof.
  intros Hcaps Hfine Hchan Hdone. unfold keydown.
  rewrite bool_decide_eq_false_2 by done. rewrite Hfine.
  rewrite (bool_decide_eq_true_2 _ Hchan). cbn [andb].
  by rewrite (bool_decide_eq_true_2 _ Hdone).
Qed.

(** X28.  In fine-control mode without timed firing one press of a
    channel key is one frame of firing: the key counts as pressed from the
    keydown to the end of the next frame, which clears every fine-control
    key; further keydown events of the held key (auto-repeat) do not press
    it again; after a keyup the next keydown does. *)
Theorem fine_control_press_is_one_pulse :
  ∀ (i : Input) (key : string) (now : R),
    let k := ThrusterSetup.toLowerCase key in
    key ≠ "CapsLock" → k ∈ channelOrder →
    fineControlMode i = true → timedFiringEnabled i = false →
    k ∉ fineControlProcessedKeys i →
    let pressed := keydown key now i in
    let next := clearFineControlKeys pressed in
    keyIsPressed pressed k = true
    ∧ (∀ k', keyIsPressed next k' = false)
    ∧ (∀ later, keydown key later next = next)
    ∧ (∀ later, keyIsPressed (keydown key later (keyup key next)) k = true).
Proof.
  intros i key now k Hcaps Hchan Hfine Htimed Hfresh pressed next.
  assert (pressed
          = mkInput (keys i) true ({[k]} ∪ fineControlKeys i)
                    ({[k]} ∪ fineControlProcessedKeys i)
                    (fineControlKeyStartTimes i) false (firingDuration i)
                    (torquePercentage i)) as Hpressed.
  { unfold pressed. rewrite keydown_fresh by done. cbv zeta. fold k.
    by rewrite Htimed. }
  assert (next
          = mkInput (keys i) true ∅ ({[k]} ∪ fineControlProcessedKeys i)
                    (fineControlKeyStartTimes i) false (firingDuration i)
                    (torquePercentage i)) as Hnext.
  { unfold next. by rewrite Hpressed. }
  split_and!.
  - rewrite Hpressed. unfold keyIsPressed. cbn [fineControlMode fineControlKeys].
    apply bool_decide_eq_true_2. apply elem_of_union_l. by apply elem_of_singleton.
  - intros k'. rewrite Hnext. unfold keyIsPressed.
    cbn [fineControlMode fineControlKeys].
    apply bool_decide_eq_false_2. apply not_elem_of_empty.
  - intros later. apply keydown_repeat; try done; rewrite Hnext; [done|].
    cbn [fineControlProcessedKeys]. apply elem_of_union_l.
    by apply elem_of_singleton.
  - intros later. rewrite Hnext. unfold keyup. fold k.
    cbn [fineControlMode keys fineControlKeys fineControlProcessedKeys
         fineControlKeyStartTimes timedFiringEnabled firingDuration
         torquePercentage].
    rewrite keydown_fresh; try done.
    + cbv zeta. unfold keyIsPressed. cbn [fineControlMode fineControlKeys].
      fold k. apply bool_decide_eq_true_2. apply elem_of_union_l.
      by apply elem_of_singleton.
    + fold k. cbn [fineControlProcessedKeys].
      intros Hin. apply elem_of_difference in Hin as [_ Hin].
      apply Hin. by apply elem_of_singleton.
Qed.

Lemma fine_control_press_is_one_pulse_witness :
  let pressed := keydown "W" 1000 fineInput in
  let next := clearFineControlKeys pressed in
  keyIsPressed pressed "w" = true
  ∧ (∀ k', keyIsPressed next k' = false)
  ∧ (∀ later, keydown "W" later next = next)
  ∧ (∀ later, keyIsPressed (keydown "W" later (keyup "W" next)) "w" = true).
Proof.
  apply (fine_control_press_is_one_pulse fineInput "W" 1000).
  - discriminate.
  - unfold channelOrder. simpl. left.
  - reflexivity.
  - reflexivity.
  - apply not_elem_of_empty.
Defined.

(** X29.  With timed firing a press lasts the firing duration: a channel
    key pressed at [t0] counts as pressed in every frame whose time [t]
    has (t - t0) / 1000 below the firing duration, whether or not the key
    is still held, and the first frame at or past the duration drops
    it. *)
Theorem timed_press_lasts_the_firing_duration :
  ∀ (i : Input) (key : string) (t0 t : R),
    let k := ThrusterSetup.toLowerCase key in
    key ≠ "CapsLock" → k ∈ channelOrder →
    fineControlMode i = true → timedFiringEnabled i = true →
    k ∉ fineControlProcessedKeys i → noStartTime i k = true →
    let pressed := keydown key t0 i in
    let frame input := clearFineControlKeys (expireTimedKeys t input) in
    keyIsPressed (frame pressed) k
    = bool_decide ((t - t0) / 1000 < firingDuration i)
    ∧ keyIsPressed (frame (keyup key pressed)) k
      = bool_decide ((t - t0) / 1000 < firingDuration i).
Proof.
  intros i key t0 t k Hcaps Hchan Hfine Htimed Hfresh Hstart pressed frame.
  assert (pressed
          = mkInput (keys i) true ({[k]} ∪ fineControlKeys i)
                    ({[k]} ∪ fineControlProcessedKeys i)
                    (<[k := t0]> (fineControlKeyStartTimes i))
                    true (firingDuration i) (torquePercentage i)) as Hpressed.
  { unfold pressed. rewrite keydown_fresh by done. cbv zeta. fold k.
    by rewrite Htimed, Hstart. }
  assert (∀ processed,
            keyIsPressed
              (frame (mkInput (keys i) true ({[k]} ∪ fineControlKeys i)
                              processed
                              (<[k := t0]> (fineControlKeyStartTimes i))
                              true (firingDuration i) (torquePercentage i))) k
            = bool_decide ((t - t0) / 1000 < firingDuration i)) as Hframe.
  { intros processed. unfold frame, expireTimedKeys, clearFineControlKeys.
    cbn [fineControlMode timedFiringEnabled andb negb keys fineControlKeys
         fineControlProcessedKeys fineControlKeyStartTimes firingDuration
         torquePercentage].
    unfold keyIsPressed. cbn [fineControlMode fineControlKeys].
    apply bool_decide_ext. rewrite elem_of_difference, elem_of_dom.
    split.
    - intros [_ Hnot]. destruct (decide ((t - t0) / 1000 < firingDuration i))
        as [|Hge]; [done|].
      exfalso. apply Hnot. exists t0. apply map_lookup_filter_Some.
      split; [apply lookup_insert_eq|]. cbn [snd]. lra.
    - intros Hlt. split.
      + apply elem_of_union_l. by apply elem_of_singleton.
      + intros [x Hx]. apply map_lookup_filter_Some in Hx as [Hx Hexp].
        rewrite lookup_insert_eq in Hx. injection Hx as <-.
        cbn [snd] in Hexp. lra. }
  split.
  - rewrite Hpressed. apply Hframe.
  - rewrite Hpressed. unfold keyup. cbn [fineControlMode keys fineControlKeys
      fineControlProcessedKeys fineControlKeyStartTimes timedFiringEnabled
      firingDuration torquePercentage].
    apply Hframe.
Qed.

Lemma timed_press_lasts_the_firing_duration_witness :
  let pressed := keydown "w" 1000 timedInput in
  let frame input := clearFineControlKeys (expireTimedKeys 1050 input) in
  keyIsPressed (frame pressed) "w"
  = bool_decide ((1050 - 1000) / 1000 < firingDuration timedInput)
  ∧ keyIsPressed (frame (keyup "w" pressed)) "w"
    = bool_decide ((1050 - 1000) / 1000 < firingDuration timedInput).
Proof.
  apply (timed_press_lasts_the_firing_duration timedInput "w" 1000 1050).
  - discriminate.
  - unfold channelOrder. simpl. left.
  - reflexivity.
  - reflexivity.
  - apply not_elem_of_empty.
  - reflexivity.
Defined.
End FineControl.

(** ** The clock display *)

Module ClockDisplayFacts.
Import ClockDisplay.
Local Open Scope R_scope.

(** X30.  For a non-negative elapsed time the fields of the clock display
    are the mixed-radix digits of the whole number of elapsed
    milliseconds: minutes and seconds are between 0 and 59, milliseconds
    between 0 and 999, hours are not negative, and
    3600000 h + 60000 m + 1000 s + ms is the floor of the elapsed
    milliseconds.  The text written when the vehicle has never undocked
    is the text of an elapsed time of 0. *)
Theorem clock_fields_are_the_digits_of_the_elapsed_time :
  ∀ elapsedMilliseconds : R,
    0 <= elapsedMilliseconds →
    let p := clockParts elapsedMilliseconds in
    ((0 ≤ hours p) ∧ (0 ≤ minutes p < 60) ∧ (0 ≤ seconds p < 60)
     ∧ (0 ≤ milliseconds p < 1000)
     ∧ 3600000 * hours p + 60000 * minutes p + 1000 * seconds p
       + milliseconds p
       = Zfloor elapsedMilliseconds)%Z
    ∧ (elapsedMilliseconds = 0 → clockText elapsedMilliseconds = "0:00:00.000").
Proof.
  intros E HE p.
  assert ((0 ≤ hours p) ∧ (0 ≤ minutes p < 60) ∧ (0 ≤ seconds p < 60)
          ∧ (0 ≤ milliseconds p < 1000)
          ∧ 3600000 * hours p + 60000 * minutes p + 1000 * seconds p
            + milliseconds p
            = Zfloor E)%Z as Hparts.
  { unfold p, clockParts, floor, rem. cbv zeta.
    cbn [hours minutes seconds milliseconds].
    set (es := E / 1000).
    assert (0 <= es) as Hes by (unfold es; lra).
    rewrite (decide_True (P := es / 3600 >= 0)) by lra.
    rewrite (decide_True (P := es / 60 >= 0)) by lra.
    rewrite (decide_True (P := es >= 0)) by lra.
    set (a := Zfloor (es / 3600)). set (b := Zfloor (es / 60)).
    set (c := Zfloor es).
    set (m := Zfloor ((es - 3600 * IZR a) / 60)).
    set (s := Zfloor (es - 60 * IZR b)).
    set (ms := Zfloor (E - 1000 * IZR c)).
    pose proof (Zfloor_bound (es / 3600)) as Ha. fold a in Ha.
    pose proof (Zfloor_bound (es / 60)) as Hb. fold b in Hb.
    pose proof (Zfloor_bound es) as Hc. fold c in Hc.
    pose proof (Zfloor_bound ((es - 3600 * IZR a) / 60)) as Hm. fold m in Hm.
    pose proof (Zfloor_bound (es - 60 * IZR b)) as Hs. fold s in Hs.
    pose proof (Zfloor_bound (E - 1000 * IZR c)) as Hms. fold ms in Hms.
    assert (b = (60 * a + m)%Z) as Hbam.
    { unfold b. apply Zfloor_eq. rewrite plus_IZR, mult_IZR. lra. }
    assert (c = (60 * b + s)%Z) as Hcbs.
    { unfold c. apply Zfloor_eq. rewrite plus_IZR, mult_IZR. lra. }
    assert (Zfloor E = (1000 * c + ms)%Z) as HE'.
    { apply Zfloor_eq. rewrite plus_IZR, mult_IZR. unfold es in Hc. lra. }
    assert (0 <= a)%Z as Ha0 by (apply Zfloor_lub; lra).
    assert (0 <= m)%Z as Hm0 by (apply Zfloor_lub; lra).
    assert (0 <= s)%Z as Hs0 by (apply Zfloor_lub; lra).
    assert (0 <= ms)%Z as Hms0 by (apply Zfloor_lub; unfold es in Hc; lra).
    assert (m < 60)%Z as Hm1 by (apply lt_IZR; lra).
    assert (s < 60)%Z as Hs1 by (apply lt_IZR; lra).
    assert (ms < 1000)%Z as Hms1 by (apply lt_IZR; unfold es in Hc; lra).
    lia. }
  split; [exact Hparts|]. intros ->.
  destruct Hparts as (Hh & Hm & Hs & Hms & Hsum).
  rewrite ZfloorZ in Hsum.
  assert (hours p = 0 ∧ minutes p = 0 ∧ seconds p = 0 ∧ milliseconds p = 0)%Z
    as (H1 & H2 & H3 & H4) by lia.
  unfold clockText. fold p. by rewrite H1, H2, H3, H4.
Qed.

Lemma clock_fields_are_the_digits_of_the_elapsed_time_witness :
  let p := clockParts 3723004.5 in
  ((0 ≤ hours p) ∧ (0 ≤ minutes p < 60) ∧ (0 ≤ seconds p < 60)
   ∧ (0 ≤ milliseconds p < 1000)
   ∧ 3600000 * hours p + 60000 * minutes p + 1000 * seconds p
     + milliseconds p
     = Zfloor 3723004.5)%Z
  ∧ (3723004.5 = 0 → clockText 3723004.5 = "0:00:00.000").
Proof.
  apply (clock_fields_are_the_digits_of_the_elapsed_time 3723004.5). lra.
Defined.
End ClockDisplayFacts.
